(** * EC aggregation (src/object/srv_ec_aggregate.c): a shallow embedding

    The per-stripe reconciler of the erasure-coded object aggregation is
    embedded function by function.  Integers are [Z] with the wrap-around of
    the C type written out ([u32] for [unsigned int], [u64] for [uint64_t],
    [daos_off_t], [daos_epoch_t], [daos_size_t]).  The extent list
    [as_dextents] is a [list].  Calls that leave the file (VOS, the object
    client, Argobots, CaRT, the codec) are recorded as [event]s in a trace and
    take their return codes from an [environment]; what they write into the
    buffers and iovs they are handed is not modelled.  A failed [D_ASSERT],
    a division by zero, and a read or write through a pointer that is null or
    outside its array stop the run: [None] in the pure functions, [Crash] in
    the monad. *)

From Stdlib Require Import ZArith List Bool Lia.
From Stdlib Require String.
Import ListNotations.
Open Scope Z_scope.

(** Keys ([daos_key_t]) are kept as strings. *)
Definition daos_key_t : Type := String.string.

(** ** Machine integers *)

Definition u32 (x : Z) : Z := x mod 2 ^ 32.
Definition u64 (x : Z) : Z := x mod 2 ^ 64.

Arguments u32 : simpl never.
Arguments u64 : simpl never.

(** [~(0ULL)] and [~0UL] *)
Definition U64_MAX : Z := 2 ^ 64 - 1.
(** [~0] at type [uint32_t] *)
Definition U32_MAX : Z := 2 ^ 32 - 1.

Definition EC_AGG_CREDITS_MAX : Z := 1024.

(** Modelled from the spec: the header that defines [PARITY_INDICATOR] is not
    part of the sources; the spec calls it the reserved high bit of a record
    index. *)
Definition PARITY_INDICATOR : Z := 2 ^ 63.

(** [ABT_SUCCESS] of Argobots. *)
Definition ABT_SUCCESS : Z := 0.

Arguments U64_MAX : simpl never.
Arguments U32_MAX : simpl never.
Arguments PARITY_INDICATOR : simpl never.

(** ** Data model *)

Record daos_recx_t := mk_recx { rx_idx : Z; rx_nr : Z }.

Record ec_agg_par_extent := mk_par {
  ape_recx  : daos_recx_t;
  ape_epoch : Z
}.

Record ec_agg_extent := mk_ext {
  ae_recx  : daos_recx_t;
  ae_epoch : Z;
  ae_hole  : bool
}.

Record ec_agg_stripe := mk_stripe {
  as_stripenum   : Z;
  as_hi_epoch    : Z;
  as_dextents    : list ec_agg_extent;
  as_stripe_fill : Z;
  as_extent_cnt  : Z;
  as_offset      : Z;
  as_prefix_ext  : Z;
  as_suffix_ext  : Z;
  as_has_holes   : bool
}.

(** The [u.ec] part of [struct daos_oclass_attr]. *)
Record daos_oclass_attr := mk_oca { e_k : Z; e_p : Z; e_len : Z }.

Inductive agg_iov_entry :=
| AGG_IOV_DATA | AGG_IOV_ODATA | AGG_IOV_PARITY | AGG_IOV_DIFF.

Definition AGG_IOV_CNT : Z := 4.

(** One iov of the array of [ae_sgl]: whether [iov_buf] points to a buffer,
    [iov_buf_len], and [iov_len] (called [iov_length] here: [iov_len] names
    the field of the iovs that are handed to the outside, below). *)
Record agg_iov := mk_agg_iov { iov_buf : bool; iov_buf_len : Z; iov_length : Z }.

(** [ae_sgl]: [sg_nr] and the four iovs of the array [sg_iovs] was given. *)
Record agg_sgl := mk_agg_sgl {
  ae_sg_nr   : Z;
  iov_data   : agg_iov;
  iov_odata  : agg_iov;
  iov_parity : agg_iov;
  iov_diff   : agg_iov
}.

Record ec_agg_entry := mk_entry {
  ae_oid_shard  : Z;                 (* ae_oid.id_shard *)
  ae_oca        : daos_oclass_attr;
  ae_codec      : bool;              (* ae_codec != NULL *)
  ae_sgl        : agg_sgl;
  ae_sg_iovs    : option Z;          (* ae_sgl.sg_iovs: NULL, or the number of
                                        iovs it stands past the start of its
                                        array *)
  ae_dkey       : daos_key_t;
  ae_akey       : daos_key_t;
  ae_rsize      : Z;
  ae_cur_stripe : ec_agg_stripe;
  ae_par_extent : ec_agg_par_extent;
  ae_obj_hdl    : bool;              (* !daos_handle_is_inval(ae_obj_hdl) *)
  ae_peer_rank  : Z;
  ae_peer_idx   : Z
}.

(** The fields of [vos_iter_entry_t] the callbacks read. *)
Record vos_iter_entry_t := mk_ie {
  ie_recx  : daos_recx_t;
  ie_epoch : Z;
  ie_rsize : Z;
  ie_hole  : bool;                   (* ie_biov.bi_addr.ba_hole *)
  ie_key   : daos_key_t
}.

(** A [d_iov_t] handed to the outside: [iov_buf] as the [iov_buf] of one of
    the entry's four iovs plus a byte offset, and [iov_len]. *)
Record d_iov_t := mk_iov { iov_slot : agg_iov_entry; iov_off : Z; iov_len : Z }.

(** A [d_sg_list_t]: [sg_nr] and the iovs that were set, in array order
    (an array allocated longer than that is zero past them). *)
Record d_sg_list_t := mk_sgl { sg_nr : Z; sg_iovs : list d_iov_t }.

(** Field updates. *)

Definition with_stripe (s : ec_agg_stripe) (e : ec_agg_entry) : ec_agg_entry :=
  mk_entry (ae_oid_shard e) (ae_oca e) (ae_codec e) (ae_sgl e) (ae_sg_iovs e)
           (ae_dkey e) (ae_akey e)
           (ae_rsize e) s (ae_par_extent e) (ae_obj_hdl e) (ae_peer_rank e)
           (ae_peer_idx e).

Definition with_par_extent (p : ec_agg_par_extent) (e : ec_agg_entry) : ec_agg_entry :=
  mk_entry (ae_oid_shard e) (ae_oca e) (ae_codec e) (ae_sgl e) (ae_sg_iovs e)
           (ae_dkey e) (ae_akey e)
           (ae_rsize e) (ae_cur_stripe e) p (ae_obj_hdl e) (ae_peer_rank e)
           (ae_peer_idx e).

Definition with_codec (c : bool) (e : ec_agg_entry) : ec_agg_entry :=
  mk_entry (ae_oid_shard e) (ae_oca e) c (ae_sgl e) (ae_sg_iovs e)
           (ae_dkey e) (ae_akey e)
           (ae_rsize e) (ae_cur_stripe e) (ae_par_extent e) (ae_obj_hdl e)
           (ae_peer_rank e) (ae_peer_idx e).

Definition with_rsize (r : Z) (e : ec_agg_entry) : ec_agg_entry :=
  mk_entry (ae_oid_shard e) (ae_oca e) (ae_codec e) (ae_sgl e) (ae_sg_iovs e)
           (ae_dkey e) (ae_akey e)
           r (ae_cur_stripe e) (ae_par_extent e) (ae_obj_hdl e)
           (ae_peer_rank e) (ae_peer_idx e).

Definition with_obj_hdl (h : bool) (e : ec_agg_entry) : ec_agg_entry :=
  mk_entry (ae_oid_shard e) (ae_oca e) (ae_codec e) (ae_sgl e) (ae_sg_iovs e)
           (ae_dkey e) (ae_akey e)
           (ae_rsize e) (ae_cur_stripe e) (ae_par_extent e) h
           (ae_peer_rank e) (ae_peer_idx e).

Definition with_peer (rank idx : Z) (e : ec_agg_entry) : ec_agg_entry :=
  mk_entry (ae_oid_shard e) (ae_oca e) (ae_codec e) (ae_sgl e) (ae_sg_iovs e)
           (ae_dkey e) (ae_akey e)
           (ae_rsize e) (ae_cur_stripe e) (ae_par_extent e) (ae_obj_hdl e)
           rank idx.

Definition with_sgl (sgl : agg_sgl) (e : ec_agg_entry) : ec_agg_entry :=
  mk_entry (ae_oid_shard e) (ae_oca e) (ae_codec e) sgl (ae_sg_iovs e)
           (ae_dkey e) (ae_akey e)
           (ae_rsize e) (ae_cur_stripe e) (ae_par_extent e) (ae_obj_hdl e)
           (ae_peer_rank e) (ae_peer_idx e).

Definition with_sg_iovs (sg_iovs : option Z) (e : ec_agg_entry) : ec_agg_entry :=
  mk_entry (ae_oid_shard e) (ae_oca e) (ae_codec e) (ae_sgl e) sg_iovs
           (ae_dkey e) (ae_akey e)
           (ae_rsize e) (ae_cur_stripe e) (ae_par_extent e) (ae_obj_hdl e)
           (ae_peer_rank e) (ae_peer_idx e).

Definition with_suffix_ext (v : Z) (s : ec_agg_stripe) : ec_agg_stripe :=
  mk_stripe (as_stripenum s) (as_hi_epoch s) (as_dextents s) (as_stripe_fill s)
            (as_extent_cnt s) (as_offset s) (as_prefix_ext s) v (as_has_holes s).

Definition with_stripenum (v : Z) (s : ec_agg_stripe) : ec_agg_stripe :=
  mk_stripe v (as_hi_epoch s) (as_dextents s) (as_stripe_fill s)
            (as_extent_cnt s) (as_offset s) (as_prefix_ext s) (as_suffix_ext s)
            (as_has_holes s).

(** ** Stripe geometry *)

(** Modelled from the spec: [obj_ec_stripe_rec_nr] comes from obj_ec.h, which
    is not part of the sources; the spec gives the stripe as [k * len] record
    indices ([stripenum = ex_lo / (k * len)]).  Its users store it in an
    [unsigned int]. *)
Definition obj_ec_stripe_rec_nr (oca : daos_oclass_attr) : Z :=
  u32 (e_k oca * e_len oca).

(** Unsigned division; the divisor 0 traps. *)
Definition udiv (a b : Z) : option Z :=
  if b =? 0 then None else Some (a / b).

(** [agg_carry_over]: the number of records of the extent that lie in the
    stripe after the one it starts in; [None] when the [D_ASSERT] fails. *)
Definition agg_carry_over (oca : daos_oclass_attr) (agg_extent : ec_agg_extent)
  : option Z :=
  let stripe_size := obj_ec_stripe_rec_nr oca in
  let recx := ae_recx agg_extent in
  match udiv (rx_idx recx) stripe_size,
        udiv (u64 (rx_idx recx + rx_nr recx - 1)) stripe_size with
  | Some start_stripe, Some end_stripe =>
      if end_stripe >? start_stripe then
        if u64 (end_stripe - start_stripe) =? 1 then
          Some (u32 (u64 (rx_idx recx + rx_nr recx - end_stripe * stripe_size)))
        else None
      else Some 0
  | _, _ => None
  end.

(** The loop of [agg_clear_extents].  [ptail], [prefix], [cnt] and
    [carry_is_hole] are the locals and fields the loop updates; [kept]
    collects (in list order) the extents that stay linked. *)
Fixpoint agg_clear_extents_loop (oca : daos_oclass_attr)
    (l : list ec_agg_extent) (ptail prefix cnt : Z) (carry_is_hole : bool)
    (kept : list ec_agg_extent)
  : option (Z * Z * Z * bool * list ec_agg_extent) :=
  match l with
  | [] => Some (ptail, prefix, cnt, carry_is_hole, kept)
  | agg_extent :: rest =>
      match agg_carry_over oca agg_extent with
      | None => None
      | Some tail =>
          let carry_is_hole' :=
            if ae_hole agg_extent then true else carry_is_hole in
          if negb (tail =? 0) then
            if ptail =? 0 then
              let recx := ae_recx agg_extent in
              let d := u64 (rx_nr recx - tail) in
              let trimmed :=
                mk_ext (mk_recx (u64 (rx_idx recx + d)) tail)
                       (ae_epoch agg_extent) (ae_hole agg_extent) in
              agg_clear_extents_loop oca rest tail (u32 d) cnt carry_is_hole'
                                     (kept ++ [trimmed])
            else None
          else
            agg_clear_extents_loop oca rest ptail prefix (u32 (cnt - 1))
                                   carry_is_hole' kept
      end
  end.

Definition agg_clear_extents (agg_entry : ec_agg_entry) : option ec_agg_entry :=
  let s := ae_cur_stripe agg_entry in
  match agg_clear_extents_loop (ae_oca agg_entry) (as_dextents s)
                               0 0 (as_extent_cnt s) false [] with
  | None => None
  | Some (ptail, prefix, cnt, carry_is_hole, kept) =>
      Some (with_stripe
              (mk_stripe (as_stripenum s) 0 kept ptail cnt 0 prefix
                         (as_suffix_ext s) (if carry_is_hole then true else false))
              agg_entry)
  end.

Definition agg_stripenum (entry : ec_agg_entry) (ex_lo : Z) : option Z :=
  udiv ex_lo (obj_ec_stripe_rec_nr (ae_oca entry)).

(** [agg_recx_iter_pre_cb]: the callback of the parity probe. *)
Definition agg_recx_iter_pre_cb (entry : daos_recx_t * Z)
    (agg_entry : ec_agg_entry) : option ec_agg_entry :=
  if rx_idx (fst entry) =?
     Z.lor PARITY_INDICATOR
           (u64 (as_stripenum (ae_cur_stripe agg_entry) *
                 e_len (ae_oca agg_entry)))
  then Some (with_par_extent (mk_par (fst entry) (snd entry)) agg_entry)
  else None.

Definition agg_data_is_newer (entry : ec_agg_entry) : bool :=
  forallb (fun agg_extent =>
             negb (ae_epoch agg_extent <? ape_epoch (ae_par_extent entry)))
          (as_dextents (ae_cur_stripe entry)).

Definition agg_stripe_is_filled (entry : ec_agg_entry) (has_parity : bool) : bool :=
  let is_filled :=
    as_stripe_fill (ae_cur_stripe entry) =?
    u32 (e_k (ae_oca entry) * e_len (ae_oca entry)) in
  if is_filled then
    if negb has_parity || agg_data_is_newer entry then true else false
  else false.

(** [agg_get_carry_under]: the value stored in [as_suffix_ext]. *)
Fixpoint agg_get_carry_under_loop (oca : daos_oclass_attr)
    (l : list ec_agg_extent) : option Z :=
  match l with
  | [] => Some 0
  | agg_extent :: rest =>
      match agg_carry_over oca agg_extent with
      | None => None
      | Some tail =>
          if negb (tail =? 0)
          then Some (u32 (u64 (rx_nr (ae_recx agg_extent) - tail)))
          else agg_get_carry_under_loop oca rest
      end
  end.

Definition agg_get_carry_under (entry : ec_agg_entry) : option Z :=
  agg_get_carry_under_loop (ae_oca entry) (as_dextents (ae_cur_stripe entry)).

(** [agg_overlap] *)
Definition agg_overlap (recx : daos_recx_t) (cell k len stripenum : Z) : bool :=
  let cell_start := u64 (u64 (u32 (k * len) * stripenum) + u32 (len * cell)) in
  if (cell_start <=? rx_idx recx) && (rx_idx recx <? u64 (cell_start + len))
  then true
  else if (rx_idx recx <=? cell_start) &&
          (cell_start <? u64 (rx_idx recx + rx_nr recx))
  then true
  else false.

(** [agg_in_stripe] *)
Definition agg_in_stripe (entry : ec_agg_entry) (recx : daos_recx_t) : option Z :=
  let len := e_len (ae_oca entry) in
  let k := e_k (ae_oca entry) in
  match udiv (rx_idx recx) (u32 (len * k)) with
  | None => None
  | Some stripe =>
      let stripe_end := u64 (u64 ((stripe + 1) * len) * k) in
      if u64 (rx_idx recx + rx_nr recx) >? stripe_end
      then Some (u64 (stripe_end - rx_idx recx))
      else Some (rx_nr recx)
  end.

(** ** The sgl of the entry *)

Definition sgl_iov (sgl : agg_sgl) (iov_entry : agg_iov_entry) : agg_iov :=
  match iov_entry with
  | AGG_IOV_DATA => iov_data sgl
  | AGG_IOV_ODATA => iov_odata sgl
  | AGG_IOV_PARITY => iov_parity sgl
  | AGG_IOV_DIFF => iov_diff sgl
  end.

Definition sgl_set (sgl : agg_sgl) (iov_entry : agg_iov_entry) (v : agg_iov)
  : agg_sgl :=
  match iov_entry with
  | AGG_IOV_DATA =>
      mk_agg_sgl (ae_sg_nr sgl) v (iov_odata sgl) (iov_parity sgl) (iov_diff sgl)
  | AGG_IOV_ODATA =>
      mk_agg_sgl (ae_sg_nr sgl) (iov_data sgl) v (iov_parity sgl) (iov_diff sgl)
  | AGG_IOV_PARITY =>
      mk_agg_sgl (ae_sg_nr sgl) (iov_data sgl) (iov_odata sgl) v (iov_diff sgl)
  | AGG_IOV_DIFF =>
      mk_agg_sgl (ae_sg_nr sgl) (iov_data sgl) (iov_odata sgl) (iov_parity sgl) v
  end.

Definition sgl_with_nr (n : Z) (sgl : agg_sgl) : agg_sgl :=
  mk_agg_sgl n (iov_data sgl) (iov_odata sgl) (iov_parity sgl) (iov_diff sgl).

Definition iov_with_length (n : Z) (iov : agg_iov) : agg_iov :=
  mk_agg_iov (iov_buf iov) (iov_buf_len iov) n.

(** The place of an iov in the array, and the iov at a place. *)
Definition iov_index (iov_entry : agg_iov_entry) : Z :=
  match iov_entry with
  | AGG_IOV_DATA => 0
  | AGG_IOV_ODATA => 1
  | AGG_IOV_PARITY => 2
  | AGG_IOV_DIFF => 3
  end.

Definition iov_at (n : Z) : option agg_iov_entry :=
  if n =? 0 then Some AGG_IOV_DATA
  else if n =? 1 then Some AGG_IOV_ODATA
  else if n =? 2 then Some AGG_IOV_PARITY
  else if n =? 3 then Some AGG_IOV_DIFF
  else None.

(** [&entry->ae_sgl.sg_iovs[iov_entry]]: the iov of the array that the index
    reaches from where [sg_iovs] stands; [None] when [sg_iovs] is null or the
    index leaves the array. *)
Definition sg_iov (entry : ec_agg_entry) (iov_entry : agg_iov_entry)
  : option agg_iov_entry :=
  match ae_sg_iovs entry with
  | None => None
  | Some n => iov_at (n + iov_index iov_entry)
  end.

(** The [cnt] iovs a callee reads from [sg_iovs] on, each with the [iov_buf]
    and the [iov_len] it holds. *)
Fixpoint sg_iovs_from (sgl : agg_sgl) (sg_iovs : option Z) (cnt : nat)
  : option (list d_iov_t) :=
  match cnt with
  | O => Some []
  | S cnt' =>
      match sg_iovs with
      | None => None
      | Some n =>
          match iov_at n, sg_iovs_from sgl (Some (n + 1)) cnt' with
          | Some slot, Some rest =>
              Some (mk_iov slot 0 (iov_length (sgl_iov sgl slot)) :: rest)
          | _, _ => None
          end
      end
  end.

(** [&entry->ae_sgl] as a callee reads it: [sg_nr] iovs from where [sg_iovs]
    stands; [None] when one of them lies outside the array. *)
Definition entry_sgl (entry : ec_agg_entry) : option d_sg_list_t :=
  let sgl := ae_sgl entry in
  match sg_iovs_from sgl (ae_sg_iovs entry) (Z.to_nat (ae_sg_nr sgl)) with
  | None => None
  | Some iovs => Some (mk_sgl (ae_sg_nr sgl) iovs)
  end.

Section Buffers.

(** The [DER_NOMEM] code, and the allocator: whether the allocation for a
    slot succeeds ([None] is the array [sg_iovs] itself). *)
Variable der_nomem : Z.
Variable allocs : option agg_iov_entry -> bool.

(** [agg_alloc_buf]: with [align_data] the old buffer is freed before
    [aligned_alloc] is tried; otherwise the buffer is reallocated. *)
Definition agg_alloc_buf (sgl : agg_sgl) (ent_buf_len : Z)
    (iov_entry : agg_iov_entry) (align_data : bool) : Z * agg_sgl :=
  if align_data then
    if allocs (Some iov_entry)
    then (0, sgl_set sgl iov_entry (mk_agg_iov true ent_buf_len ent_buf_len))
    else (- der_nomem,
          sgl_set sgl iov_entry
                  (mk_agg_iov false (iov_buf_len (sgl_iov sgl iov_entry))
                              (iov_length (sgl_iov sgl iov_entry))))
  else
    if allocs (Some iov_entry)
    then (0, sgl_set sgl iov_entry (mk_agg_iov true ent_buf_len ent_buf_len))
    else (- der_nomem, sgl).

(** One of the four checks of [agg_prep_sgl]: grow the buffer when it is
    shorter than needed, leave on an error, go on otherwise. *)
Definition agg_prep_sgl_check (iov_entry : agg_iov_entry) (need : Z)
    (align_data : bool) (next : agg_sgl -> option (Z * agg_sgl))
    (sgl : agg_sgl) : option (Z * agg_sgl) :=
  if iov_buf_len (sgl_iov sgl iov_entry) <? need then
    let '(rc, sgl') := agg_alloc_buf sgl need iov_entry align_data in
    if negb (rc =? 0) then Some (rc, sgl') else next sgl'
  else next sgl.

(** [agg_prep_sgl] on the iovs of the sgl while [sg_iovs] stands at the start
    of its array, for the object class and record size of the entry; [None]
    when the assertion on [sg_nr] fails. *)
Definition agg_prep_sgl_bufs (oca : daos_oclass_attr) (rsize : Z)
    (sgl : agg_sgl) : option (Z * agg_sgl) :=
  let len := e_len oca in
  let k := e_k oca in
  let p := e_p oca in
  if (ae_sg_nr sgl =? 0) && negb (allocs None) then Some (- der_nomem, sgl) else
  let sgl :=
    if ae_sg_nr sgl =? 0
    then mk_agg_sgl AGG_IOV_CNT (mk_agg_iov false 0 0) (mk_agg_iov false 0 0)
                    (mk_agg_iov false 0 0) (mk_agg_iov false 0 0)
    else sgl in
  if negb (ae_sg_nr sgl =? AGG_IOV_CNT) then None else
  let data_buf_len := u64 (u32 (len * k) * rsize) in
  let par_buf_len := u64 (u32 (len * p) * rsize) in
  agg_prep_sgl_check AGG_IOV_DATA data_buf_len true
    (agg_prep_sgl_check AGG_IOV_ODATA data_buf_len true
       (agg_prep_sgl_check AGG_IOV_DIFF (u64 (len * rsize)) true
          (agg_prep_sgl_check AGG_IOV_PARITY par_buf_len false
             (fun sgl => Some (0, sgl)))))
    sgl.

End Buffers.

(** ** The world outside the file *)

Record obj_ec_agg_in := mk_agg_in {
  ea_pool_uuid : Z;
  ea_coh_uuid  : Z;
  ea_cont_uuid : Z;
  ea_oid_shard : Z;
  ea_dkey      : daos_key_t;
  ea_akey      : daos_key_t;
  ea_rsize     : Z;
  ea_epoch     : Z;
  ea_stripenum : Z;
  ea_map_ver   : Z;
  ea_prior_len : Z;
  ea_after_len : Z;
  ea_bulk      : d_sg_list_t
}.

Record obj_ec_rep_in := mk_rep_in {
  er_pool_uuid : Z;
  er_coh_uuid  : Z;
  er_cont_uuid : Z;
  er_oid_shard : Z;
  er_dkey      : daos_key_t;
  er_iod_name  : daos_key_t;
  er_iod_size  : Z;
  er_iod_nr    : Z;
  er_iod_recxs : list daos_recx_t;
  er_stripenum : Z;
  er_epoch     : Z;
  er_map_ver   : Z;
  er_bulk      : d_sg_list_t
}.

(** One constructor per call that leaves the file and touches the store, a
    peer or the codec.  [iod_nr] is passed next to the array it bounds. *)
Inductive event :=
| E_vos_iterate (ip_recx : daos_recx_t)
| E_vos_obj_fetch (epoch : Z) (iod_nr : Z) (recxs : list daos_recx_t)
                  (sgl : d_sg_list_t)
| E_vos_obj_update (epoch : Z) (iod_nr : Z) (recxs : list daos_recx_t)
                   (sgl : d_sg_list_t)
| E_vos_obj_array_remove (epr_lo epr_hi : Z) (recx : daos_recx_t)
| E_dsc_obj_open
| E_dsc_obj_fetch (epoch : Z) (iod_nr : Z) (recxs : list daos_recx_t)
                  (sgl : d_sg_list_t) (shard : option Z)
| E_ec_encode_data (cell_bytes k p : Z) (data parity_bufs : list d_iov_t)
| E_xor_gen (old new diff : d_iov_t)
| E_ec_encode_data_update (cell_bytes k p j : Z) (diff : d_iov_t)
                          (parity_bufs : list d_iov_t)
| E_rpc_ec_aggregate (ep_rank ep_tag : Z) (ec_agg_in : obj_ec_agg_in)
| E_rpc_ec_replicate (ep_rank ep_tag : Z) (ec_rep_in : obj_ec_rep_in).

(** What the outside answers during one callback. *)
Record environment := mk_env {
  DER_NOMEM_code     : positive;   (* the DER_NOMEM code, a positive number *)
  dss_abterr2der     : Z -> Z;
  alloc_ok           : bool;       (* D_ALLOC, D_REALLOC, aligned_alloc *)
  probe_rc           : Z;          (* vos_iterate of the parity probe *)
  probe_entries      : list (daos_recx_t * Z);  (* (ie_recx, ie_epoch) it visits *)
  vos_obj_fetch_rc   : Z;
  vos_obj_update_rc  : Z;
  vos_obj_array_remove_rc : Z;
  dsc_obj_open_rc    : Z;
  dsc_obj_fetch_rc   : Z;
  ABT_eventual_create_rc : Z;
  dss_ult_create_rc  : Z;
  ABT_eventual_wait_rc : Z;
  xor_gen_rc         : Z;
  crt_req_create_rc  : Z;
  crt_bulk_create_rc : Z;
  dss_rpc_send_rc    : Z;
  reply_status       : Z;          (* ea_status / er_status of the reply *)
  myrank             : Z;
  layout             : list (list (Z * Z));  (* (sd_rank, sd_tgt_idx) per shard *)
  api_pool_uuid      : Z;
  api_poh_uuid       : Z;
  api_cont_uuid      : Z;
  api_coh_uuid       : Z;
  sp_map_version     : Z
}.

Definition DER_NOMEM (env : environment) : Z := Z.pos (DER_NOMEM_code env).

Record world := mk_world { w_entry : ec_agg_entry; w_trace : list event }.

Inductive outcome (A : Type) :=
| Ret (a : A) (w : world)
| Crash (w : world).
Arguments Ret {A} a w.
Arguments Crash {A} w.

Definition M (A : Type) : Type := world -> outcome A.

Definition ret {A} (a : A) : M A := fun w => Ret a w.

Definition bind {A B} (m : M A) (f : A -> M B) : M B :=
  fun w => match m w with
           | Ret a w' => f a w'
           | Crash w' => Crash w'
           end.

Declare Scope agg_scope.
Delimit Scope agg_scope with agg.
Notation "x <- c1 ;; c2" := (bind c1 (fun x => c2))
  (at level 61, c1 at next level, right associativity) : agg_scope.
Notation "c1 ;;; c2" := (bind c1 (fun _ => c2))
  (at level 61, right associativity) : agg_scope.
Open Scope agg_scope.

Definition get_entry : M ec_agg_entry := fun w => Ret (w_entry w) w.

Definition put_entry (e : ec_agg_entry) : M unit :=
  fun w => Ret tt (mk_world e (w_trace w)).

Definition emit (ev : event) : M unit :=
  fun w => Ret tt (mk_world (w_entry w) (w_trace w ++ [ev])).

Definition crash {A} : M A := fun w => Crash w.

Definition D_ASSERT (b : bool) : M unit := if b then ret tt else crash.

(** Runs a function of the entry that can fail an assertion. *)
Definition lift {A} (f : ec_agg_entry -> option A) : M A :=
  e <- get_entry ;;
  match f e with
  | Some a => ret a
  | None => crash
  end.

Definition update_entry (f : ec_agg_entry -> option ec_agg_entry) : M unit :=
  e <- lift f ;; put_entry e.

(** The integers [0 .. n-1], the range of [for (i = 0; i < n; i++)]. *)
Definition upto (n : Z) : list Z := map Z.of_nat (seq 0 (Z.to_nat n)).

Definition outcome_trace {A} (o : outcome A) : list event :=
  match o with
  | Ret _ w => w_trace w
  | Crash w => w_trace w
  end.

(** A read or write that has to lie inside its array. *)
Definition in_bounds (b : bool) : M unit := if b then ret tt else crash.

(** [entry->ae_sgl.sg_nr = n] *)
Definition set_sg_nr (n : Z) : M unit :=
  entry <- get_entry ;;
  put_entry (with_sgl (sgl_with_nr n (ae_sgl entry)) entry).

(** [entry->ae_sgl.sg_iovs[iov_entry].iov_buf], read into a local: the iov
    whose buffer it is. *)
Definition sg_iov_buf (iov_entry : agg_iov_entry) : M agg_iov_entry :=
  entry <- get_entry ;;
  match sg_iov entry iov_entry with
  | None => crash
  | Some slot => ret slot
  end.

(** [entry->ae_sgl.sg_iovs[iov_entry].iov_len = n] *)
Definition set_iov_len (iov_entry : agg_iov_entry) (n : Z) : M unit :=
  entry <- get_entry ;;
  match sg_iov entry iov_entry with
  | None => crash
  | Some slot =>
      put_entry
        (with_sgl (sgl_set (ae_sgl entry) slot
                           (iov_with_length n (sgl_iov (ae_sgl entry) slot)))
                  entry)
  end.

(** [(entry->ae_sgl.sg_iovs)++] and [(entry->ae_sgl.sg_iovs)--] *)
Definition move_sg_iovs (d : Z) : M unit :=
  entry <- get_entry ;;
  put_entry (with_sg_iovs (option_map (Z.add d) (ae_sg_iovs entry)) entry).

Section Aggregate.

Variable env : environment.

(** One of the four checks of [agg_prep_sgl], through [sg_iovs] as it
    stands. *)
Definition agg_prep_sgl_buf (iov_entry : agg_iov_entry) (need : Z)
    (align_data : bool) : M Z :=
  entry <- get_entry ;;
  match sg_iov entry iov_entry with
  | None => crash
  | Some slot =>
      if iov_buf_len (sgl_iov (ae_sgl entry) slot) <? need then
        let '(rc, sgl) :=
          agg_alloc_buf (DER_NOMEM env) (fun _ => alloc_ok env) (ae_sgl entry)
                        need slot align_data in
        put_entry (with_sgl sgl entry) ;;;
        ret rc
      else ret 0
  end.

(** [agg_prep_sgl] *)
Definition agg_prep_sgl : M Z :=
  entry <- get_entry ;;
  let len := e_len (ae_oca entry) in
  let k := e_k (ae_oca entry) in
  let p := e_p (ae_oca entry) in
  if (ae_sg_nr (ae_sgl entry) =? 0) && negb (alloc_ok env) then
    put_entry (with_sg_iovs None entry) ;;;
    ret (- DER_NOMEM env)
  else
  (if ae_sg_nr (ae_sgl entry) =? 0 then
     put_entry
       (with_sg_iovs (Some 0)
          (with_sgl (mk_agg_sgl AGG_IOV_CNT (mk_agg_iov false 0 0)
                                (mk_agg_iov false 0 0) (mk_agg_iov false 0 0)
                                (mk_agg_iov false 0 0))
                    entry))
   else ret tt) ;;;
  entry <- get_entry ;;
  D_ASSERT (ae_sg_nr (ae_sgl entry) =? AGG_IOV_CNT) ;;;
  let data_buf_len := u64 (u32 (len * k) * ae_rsize entry) in
  rc <- agg_prep_sgl_buf AGG_IOV_DATA data_buf_len true ;;
  if negb (rc =? 0) then ret rc else
  rc <- agg_prep_sgl_buf AGG_IOV_ODATA data_buf_len true ;;
  if negb (rc =? 0) then ret rc else
  rc <- agg_prep_sgl_buf AGG_IOV_DIFF (u64 (len * ae_rsize entry)) true ;;
  if negb (rc =? 0) then ret rc else
  let par_buf_len := u64 (u32 (len * p) * ae_rsize entry) in
  agg_prep_sgl_buf AGG_IOV_PARITY par_buf_len false.

(** [ABT_eventual_create], [ABT_eventual_wait] *)
Definition ABT_eventual_create : M Z := ret (ABT_eventual_create_rc env).
Definition ABT_eventual_wait : M Z := ret (ABT_eventual_wait_rc env).

(** [dss_ult_create]: when it succeeds the ULT runs on the helper xstream
    and leaves its status in the eventual; the pair is (rc, status). *)
Definition dss_ult_create {A} (ult : M A) (unset : A) : M (Z * A) :=
  if negb (dss_ult_create_rc env =? 0)
  then ret (dss_ult_create_rc env, unset)
  else status <- ult ;; ret (0, status).

(** [agg_fetch_data_stripe] *)
Definition agg_fetch_data_stripe : M Z :=
  entry <- get_entry ;;
  let len := e_len (ae_oca entry) in
  let k := e_k (ae_oca entry) in
  rc <- agg_prep_sgl ;;
  if negb (rc =? 0) then ret rc else
  let recx :=
    mk_recx (u64 (u64 (as_stripenum (ae_cur_stripe entry) * k) * len))
            (u32 (k * len)) in
  set_sg_nr 1 ;;;
  set_iov_len AGG_IOV_DATA (u64 (u32 (len * k) * ae_rsize entry)) ;;;
  sgl <- lift entry_sgl ;;
  emit (E_vos_obj_fetch (as_hi_epoch (ae_cur_stripe entry)) 1 [recx] sgl) ;;;
  let rc := vos_obj_fetch_rc env in
  set_sg_nr AGG_IOV_CNT ;;;
  ret rc.

(** The cell pointers [&buf[i * cell_bytes]], [i < n], into one buffer. *)
Definition cell_ptrs (slot : agg_iov_entry) (n cell_bytes : Z) : list d_iov_t :=
  map (fun i => mk_iov slot (u32 (i * cell_bytes)) cell_bytes) (upto n).

Definition cell_bytes_of (entry : ec_agg_entry) : Z :=
  u32 (u64 (e_len (ae_oca entry) * ae_rsize entry)).

(** [agg_encode_full_stripe_ult]; its result is the status it sets into the
    eventual. *)
Definition agg_encode_full_stripe_ult : M Z :=
  entry <- get_entry ;;
  let k := e_k (ae_oca entry) in
  let p := e_p (ae_oca entry) in
  let cell_bytes := cell_bytes_of entry in
  let rc := 0 in
  buf <- sg_iov_buf AGG_IOV_DATA ;;
  pbuf <- sg_iov_buf AGG_IOV_PARITY ;;
  put_entry (with_codec true entry) ;;;
  emit (E_ec_encode_data cell_bytes k p
          (cell_ptrs buf k cell_bytes)
          (cell_ptrs pbuf p cell_bytes)) ;;;
  ret rc.

(** [agg_encode_full_stripe] *)
Definition agg_encode_full_stripe : M Z :=
  rc <- ABT_eventual_create ;;
  if negb (rc =? ABT_SUCCESS) then ret (dss_abterr2der env rc) else
  r <- dss_ult_create agg_encode_full_stripe_ult 0 ;;
  let '(rc, status) := r in
  if negb (rc =? 0) then ret rc else
  rc <- ABT_eventual_wait ;;
  if negb (rc =? ABT_SUCCESS) then ret (dss_abterr2der env rc) else
  if negb (status =? 0) then ret status else ret 0.

(** [agg_encode_local_parity]: the result of [agg_encode_full_stripe] is
    dropped, as in the source. *)
Definition agg_encode_local_parity : M Z :=
  rc <- agg_fetch_data_stripe ;;
  if negb (rc =? 0) then ret rc else
  agg_encode_full_stripe ;;;
  ret rc.

(** [agg_update_vos]: the commit.  [vos_obj_update] is handed the address
    of the parity iov and reads the iov through it: its [iov_len] is the one
    the iov holds. *)
Definition agg_update_vos : M Z :=
  entry <- get_entry ;;
  let len := e_len (ae_oca entry) in
  let k := e_k (ae_oca entry) in
  let s := ae_cur_stripe entry in
  let recx :=
    mk_recx (u64 (u64 (u64 (as_stripenum s * k) * len) - as_prefix_ext s))
            (u32 (u32 (u32 (k * len) + as_prefix_ext s) - as_suffix_ext s)) in
  emit (E_vos_obj_array_remove 0 (as_hi_epoch s) recx) ;;;
  let recx := mk_recx (Z.lor (u64 (as_stripenum s * len)) PARITY_INDICATOR) len in
  match sg_iov entry AGG_IOV_PARITY with
  | None => crash
  | Some iov =>
      emit (E_vos_obj_update (as_hi_epoch s) 1 [recx]
              (mk_sgl 1 [mk_iov iov 0 (iov_length (sgl_iov (ae_sgl entry) iov))])) ;;;
      ret (vos_obj_update_rc env)
  end.

(** [agg_get_obj_handle]: the loop over the layout. *)
Fixpoint agg_get_obj_handle_loop (shards : list (Z * Z)) (prevrank previdx : Z)
    (peer : option (Z * Z)) : option (option (Z * Z)) :=
  match shards with
  | [] => Some peer
  | (sd_rank, sd_tgt_idx) :: rest =>
      if sd_rank =? myrank env then
        if negb (previdx =? U32_MAX)
        then agg_get_obj_handle_loop rest prevrank previdx
                                     (Some (prevrank, previdx))
        else None
      else agg_get_obj_handle_loop rest sd_rank sd_tgt_idx peer
  end.

Definition agg_get_obj_handle : M Z :=
  entry <- get_entry ;;
  if negb (ae_obj_hdl entry) then
    emit E_dsc_obj_open ;;;
    let rc := dsc_obj_open_rc env in
    if rc =? 0 then
      match agg_get_obj_handle_loop (List.concat (layout env)) U32_MAX U32_MAX None with
      | None => crash
      | Some None => put_entry (with_obj_hdl true entry) ;;; ret rc
      | Some (Some (rank, idx)) =>
          put_entry (with_peer rank idx (with_obj_hdl true entry)) ;;; ret rc
      end
    else ret rc
  else ret 0.

(** ** Partial stripes *)

(** [isset], [setbit], [clrbit] on the cell bitmap, kept as one integer. *)
Definition isset (bit_map i : Z) : bool := Z.testbit bit_map i.
Definition setbit (bit_map i : Z) : Z := Z.setbit bit_map i.
Definition clrbit (bit_map i : Z) : Z := Z.clearbit bit_map i.

(** The recx array the two fetches build from the bitmap. *)
Definition bitmap_recxs (entry : ec_agg_entry) (bit_map : Z) : list daos_recx_t :=
  let len := e_len (ae_oca entry) in
  let k := e_k (ae_oca entry) in
  map (fun i =>
         mk_recx (u64 (u64 (u64 (as_stripenum (ae_cur_stripe entry) * k) * len)
                       + u32 (i * len)))
                 len)
      (filter (isset bit_map) (upto k)).

(** [agg_fetch_odata_cells].  [recxs] has [cell_cnt] entries, one is
    written for every set bit.  When the object cannot be opened, [sg_nr]
    stays 1 and [sg_iovs] stays one iov ahead. *)
Definition agg_fetch_odata_cells (bit_map cell_cnt : Z) (is_recalc : bool) : M Z :=
  entry <- get_entry ;;
  let len := e_len (ae_oca entry) in
  if negb (alloc_ok env) then ret (- DER_NOMEM env) else
  let recxs := bitmap_recxs entry bit_map in
  in_bounds (Z.of_nat (length recxs) <=? cell_cnt) ;;;
  set_sg_nr 1 ;;;
  set_iov_len AGG_IOV_ODATA (u64 (u32 (cell_cnt * len) * ae_rsize entry)) ;;;
  move_sg_iovs 1 ;;;
  rc <- agg_get_obj_handle ;;
  if negb (rc =? 0) then ret rc else
  entry <- get_entry ;;
  let epoch := if is_recalc then as_hi_epoch (ae_cur_stripe entry)
               else ape_epoch (ae_par_extent entry) in
  sgl <- lift entry_sgl ;;
  emit (E_dsc_obj_fetch epoch cell_cnt recxs sgl None) ;;;
  let rc := dsc_obj_fetch_rc env in
  move_sg_iovs (-1) ;;;
  set_sg_nr AGG_IOV_CNT ;;;
  ret rc.

(** [agg_fetch_local_extents].  [recxs] has [cell_cnt] entries for a
    recalc and [cell_cnt + 1] otherwise; one is written for every set bit,
    and for a recalc the parity recx is written at index [cell_cnt], which
    is past the [cell_cnt] entries the array then has.  The iovs of the local
    [sgl] ([cell_cnt + 1] of them) point into the data buffer. *)
Definition agg_fetch_local_extents (bit_map cell_cnt : Z) (is_recalc : bool) : M Z :=
  entry <- get_entry ;;
  let len := e_len (ae_oca entry) in
  let k := e_k (ae_oca entry) in
  if negb (alloc_ok env) then ret (- DER_NOMEM env) else
  let recxs_nr := if is_recalc then cell_cnt else u32 (cell_cnt + 1) in
  let cells := bitmap_recxs entry bit_map in
  in_bounds (Z.of_nat (length cells) <=? recxs_nr) ;;;
  D_ASSERT (Z.of_nat (length cells) =? cell_cnt) ;;;
  (if is_recalc then in_bounds (cell_cnt <? recxs_nr) else ret tt) ;;;
  let recxs :=
    if is_recalc
    then cells ++ [mk_recx (Z.lor PARITY_INDICATOR
                              (u64 (u64 (as_stripenum (ae_cur_stripe entry) * k) * len)))
                           len]
    else cells in
  rc <- agg_prep_sgl ;;
  if negb (rc =? 0) then ret rc else
  if negb (alloc_ok env) then ret (- DER_NOMEM env) else
  buf <- sg_iov_buf AGG_IOV_DATA ;;
  let iovs := map (fun i => mk_iov buf (u32 (i * len)) len) (upto cell_cnt) in
  sgl <- (if is_recalc
          then pbuf <- sg_iov_buf AGG_IOV_PARITY ;;
               ret (mk_sgl cell_cnt (iovs ++ [mk_iov pbuf 0 len]))
          else ret (mk_sgl (u32 (cell_cnt + 1)) iovs)) ;;
  let iod_nr := if is_recalc then cell_cnt else u32 (cell_cnt + 1) in
  emit (E_vos_obj_fetch (as_hi_epoch (ae_cur_stripe entry)) iod_nr recxs sgl) ;;;
  ret (vos_obj_fetch_rc env).

(** [agg_fetch_remote_parity]: the loop over [i = 1 .. p-1]. *)
Fixpoint agg_fetch_remote_parity_loop (idxs : list Z) (recx : daos_recx_t)
    (buf : agg_iov_entry) (pshard : Z) : M Z :=
  match idxs with
  | [] => ret 0
  | i :: rest =>
      entry <- get_entry ;;
      let len := e_len (ae_oca entry) in
      D_ASSERT (pshard >=? e_k (ae_oca entry)) ;;;
      emit (E_dsc_obj_fetch (ape_epoch (ae_par_extent entry)) 1 [recx]
              (mk_sgl 1 [mk_iov buf (u32 (i * len)) len])
              (Some pshard)) ;;;
      let rc := dsc_obj_fetch_rc env in
      if negb (rc =? 0) then ret rc
      else agg_fetch_remote_parity_loop rest recx buf (u32 (pshard - 1))
  end.

Definition agg_fetch_remote_parity : M Z :=
  entry <- get_entry ;;
  let len := e_len (ae_oca entry) in
  let p := e_p (ae_oca entry) in
  let pshard := u32 (ae_oid_shard entry - 1) in
  D_ASSERT (p =? 2) ;;;
  let recx :=
    mk_recx (Z.lor (u64 (as_stripenum (ae_cur_stripe entry) * len)) PARITY_INDICATOR)
            len in
  buf <- sg_iov_buf AGG_IOV_PARITY ;;
  agg_fetch_remote_parity_loop (map (Z.add 1) (upto (p - 1))) recx buf pshard.

(** [while (!isset(bit_map, j)) j++]: the first set bit at or after [j];
    [None] when there is none and the scan leaves the bitmap. *)
Definition next_set_bit (bit_map j : Z) : option Z :=
  find (isset bit_map) (map (Z.add j) (upto (Z.log2 bit_map + 1 - j))).

(** [agg_update_parity]: the loop, with [j] carried from cell to cell;
    [pbuf], [obuf], [buf] and [diff] are the buffers read before it. *)
Fixpoint agg_update_parity_loop (idxs : list Z) (bit_map j : Z)
    (pbuf obuf buf diff : agg_iov_entry) : M Z :=
  match idxs with
  | [] => ret 0
  | i :: rest =>
      entry <- get_entry ;;
      let cell_bytes := cell_bytes_of entry in
      emit (E_xor_gen (mk_iov obuf (u32 (i * cell_bytes)) cell_bytes)
                      (mk_iov buf (u32 (i * cell_bytes)) cell_bytes)
                      (mk_iov diff 0 cell_bytes)) ;;;
      let rc := xor_gen_rc env in
      if negb (rc =? 0) then ret rc else
      match next_set_bit bit_map j with
      | None => crash
      | Some j' =>
          emit (E_ec_encode_data_update cell_bytes (e_k (ae_oca entry))
                  (e_p (ae_oca entry)) j' (mk_iov diff 0 cell_bytes)
                  (cell_ptrs pbuf (e_p (ae_oca entry)) cell_bytes)) ;;;
          agg_update_parity_loop rest bit_map j' pbuf obuf buf diff
      end
  end.

Definition agg_update_parity (bit_map cell_cnt : Z) : M Z :=
  entry <- get_entry ;;
  put_entry (with_codec true entry) ;;;
  pbuf <- sg_iov_buf AGG_IOV_PARITY ;;
  obuf <- sg_iov_buf AGG_IOV_ODATA ;;
  buf <- sg_iov_buf AGG_IOV_DATA ;;
  diff <- sg_iov_buf AGG_IOV_DIFF ;;
  agg_update_parity_loop (upto cell_cnt) bit_map 0 pbuf obuf buf diff.

(** [agg_recalc_parity]: the data vector, remote cells for set bits (from
    [rbuf]) and local cells for the others (from [lbuf]); the pair counts
    [r] and [l]. *)
Fixpoint agg_recalc_data (idxs : list Z) (bit_map cell_bytes r l : Z)
    (rbuf lbuf : agg_iov_entry) : list d_iov_t * Z :=
  match idxs with
  | [] => ([], r)
  | i :: rest =>
      if isset bit_map i then
        let '(d, r') := agg_recalc_data rest bit_map cell_bytes (r + 1) l rbuf lbuf in
        (mk_iov rbuf (u32 (r * cell_bytes)) cell_bytes :: d, r')
      else
        let '(d, r') := agg_recalc_data rest bit_map cell_bytes r (l + 1) rbuf lbuf in
        (mk_iov lbuf (u32 (l * cell_bytes)) cell_bytes :: d, r')
  end.

(** The two buffers are read in every round of the loop, that is when
    [k > 0]. *)
Definition agg_recalc_parity (bit_map cell_cnt : Z) : M unit :=
  entry <- get_entry ;;
  let k := e_k (ae_oca entry) in
  let p := e_p (ae_oca entry) in
  let cell_bytes := cell_bytes_of entry in
  bufs <- (if k >? 0
           then rbuf <- sg_iov_buf AGG_IOV_ODATA ;;
                lbuf <- sg_iov_buf AGG_IOV_DATA ;;
                ret (rbuf, lbuf)
           else ret (AGG_IOV_ODATA, AGG_IOV_DATA)) ;;
  let '(data, r) :=
    agg_recalc_data (upto k) bit_map cell_bytes 0 0 (fst bufs) (snd bufs) in
  D_ASSERT (r =? cell_cnt) ;;;
  pbuf <- sg_iov_buf AGG_IOV_PARITY ;;
  D_ASSERT (p >? 0) ;;;
  put_entry (with_codec true entry) ;;;
  emit (E_ec_encode_data cell_bytes k p data
          (cell_ptrs pbuf p cell_bytes)).

(** [agg_process_partial_stripe_ult]; the result is the status it sets. *)
Definition agg_process_partial_stripe_ult (bit_map cell_cnt : Z)
    (asu_recalc : bool) : M Z :=
  entry <- get_entry ;;
  let p := e_p (ae_oca entry) in
  rc <- agg_fetch_odata_cells bit_map cell_cnt asu_recalc ;;
  if negb (rc =? 0) then ret rc else
  rc <- (if p >? 1 then agg_fetch_remote_parity else ret rc) ;;
  if negb (rc =? 0) then ret rc else
  if asu_recalc
  then agg_recalc_parity bit_map cell_cnt ;;; ret rc
  else agg_update_parity bit_map cell_cnt.

(** [agg_full_cells]: the bitmap with the new bits, and the count. *)
Definition agg_full_cells (bit_map estart elen k len : Z) : Z * Z :=
  fold_left
    (fun acc i =>
       let '(bm, cell_cnt) := acc in
       if (u32 (i * len) >=? estart) &&
          (u32 (u32 (estart - u32 (i * len)) + elen) >=? len)
       then (setbit bm i, u32 (cell_cnt + 1))
       else (bm, cell_cnt))
    (upto k) (bit_map, 0).

(** First loop of [agg_process_partial_stripe]: coalesces the extents and
    counts full cells.  The state is (bit_map, cell_cnt, estart, elen). *)
Fixpoint agg_partial_coalesce (l : list ec_agg_extent) (k len : Z)
    (bit_map cell_cnt estart elen : Z) : option (Z * Z * Z * Z) :=
  match l with
  | [] => Some (bit_map, cell_cnt, estart, elen)
  | agg_extent :: rest =>
      if ae_hole agg_extent then None else
      let recx := ae_recx agg_extent in
      if estart =? rx_idx recx then
        agg_partial_coalesce rest k len bit_map cell_cnt estart (u32 (rx_nr recx))
      else if rx_idx recx >? elen then
        let '(bm, n) := agg_full_cells bit_map estart elen k len in
        agg_partial_coalesce rest k len bm (u32 (cell_cnt + n))
                             (u32 (rx_idx recx)) (u32 (0 + rx_nr recx))
      else
        agg_partial_coalesce rest k len bit_map cell_cnt estart
                             (u32 (elen + rx_nr recx))
  end.

(** Inner loop of the second phase, for cell [i]: every overlapping extent
    sets the bit and counts; stops when the count reaches [k]. *)
Fixpoint agg_partial_overlap_cell (l : list ec_agg_extent) (i k len stripenum : Z)
    (bit_map cell_cnt : Z) : option (Z * Z) :=
  match l with
  | [] => Some (bit_map, cell_cnt)
  | agg_extent :: rest =>
      if ae_hole agg_extent then None else
      let '(bm, n) :=
        if agg_overlap (ae_recx agg_extent) i k len stripenum
        then (setbit bit_map i, u32 (cell_cnt + 1))
        else (bit_map, cell_cnt) in
      if n =? k then Some (bm, n)
      else agg_partial_overlap_cell rest i k len stripenum bm n
  end.

(** Outer loop of the second phase: [for (i = 0; i < k && cell_cnt < k; i++)]. *)
Fixpoint agg_partial_overlap (idxs : list Z) (l : list ec_agg_extent)
    (k len stripenum : Z) (bit_map cell_cnt : Z) : option (Z * Z) :=
  match idxs with
  | [] => Some (bit_map, cell_cnt)
  | i :: rest =>
      if cell_cnt <? k then
        match agg_partial_overlap_cell l i k len stripenum bit_map cell_cnt with
        | None => None
        | Some (bm, n) => agg_partial_overlap rest l k len stripenum bm n
        end
      else Some (bit_map, cell_cnt)
  end.

(** The strategy part of [agg_process_partial_stripe]: from the open stripe
    to ([asu_recalc], [bit_map], [cell_cnt]). *)
Definition agg_partial_strategy (entry : ec_agg_entry) : option (bool * Z * Z) :=
  let len := e_len (ae_oca entry) in
  let k := e_k (ae_oca entry) in
  let s := ae_cur_stripe entry in
  match agg_partial_coalesce (as_dextents s) k len 0 0 (as_offset s) 0 with
  | None => None
  | Some (bit_map, cell_cnt, estart, elen) =>
      let '(bit_map, n) := agg_full_cells bit_map estart elen k len in
      let cell_cnt := u32 (cell_cnt + n) in
      if cell_cnt >? k / 2 then Some (true, bit_map, cell_cnt)
      else
        let bit_map := fold_left clrbit (upto k) bit_map in
        match agg_partial_overlap (upto k) (as_dextents s) k len
                                  (as_stripenum s) bit_map 0 with
        | None => None
        | Some (bit_map, cell_cnt) => Some (false, bit_map, cell_cnt)
        end
  end.

(** [agg_process_partial_stripe] *)
Definition agg_process_partial_stripe : M Z :=
  r <- lift agg_partial_strategy ;;
  let '(asu_recalc, bit_map, cell_cnt) := r in
  rc <- agg_fetch_local_extents bit_map cell_cnt asu_recalc ;;
  if negb (rc =? 0) then ret rc else
  rc <- ABT_eventual_create ;;
  if negb (rc =? ABT_SUCCESS) then ret (dss_abterr2der env rc) else
  r <- dss_ult_create (agg_process_partial_stripe_ult bit_map cell_cnt asu_recalc) 0 ;;
  let '(rc, status) := r in
  if negb (rc =? 0) then ret rc else
  rc <- ABT_eventual_wait ;;
  if negb (rc =? ABT_SUCCESS) then ret (dss_abterr2der env rc) else
  if negb (status =? 0) then ret status else ret rc.

(** ** Peer update *)

(** [agg_peer_update_ult]; the result is the status it sets. *)
Definition agg_peer_update_ult : M Z :=
  entry <- get_entry ;;
  let s := ae_cur_stripe entry in
  let rc := crt_req_create_rc env in
  if negb (rc =? 0) then ret rc else
  buf <- sg_iov_buf AGG_IOV_PARITY ;;
  let iov :=
    mk_iov buf (e_len (ae_oca entry))
           (u64 (e_len (ae_oca entry) * ae_rsize entry)) in
  let ec_agg_in :=
    mk_agg_in (api_pool_uuid env) (api_coh_uuid env) (api_cont_uuid env)
              (u32 (ae_oid_shard entry - 1)) (ae_dkey entry) (ae_akey entry)
              (ae_rsize entry) (as_hi_epoch s) (as_stripenum s)
              (sp_map_version env) (as_prefix_ext s) (as_suffix_ext s)
              (mk_sgl 1 [iov]) in
  let rc := crt_bulk_create_rc env in
  if negb (rc =? 0) then ret rc else
  emit (E_rpc_ec_aggregate (ae_peer_rank entry) (u32 (ae_peer_idx entry + 1))
                           ec_agg_in) ;;;
  let rc := dss_rpc_send_rc env in
  if negb (rc =? 0) then ret rc else
  ret (reply_status env).

(** [agg_peer_update] *)
Definition agg_peer_update : M Z :=
  rc <- agg_get_obj_handle ;;
  if negb (rc =? 0) then ret rc else
  rc <- ABT_eventual_create ;;
  if negb (rc =? ABT_SUCCESS) then ret (dss_abterr2der env rc) else
  r <- dss_ult_create agg_peer_update_ult 0 ;;
  let '(rc, status) := r in
  if negb (rc =? 0) then ret rc else
  rc <- ABT_eventual_wait ;;
  if negb (rc =? ABT_SUCCESS) then ret (dss_abterr2der env rc) else
  if negb (status =? 0) then ret status else ret rc.

(** ** Holes *)

(** What [agg_process_holes_ult] leaves in [stripe_ud] for
    [agg_process_holes], with the status it sets. *)
Record holes_ud := mk_holes_ud {
  hud_status   : Z;
  asu_cell_cnt : Z;
  asu_recxs    : list daos_recx_t
}.

(** The loop of [agg_process_holes_ult] over the extents; the state is
    ([asu_recxs], [ext_tot_len], [last_ext_end]). *)
Fixpoint agg_holes_gaps (l : list ec_agg_extent) (ss : Z)
    (recxs : list daos_recx_t) (ext_tot_len last_ext_end : Z)
  : list daos_recx_t * Z * Z :=
  match l with
  | [] => (recxs, ext_tot_len, last_ext_end)
  | agg_extent :: rest =>
      let recx := ae_recx agg_extent in
      let '(recxs', tot') :=
        if u64 (rx_idx recx - ss) >? last_ext_end then
          let nr := u64 (u64 (rx_idx recx - ss) - last_ext_end) in
          (recxs ++ [mk_recx (u64 (ss + last_ext_end)) nr], u32 (ext_tot_len + nr))
        else (recxs, ext_tot_len) in
      agg_holes_gaps rest ss recxs' tot'
        (u32 (last_ext_end + u64 (u64 (rx_idx recx + rx_nr recx) - ss)))
  end.

(** [agg_process_holes_ult].  [asu_recxs] has [as_extent_cnt + 1] entries,
    one is written for every gap.  Every path ends at the label [out], which
    sets [sg_nr] back. *)
Definition agg_process_holes_ult : M holes_ud :=
  entry <- get_entry ;;
  let len := e_len (ae_oca entry) in
  let k := e_k (ae_oca entry) in
  let s := ae_cur_stripe entry in
  let ss := u64 (u64 (as_stripenum s * k) * len) in
  let out (ud : holes_ud) : M holes_ud := set_sg_nr AGG_IOV_CNT ;;; ret ud in
  if negb (alloc_ok env) then out (mk_holes_ud (- DER_NOMEM env) 0 []) else
  let '(recxs, ext_tot_len, last_ext_end) :=
    agg_holes_gaps (as_dextents s) ss [] 0 0 in
  let '(recxs, ext_tot_len) :=
    if last_ext_end <? u32 (k * len) then
      let nr := u64 (u64 (ss + u32 (k * len)) - u32 (u32 (k * len) - last_ext_end)) in
      (recxs ++ [mk_recx (u64 (ss + last_ext_end)) nr], u32 (ext_tot_len + nr))
    else (recxs, ext_tot_len) in
  let ext_cnt := Z.of_nat (length recxs) in
  in_bounds (ext_cnt <=? u32 (as_extent_cnt s + 1)) ;;;
  let ud rc := mk_holes_ud rc ext_cnt recxs in
  set_sg_nr 1 ;;;
  set_iov_len AGG_IOV_DATA (u64 (u32 (ext_cnt * ext_tot_len) * ae_rsize entry)) ;;;
  sgl <- lift entry_sgl ;;
  emit (E_dsc_obj_fetch (as_hi_epoch s) ext_cnt recxs sgl None) ;;;
  let rc := dsc_obj_fetch_rc env in
  if negb (rc =? 0) then out (ud rc) else
  let rc := crt_req_create_rc env in
  if negb (rc =? 0) then out (ud rc) else
  let ec_rep_in :=
    mk_rep_in (api_pool_uuid env) (api_coh_uuid env) (api_cont_uuid env)
              (u32 (ae_oid_shard entry - 1)) (ae_dkey entry) (ae_akey entry)
              (ae_rsize entry) ext_cnt recxs (as_stripenum s) (as_hi_epoch s)
              (sp_map_version env) sgl in
  let rc := crt_bulk_create_rc env in
  if negb (rc =? 0) then out (ud rc) else
  emit (E_rpc_ec_replicate (ae_peer_rank entry) (u32 (ae_peer_idx entry + 1))
                           ec_rep_in) ;;;
  let rc := dss_rpc_send_rc env in
  if negb (rc =? 0) then out (ud rc) else
  out (ud (reply_status env)).

(** [agg_process_holes]: the status of the ULT is overwritten by the result
    of [vos_obj_update], as in the source.  The paths through the label
    [ev_out] set [sg_nr] back. *)
Definition agg_process_holes : M Z :=
  let ev_out (rc : Z) : M Z := set_sg_nr AGG_IOV_CNT ;;; ret rc in
  rc <- agg_get_obj_handle ;;
  if negb (rc =? 0) then ret rc else
  rc <- agg_prep_sgl ;;
  if negb (rc =? 0) then ret rc else
  rc <- ABT_eventual_create ;;
  if negb (rc =? ABT_SUCCESS) then ret (dss_abterr2der env rc) else
  r <- dss_ult_create agg_process_holes_ult (mk_holes_ud 0 0 []) ;;
  let '(rc, stripe_ud) := r in
  if negb (rc =? 0) then ev_out rc else
  rc <- ABT_eventual_wait ;;
  if negb (rc =? ABT_SUCCESS) then ev_out (dss_abterr2der env rc) else
  entry <- get_entry ;;
  let s := ae_cur_stripe entry in
  set_sg_nr 1 ;;;
  sgl <- lift entry_sgl ;;
  emit (E_vos_obj_update (as_hi_epoch s) (asu_cell_cnt stripe_ud)
          (asu_recxs stripe_ud) sgl) ;;;
  let rc := vos_obj_update_rc env in
  if negb (rc =? 0) then ev_out rc else
  emit (E_vos_obj_array_remove 0 (as_hi_epoch s)
          (mk_recx (Z.lor (u64 (as_stripenum s * e_len (ae_oca entry)))
                          PARITY_INDICATOR)
                   (e_len (ae_oca entry)))) ;;;
  ev_out (vos_obj_array_remove_rc env).

(** ** The reconciler *)

(** The parity probe of [agg_process_stripe]: [vos_iterate] with
    [agg_recx_iter_pre_cb] over the extents it visits. *)
Fixpoint run_probe_cb (entries : list (daos_recx_t * Z)) (agg_entry : ec_agg_entry)
  : option ec_agg_entry :=
  match entries with
  | [] => Some agg_entry
  | entry :: rest =>
      match agg_recx_iter_pre_cb entry agg_entry with
      | None => None
      | Some agg_entry' => run_probe_cb rest agg_entry'
      end
  end.

(** [agg_process_stripe] up to the label [out]: the result is
    ([rc], [update_vos], [process_holes]). *)
Definition agg_process_stripe_decide : M (Z * bool * bool) :=
  entry <- get_entry ;;
  let entry :=
    with_par_extent (mk_par (ape_recx (ae_par_extent entry)) U64_MAX) entry in
  put_entry entry ;;;
  emit (E_vos_iterate
          (mk_recx (Z.lor PARITY_INDICATOR
                          (u64 (as_stripenum (ae_cur_stripe entry) *
                                e_len (ae_oca entry))))
                   (e_len (ae_oca entry)))) ;;;
  update_entry (run_probe_cb (probe_entries env)) ;;;
  let rc := probe_rc env in
  if negb (rc =? 0) then ret (rc, true, false) else
  entry <- get_entry ;;
  let ape := ape_epoch (ae_par_extent entry) in
  if (ape >=? as_hi_epoch (ae_cur_stripe entry)) && negb (ape =? U64_MAX)
  then ret (rc, false, false) else
  if ((ape =? U64_MAX) && agg_stripe_is_filled entry false)
     || agg_stripe_is_filled entry true
  then rc <- agg_encode_local_parity ;; ret (rc, true, false) else
  if ape =? U64_MAX then ret (rc, false, false) else
  if as_has_holes (ae_cur_stripe entry) then ret (rc, true, true)
  else rc <- agg_process_partial_stripe ;; ret (rc, true, false).

(** [agg_process_stripe] from the label [out] on. *)
Definition agg_process_stripe_out (rc : Z) (update_vos process_holes : bool) : M Z :=
  rc <- (if process_holes && (rc =? 0) then agg_process_holes
         else if update_vos && (rc =? 0) then
           entry <- get_entry ;;
           sfx <- lift agg_get_carry_under ;;
           put_entry (with_stripe (with_suffix_ext sfx (ae_cur_stripe entry)) entry) ;;;
           rc <- (if (rc =? 0) && (e_p (ae_oca entry) >? 1)
                  then agg_peer_update else ret rc) ;;
           if rc =? 0 then agg_update_vos else ret rc
         else ret rc) ;;
  update_entry agg_clear_extents ;;;
  ret rc.

Definition agg_process_stripe : M Z :=
  r <- agg_process_stripe_decide ;;
  let '(rc, update_vos, process_holes) := r in
  agg_process_stripe_out rc update_vos process_holes.

(** ** Iteration callbacks *)

Inductive vos_iter_type_t :=
| VOS_ITER_OBJ | VOS_ITER_DKEY | VOS_ITER_AKEY | VOS_ITER_RECX.

(** [agg_data_extent] *)
Definition agg_data_extent (entry : vos_iter_entry_t) : M Z :=
  agg_entry <- get_entry ;;
  sn <- lift (fun e => agg_stripenum e (rx_idx (ie_recx entry))) ;;
  (if negb (sn =? as_stripenum (ae_cur_stripe agg_entry)) then
     (if negb (as_stripenum (ae_cur_stripe agg_entry) =? U64_MAX)
      then rc <- agg_process_stripe ;; ret 0
      else ret 0) ;;;
     sn <- lift (fun e => agg_stripenum e (rx_idx (ie_recx entry))) ;;
     agg_entry <- get_entry ;;
     put_entry (with_stripe (with_stripenum sn (ae_cur_stripe agg_entry)) agg_entry)
   else ret tt) ;;;
  if negb (alloc_ok env) then ret (- DER_NOMEM env) else
  agg_entry <- get_entry ;;
  let agg_entry := with_rsize (ie_rsize entry) agg_entry in
  let s := ae_cur_stripe agg_entry in
  let oca := ae_oca agg_entry in
  let extent := mk_ext (ie_recx entry) (ie_epoch entry) (ie_hole entry) in
  let offset :=
    if as_extent_cnt s =? 0
    then u32 (u64 (rx_idx (ae_recx extent)
                   - u64 (u64 (as_stripenum s * e_len oca) * e_k oca)))
    else as_offset s in
  match (if ie_hole entry then Some (as_stripe_fill s)
         else match agg_in_stripe agg_entry (ie_recx entry) with
              | Some n => Some (u64 (as_stripe_fill s + n))
              | None => None
              end) with
  | None => crash
  | Some fill =>
      let hi_epoch :=
        if ae_epoch extent >? as_hi_epoch s then ae_epoch extent
        else as_hi_epoch s in
      put_entry
        (with_stripe
           (mk_stripe (as_stripenum s) hi_epoch (as_dextents s ++ [extent]) fill
                      (u32 (as_extent_cnt s + 1)) offset (as_prefix_ext s)
                      (as_suffix_ext s)
                      (if ie_hole entry then true else as_has_holes s))
           agg_entry) ;;;
      ret 0
  end.

(** [agg_akey_post] *)
Definition agg_akey_post : M Z :=
  agg_entry <- get_entry ;;
  if negb (as_extent_cnt (ae_cur_stripe agg_entry) =? 0)
  then agg_process_stripe
  else ret 0.

(** [agg_ev] *)
Definition agg_ev (entry : vos_iter_entry_t) : M Z :=
  D_ASSERT (Z.land (rx_idx (ie_recx entry)) PARITY_INDICATOR =? 0) ;;;
  agg_data_extent entry.

(** [agg_dkey]: a new dkey resets the akey position. *)
Definition agg_dkey (entry : vos_iter_entry_t) : M Z :=
  agg_entry <- get_entry ;;
  let akey := if String.eqb (ae_dkey agg_entry) (ie_key entry)
              then ae_akey agg_entry else String.EmptyString in
  put_entry
    (mk_entry (ae_oid_shard agg_entry) (ae_oca agg_entry) (ae_codec agg_entry)
              (ae_sgl agg_entry) (ae_sg_iovs agg_entry)
              (ie_key entry) akey (ae_rsize agg_entry)
              (ae_cur_stripe agg_entry) (ae_par_extent agg_entry)
              (ae_obj_hdl agg_entry) (ae_peer_rank agg_entry)
              (ae_peer_idx agg_entry)) ;;;
  ret 0.

(** [agg_akey] *)
Definition agg_akey (entry : vos_iter_entry_t) : M Z :=
  agg_entry <- get_entry ;;
  put_entry
    (mk_entry (ae_oid_shard agg_entry) (ae_oca agg_entry) (ae_codec agg_entry)
              (ae_sgl agg_entry) (ae_sg_iovs agg_entry)
              (ae_dkey agg_entry) (ie_key entry) (ae_rsize agg_entry)
              (ae_cur_stripe agg_entry) (ae_par_extent agg_entry)
              (ae_obj_hdl agg_entry) (ae_peer_rank agg_entry)
              (ae_peer_idx agg_entry)) ;;;
  ret 0.

(** [agg_iterate_pre_cb] *)
Definition agg_iterate_pre_cb (entry : vos_iter_entry_t) (type : vos_iter_type_t)
  : M Z :=
  match type with
  | VOS_ITER_DKEY => agg_dkey entry
  | VOS_ITER_AKEY => agg_akey entry
  | VOS_ITER_RECX => agg_ev entry
  | _ => ret 0
  end.

(** [agg_iterate_post_cb] *)
Definition agg_iterate_post_cb (entry : vos_iter_entry_t) (type : vos_iter_type_t)
  : M Z :=
  match type with
  | VOS_ITER_AKEY => agg_akey_post
  | _ => ret 0
  end.

(** The recx level of one akey as [vos_iterate] drives it: the pre callback
    on each extent in turn, stopping at the first nonzero result. *)
Fixpoint iterate_recxs (entries : list vos_iter_entry_t) : M Z :=
  match entries with
  | [] => ret 0
  | entry :: rest =>
      rc <- agg_iterate_pre_cb entry VOS_ITER_RECX ;;
      if negb (rc =? 0) then ret rc else iterate_recxs rest
  end.

End Aggregate.

(** [agg_reset_entry], for the fields of the embedding. *)
Definition agg_reset_entry (agg_entry : ec_agg_entry) (ie_oid_shard : Z)
    (oca : daos_oclass_attr) : ec_agg_entry :=
  let s := ae_cur_stripe agg_entry in
  mk_entry ie_oid_shard oca false (ae_sgl agg_entry) (ae_sg_iovs agg_entry)
           String.EmptyString String.EmptyString 0
           (mk_stripe 0 0 (as_dextents s) 0 0 0 0 0 (as_has_holes s))
           (mk_par (mk_recx 0 0) 0) false
           (ae_peer_rank agg_entry) (ae_peer_idx agg_entry).

(** * Auxiliary definitions for the statements *)

(** Store writes, store removals and peer RPCs. *)
Definition is_mutation (ev : event) : bool :=
  match ev with
  | E_vos_obj_update _ _ _ _ => true
  | E_vos_obj_array_remove _ _ _ => true
  | E_rpc_ec_aggregate _ _ _ => true
  | E_rpc_ec_replicate _ _ _ => true
  | _ => false
  end.

(** The events a run added to the trace it started from. *)
Definition new_events {A} (w : world) (o : outcome A) : list event :=
  skipn (length (w_trace w)) (outcome_trace o).

(** The entry as [agg_process_stripe] hands it to the probe. *)
Definition probe_start (entry : ec_agg_entry) : ec_agg_entry :=
  with_par_extent (mk_par (ape_recx (ae_par_extent entry)) U64_MAX) entry.

(** The index range the probe scans. *)
Definition probe_recx (entry : ec_agg_entry) : daos_recx_t :=
  mk_recx (Z.lor PARITY_INDICATOR
                 (u64 (as_stripenum (ae_cur_stripe entry) * e_len (ae_oca entry))))
          (e_len (ae_oca entry)).

Ltac run_monad :=
  cbv [bind ret get_entry put_entry emit lift update_entry D_ASSERT crash
       in_bounds set_sg_nr sg_iov_buf set_iov_len move_sg_iovs];
  cbn [w_entry w_trace].

(** ** Carry-over, in the words of the spec *)

(** Records of the extent that lie in the stripe after the one it starts in
    (the carry-over tail), for a stripe of [ss] records. *)
Definition recs_in_next_stripe (ss : Z) (x : ec_agg_extent) : Z :=
  rx_idx (ae_recx x) + rx_nr (ae_recx x) - (rx_idx (ae_recx x) / ss + 1) * ss.

(** Records of the extent that lie in the stripe it starts in, up to that
    stripe's trailing boundary. *)
Definition recs_in_start_stripe (ss : Z) (x : ec_agg_extent) : Z :=
  (rx_idx (ae_recx x) / ss + 1) * ss - rx_idx (ae_recx x).

(** The extent crosses the trailing boundary of the stripe it starts in. *)
Definition crosses_boundary (ss : Z) (x : ec_agg_extent) : bool :=
  (rx_idx (ae_recx x) + rx_nr (ae_recx x) - 1) / ss >? rx_idx (ae_recx x) / ss.

(** A non-empty extent inside the index space that touches at most two
    stripes (what the [D_ASSERT] of [agg_carry_over] demands). *)
Definition wf_extent (ss : Z) (x : ec_agg_extent) : Prop :=
  0 <= rx_idx (ae_recx x) /\ 1 <= rx_nr (ae_recx x) /\
  rx_idx (ae_recx x) + rx_nr (ae_recx x) <= 2 ^ 64 /\
  (rx_idx (ae_recx x) + rx_nr (ae_recx x) - 1) / ss
    <= rx_idx (ae_recx x) / ss + 1.

(** ** Concrete inputs *)

(** An environment in which every outside call succeeds, but for the given
    answers: the parity extents the probe visits and the results of
    [vos_obj_fetch], [vos_obj_update], [dss_ult_create] and [xor_gen]. *)
Definition scenario_env (probe : list (daos_recx_t * Z))
    (fetch_rc update_rc ult_rc xor_rc : Z) : environment :=
  mk_env 1009%positive (fun abt_rc => - abt_rc) true 0 probe fetch_rc update_rc 0 0 0
         0 ult_rc 0 xor_rc 0 0 0 0
         5 [[(0, 0)]; [(1, 0)]; [(2, 0)]; [(3, 0)]; [(4, 1)]; [(5, 1)]]
         101 102 103 104 7.

(** No parity in the store and every call succeeds. *)
Definition env_ok : environment := scenario_env [] 0 0 0 0.

(** The spec's scenarios: [k = 4], [len = 8], [rsize = 1], [p] 1 or 2. *)
Definition oca_4_1_8 : daos_oclass_attr := mk_oca 4 1 8.
Definition oca_4_2_8 : daos_oclass_attr := mk_oca 4 2 8.

(** An entry right after [agg_reset_entry], before any buffer was
    allocated, with an empty extent list. *)
Definition fresh_entry (shard : Z) (oca : daos_oclass_attr) : ec_agg_entry :=
  mk_entry shard oca false
           (mk_agg_sgl 0 (mk_agg_iov false 0 0) (mk_agg_iov false 0 0)
                       (mk_agg_iov false 0 0) (mk_agg_iov false 0 0))
           None
           String.EmptyString String.EmptyString 0
           (mk_stripe 0 0 [] 0 0 0 0 0 false)
           (mk_par (mk_recx 0 0) 0) false 0 0.

Definition fresh_world (shard : Z) (oca : daos_oclass_attr) : world :=
  mk_world (fresh_entry shard oca) [].

(** The entry once [agg_prep_sgl] has given it its buffers, every allocation
    succeeding. *)
Definition with_buffers (entry : ec_agg_entry) : ec_agg_entry :=
  match agg_prep_sgl env_ok (mk_world entry []) with
  | Ret _ w => w_entry w
  | Crash w => w_entry w
  end.

(** Two akeys. *)
Definition akey_a : daos_key_t := String.String (Ascii.ascii_of_nat 97) String.EmptyString.
Definition akey_b : daos_key_t := String.String (Ascii.ascii_of_nat 98) String.EmptyString.

(** A data extent (or hole) as the iterator delivers it, record size 1. *)
Definition data_ie (idx nr epoch : Z) (hole : bool) : vos_iter_entry_t :=
  mk_ie (mk_recx idx nr) epoch 1 hole String.EmptyString.

(** The local parity extent of stripe [stripenum] at [epoch], for [len = 8]. *)
Definition parity_at (stripenum epoch : Z) : daos_recx_t * Z :=
  (mk_recx (Z.lor PARITY_INDICATOR (u64 (stripenum * 8))) 8, epoch).

(** The world after the iterator delivered the extents to a fresh entry. *)
Definition after_extents (env : environment) (shard : Z) (oca : daos_oclass_attr)
    (entries : list vos_iter_entry_t) : world :=
  match iterate_recxs env entries (fresh_world shard oca) with
  | Ret _ w => w
  | Crash w => w
  end.

(** ** The partial-update strategy, in the words of the spec *)

(** Cell [i] of the stripe is fully covered: each of its [len] records lies
    in some buffered extent. *)
Definition spec_cell_full (l : list ec_agg_extent) (k len stripenum i : Z) : bool :=
  forallb
    (fun r =>
       existsb (fun x => (rx_idx (ae_recx x) <=? r) &&
                         (r <? rx_idx (ae_recx x) + rx_nr (ae_recx x))) l)
    (map (fun j => stripenum * k * len + i * len + j) (upto len)).

(** Cell [i] of the stripe is overlapped by some buffered extent. *)
Definition spec_cell_overlapped (l : list ec_agg_extent) (k len stripenum i : Z)
  : bool :=
  existsb (fun x =>
             (rx_idx (ae_recx x) <? stripenum * k * len + i * len + len) &&
             (stripenum * k * len + i * len
                <? rx_idx (ae_recx x) + rx_nr (ae_recx x))) l.

(** The bitmap with exactly the given bits set. *)
Definition bitmap_of (cells : list Z) : Z := fold_left setbit cells 0.

(** The choice as the spec words it: ([recalc], bitmap, number of cells). *)
Definition spec_partial_strategy (entry : ec_agg_entry) : bool * Z * Z :=
  let k := e_k (ae_oca entry) in
  let len := e_len (ae_oca entry) in
  let s := ae_cur_stripe entry in
  let full :=
    filter (spec_cell_full (as_dextents s) k len (as_stripenum s)) (upto k) in
  if Z.of_nat (length full) >? k / 2
  then (true, bitmap_of full, Z.of_nat (length full))
  else
    let over :=
      filter (spec_cell_overlapped (as_dextents s) k len (as_stripenum s))
             (upto k) in
    (false, bitmap_of over, Z.of_nat (length over)).

(** * Auxiliary definitions for runs of the reconciler *)

(** The run [o], started in [w], only appended events that satisfy [P]. *)
Definition extends {A} (P : event -> Prop) (w : world) (o : outcome A) : Prop :=
  exists l, outcome_trace o = w_trace w ++ l /\ Forall P l.

(** Started from an entry that satisfies [I], the action only appends events
    that satisfy [P], and when it returns [a] the entry satisfies [J a]. *)
Definition triple {A} (I : ec_agg_entry -> Prop) (P : event -> Prop)
    (J : A -> ec_agg_entry -> Prop) (m : M A) : Prop :=
  forall w, I (w_entry w) ->
    extends P w (m w) /\
    forall a w', m w = Ret a w' -> J a (w_entry w').

(** Where [sg_iovs] stands: at the start of its array (or null), one iov
    ahead (or null), anywhere. *)
Definition at_start_p (sg_iovs : option Z) : Prop :=
  match sg_iovs with Some n => n = 0 | None => True end.

Definition ahead_p (sg_iovs : option Z) : Prop :=
  match sg_iovs with Some n => n = 1 | None => True end.

Definition any_p (sg_iovs : option Z) : Prop := True.

Definition at_start (e : ec_agg_entry) : Prop := at_start_p (ae_sg_iovs e).

(** [sg_iovs] is not null and the index of the iov lies in the array. *)
Definition reaches (iov_entry : agg_iov_entry) (sg_iovs : option Z) : Prop :=
  match sg_iovs with
  | Some n => iov_at (n + iov_index iov_entry) <> None
  | None => False
  end.

(** The part of the entry that reconciling a stripe leaves alone until
    [agg_clear_extents]: everything but the codec, the sgl, the parity
    extent found by the probe, the object handle, the peer and
    [as_suffix_ext]. *)
Definition fixed_part (e : ec_agg_entry)
  : daos_oclass_attr * Z * daos_key_t * daos_key_t * Z * ec_agg_stripe :=
  (ae_oca e, ae_oid_shard e, ae_dkey e, ae_akey e, ae_rsize e,
   with_suffix_ext 0 (ae_cur_stripe e)).

Definition stripe_inv (e0 e : ec_agg_entry) : Prop :=
  fixed_part e = fixed_part e0.

(** What an event of the reconciliation of the open stripe of [e0] looks
    like. *)
Definition stripe_event (e0 : ec_agg_entry) (ev : event) : Prop :=
  let s := ae_cur_stripe e0 in
  let oca := ae_oca e0 in
  match ev with
  | E_vos_iterate recx => recx = probe_recx e0
  | E_vos_obj_fetch epoch _ _ _ => epoch = as_hi_epoch s
  | E_vos_obj_update epoch _ _ _ => epoch = as_hi_epoch s
  | E_vos_obj_array_remove epr_lo epr_hi _ =>
      epr_lo = 0 /\ epr_hi = as_hi_epoch s
  | E_dsc_obj_open => True
  | E_dsc_obj_fetch _ _ _ _ _ => True
  | E_ec_encode_data cell_bytes k p _ parity_bufs =>
      cell_bytes = cell_bytes_of e0 /\ k = e_k oca /\ p = e_p oca /\
      parity_bufs = cell_ptrs AGG_IOV_PARITY p cell_bytes
  | E_xor_gen _ _ _ => True
  | E_ec_encode_data_update cell_bytes k p _ _ parity_bufs =>
      cell_bytes = cell_bytes_of e0 /\ k = e_k oca /\ p = e_p oca /\
      parity_bufs = cell_ptrs AGG_IOV_PARITY p cell_bytes
  | E_rpc_ec_aggregate _ _ ec_agg_in =>
      1 < e_p oca /\
      ea_oid_shard ec_agg_in = u32 (ae_oid_shard e0 - 1) /\
      ea_dkey ec_agg_in = ae_dkey e0 /\
      ea_akey ec_agg_in = ae_akey e0 /\
      ea_rsize ec_agg_in = ae_rsize e0 /\
      ea_epoch ec_agg_in = as_hi_epoch s /\
      ea_stripenum ec_agg_in = as_stripenum s /\
      ea_prior_len ec_agg_in = as_prefix_ext s
  | E_rpc_ec_replicate _ _ ec_rep_in =>
      as_has_holes s = true /\
      er_oid_shard ec_rep_in = u32 (ae_oid_shard e0 - 1) /\
      er_dkey ec_rep_in = ae_dkey e0 /\
      er_iod_name ec_rep_in = ae_akey e0 /\
      er_iod_size ec_rep_in = ae_rsize e0 /\
      er_epoch ec_rep_in = as_hi_epoch s /\
      er_stripenum ec_rep_in = as_stripenum s
  end.

(** What [agg_process_stripe] leaves of the entry [e0] when it returns: the
    object, the keys and the stripe number stay, the epoch and the offset of
    the open stripe are reset. *)
Definition cleared_inv (e0 e : ec_agg_entry) : Prop :=
  ae_oca e = ae_oca e0 /\ ae_oid_shard e = ae_oid_shard e0 /\
  ae_dkey e = ae_dkey e0 /\ ae_akey e = ae_akey e0 /\
  ae_rsize e = ae_rsize e0 /\
  as_stripenum (ae_cur_stripe e) = as_stripenum (ae_cur_stripe e0) /\
  as_hi_epoch (ae_cur_stripe e) = 0 /\
  as_offset (ae_cur_stripe e) = 0.

(** A local store access (fetch, update, removal) made at epoch [h]; a
    removal covers the epoch range [[0, h]]. *)
Definition store_access_at (h : Z) (ev : event) : Prop :=
  match ev with
  | E_vos_obj_fetch epoch _ _ _ => epoch = h
  | E_vos_obj_update epoch _ _ _ => epoch = h
  | E_vos_obj_array_remove epr_lo epr_hi _ => epr_lo = 0 /\ epr_hi = h
  | _ => True
  end.

(** A parity-write request as the leader [e0] may send it for its open
    stripe. *)
Definition parity_rpc_of (e0 : ec_agg_entry) (ev : event) : Prop :=
  match ev with
  | E_rpc_ec_aggregate _ _ ec_agg_in =>
      1 < e_p (ae_oca e0) /\
      ea_oid_shard ec_agg_in = u32 (ae_oid_shard e0 - 1) /\
      ea_dkey ec_agg_in = ae_dkey e0 /\
      ea_akey ec_agg_in = ae_akey e0 /\
      ea_rsize ec_agg_in = ae_rsize e0 /\
      ea_epoch ec_agg_in = as_hi_epoch (ae_cur_stripe e0) /\
      ea_stripenum ec_agg_in = as_stripenum (ae_cur_stripe e0) /\
      ea_prior_len ec_agg_in = as_prefix_ext (ae_cur_stripe e0)
  | _ => True
  end.

(** A replicate request as the leader [e0] may send it for its open
    stripe. *)
Definition replicate_rpc_of (e0 : ec_agg_entry) (ev : event) : Prop :=
  match ev with
  | E_rpc_ec_replicate _ _ ec_rep_in =>
      as_has_holes (ae_cur_stripe e0) = true /\
      er_oid_shard ec_rep_in = u32 (ae_oid_shard e0 - 1) /\
      er_dkey ec_rep_in = ae_dkey e0 /\
      er_iod_name ec_rep_in = ae_akey e0 /\
      er_iod_size ec_rep_in = ae_rsize e0 /\
      er_epoch ec_rep_in = as_hi_epoch (ae_cur_stripe e0) /\
      er_stripenum ec_rep_in = as_stripenum (ae_cur_stripe e0)
  | _ => True
  end.

(** A codec call with the geometry of the object class of [e0]: [k], [p],
    [cell_bytes = len * rsize], and the [p] parity cells laid out one after
    the other from the start of the parity buffer. *)
Definition codec_call_of (e0 : ec_agg_entry) (ev : event) : Prop :=
  match ev with
  | E_ec_encode_data cell_bytes k p _ parity_bufs
  | E_ec_encode_data_update cell_bytes k p _ _ parity_bufs =>
      cell_bytes = cell_bytes_of e0 /\
      k = e_k (ae_oca e0) /\ p = e_p (ae_oca e0) /\
      parity_bufs = cell_ptrs AGG_IOV_PARITY (e_p (ae_oca e0)) (cell_bytes_of e0)
  | _ => True
  end.

(** The carry-over extent as [agg_clear_extents] keeps it: it starts on the
    boundary after the stripe it started in and keeps its end, its epoch and
    its hole flag. *)
Definition trim_to_next_stripe (ss : Z) (x : ec_agg_extent) : ec_agg_extent :=
  mk_ext (mk_recx ((rx_idx (ae_recx x) / ss + 1) * ss) (recs_in_next_stripe ss x))
         (ae_epoch x) (ae_hole x).

(** The test [agg_full_cells] applies to cell [i] for the run of records
    [[estart, estart + elen)] (offsets within the stripe), when nothing
    overflows: the cell starts at or after the run's start, and it either
    ends within the run or starts after the run's end.  The second case is
    the unsigned wrap-around of [estart - i*len + elen]. *)
Definition full_cell_test (estart elen len i : Z) : bool :=
  (estart <=? i * len) &&
  ((i * len + len <=? estart + elen) || (estart + elen <? i * len)).

(** Every bit of the bitmap names a cell of the stripe. *)
Definition bits_below (k bit_map : Z) : Prop :=
  forall i, Z.testbit bit_map i = true -> 0 <= i < k.

(** The cell index of an incremental parity update is [j]. *)
Definition update_at (j : Z) (ev : event) : Prop :=
  match ev with
  | E_ec_encode_data_update _ _ _ j' _ _ => j' = j
  | _ => True
  end.

(** Not a write to, nor a removal from, the local store. *)
Definition no_store_write (ev : event) : Prop :=
  match ev with
  | E_vos_obj_update _ _ _ _ => False
  | E_vos_obj_array_remove _ _ _ => False
  | _ => True
  end.

(** Each of the four buffers is at least as long as [agg_prep_sgl] needs it
    for the object class and the record size. *)
Definition sgl_suffices (oca : daos_oclass_attr) (rsize : Z) (sgl : agg_sgl) : Prop :=
  ae_sg_nr sgl = AGG_IOV_CNT /\
  u64 (u32 (e_len oca * e_k oca) * rsize) <= iov_buf_len (iov_data sgl) /\
  u64 (u32 (e_len oca * e_k oca) * rsize) <= iov_buf_len (iov_odata sgl) /\
  u64 (e_len oca * rsize) <= iov_buf_len (iov_diff sgl) /\
  u64 (u32 (e_len oca * e_p oca) * rsize) <= iov_buf_len (iov_parity sgl).

(** No buffer of [sgl'] is shorter than it was in [sgl]. *)
Definition sgl_no_shorter (sgl sgl' : agg_sgl) : Prop :=
  iov_buf_len (iov_data sgl) <= iov_buf_len (iov_data sgl') /\
  iov_buf_len (iov_odata sgl) <= iov_buf_len (iov_odata sgl') /\
  iov_buf_len (iov_diff sgl) <= iov_buf_len (iov_diff sgl') /\
  iov_buf_len (iov_parity sgl) <= iov_buf_len (iov_parity sgl').


(** The sgl as [agg_prep_sgl] wants to find it: not set up yet, or with its
    four iovs and [sg_iovs] at the start of the array. *)
Definition sgl_in_order (e : ec_agg_entry) : Prop :=
  ae_sg_nr (ae_sgl e) = 0 \/
  (ae_sg_nr (ae_sgl e) = AGG_IOV_CNT /\ ae_sg_iovs e = Some 0).

(** The outcome of a run of [agg_prep_sgl] on the trace [t] agrees with the
    answer of [agg_prep_sgl_bufs]: the same result and the same iovs, the
    stripe [s] left alone, and [sg_iovs] at the start of the array when
    the result is 0; a failed assertion stops the run. *)
Definition prep_agrees (s : ec_agg_stripe) (t : list event)
    (o : option (Z * agg_sgl)) (out : outcome Z) : Prop :=
  match o with
  | Some (rc, sgl) =>
      exists e', out = Ret rc (mk_world e' t) /\ ae_sgl e' = sgl /\
                 ae_cur_stripe e' = s /\ (rc = 0 -> ae_sg_iovs e' = Some 0)
  | None => exists w', out = Crash w'
  end.
(** * Properties *)

(** ** Machine arithmetic *)

Lemma u32_small (x : Z) : 0 <= x < 2 ^ 32 -> u32 x = x.
Proof. intros H. unfold u32. apply Z.mod_small. exact H. Qed.

Lemma u64_small (x : Z) : 0 <= x < 2 ^ 64 -> u64 x = x.
Proof. intros H. unfold u64. apply Z.mod_small. exact H. Qed.

Lemma u32_range (x : Z) : 0 <= u32 x < 2 ^ 32.
Proof. unfold u32. apply Z.mod_pos_bound. lia. Qed.

Lemma u64_range (x : Z) : 0 <= u64 x < 2 ^ 64.
Proof. unfold u64. apply Z.mod_pos_bound. lia. Qed.

Lemma DER_NOMEM_nonzero env : (- DER_NOMEM env =? 0) = false.
Proof. apply Z.eqb_neq. unfold DER_NOMEM. lia. Qed.

Lemma skipn_app_exact {A} (l l' : list A) : skipn (length l) (l ++ l') = l'.
Proof. induction l as [|a l IH]; simpl; auto. Qed.

(** ** The parity probe *)

Lemma agg_recx_iter_pre_cb_frame entry e e' :
  agg_recx_iter_pre_cb entry e = Some e' ->
  ae_cur_stripe e' = ae_cur_stripe e /\ ae_oca e' = ae_oca e.
Proof.
  unfold agg_recx_iter_pre_cb.
  destruct (_ =? _); intros H; inversion H; subst; split; reflexivity.
Qed.

Lemma run_probe_cb_frame entries : forall e e',
  run_probe_cb entries e = Some e' ->
  ae_cur_stripe e' = ae_cur_stripe e /\ ae_oca e' = ae_oca e.
Proof.
  induction entries as [|x rest IH]; simpl; intros e e' H.
  - inversion H; subst; split; reflexivity.
  - destruct (agg_recx_iter_pre_cb x e) as [e1|] eqn:Hcb; [|discriminate].
    apply agg_recx_iter_pre_cb_frame in Hcb. destruct Hcb as [Hs Ho].
    apply IH in H. destruct H as [Hs' Ho']. split; congruence.
Qed.

(** When the probe leaves a parity epoch at or above [as_hi_epoch],
    [agg_process_stripe] is the probe followed by [agg_clear_extents]. *)
Lemma agg_process_stripe_noop env w e1 :
  probe_rc env = 0 ->
  run_probe_cb (probe_entries env) (probe_start (w_entry w)) = Some e1 ->
  ape_epoch (ae_par_extent e1) <> U64_MAX ->
  as_hi_epoch (ae_cur_stripe (w_entry w)) <= ape_epoch (ae_par_extent e1) ->
  agg_process_stripe env w =
  match agg_clear_extents e1 with
  | Some e2 =>
      Ret 0 (mk_world e2 (w_trace w ++ [E_vos_iterate (probe_recx (w_entry w))]))
  | None =>
      Crash (mk_world e1 (w_trace w ++ [E_vos_iterate (probe_recx (w_entry w))]))
  end.
Proof.
  intros Hrc Hprobe Hfound Hge.
  pose proof (run_probe_cb_frame _ _ _ Hprobe) as [Hs _].
  unfold agg_process_stripe, agg_process_stripe_decide.
  run_monad. fold (probe_start (w_entry w)). rewrite Hprobe, Hrc.
  cbn [negb Z.eqb w_entry w_trace].
  replace (ape_epoch (ae_par_extent e1) >=? as_hi_epoch (ae_cur_stripe e1))
    with true.
  2:{ symmetry. rewrite Hs. apply Z.geb_le. exact Hge. }
  replace (ape_epoch (ae_par_extent e1) =? U64_MAX) with false.
  2:{ symmetry. apply Z.eqb_neq. exact Hfound. }
  cbn [andb negb]. unfold agg_process_stripe_out. run_monad.
  cbn [andb w_entry w_trace].
  destruct (agg_clear_extents e1); reflexivity.
Qed.

(** C1.  If the parity probe succeeds and finds a local parity extent whose
    epoch is at least the stripe's [as_hi_epoch], [agg_process_stripe] adds
    only the probe itself to the trace (no store write, no store removal, no
    peer RPC); it then clears the open stripe with [agg_clear_extents] and
    returns 0 (or stops in an assertion of [agg_clear_extents], still without
    any write, removal or RPC). *)
Theorem C1_parity_supersedes_noop env w e1 :
  probe_rc env = 0 ->
  run_probe_cb (probe_entries env) (probe_start (w_entry w)) = Some e1 ->
  ape_epoch (ae_par_extent e1) <> U64_MAX ->
  as_hi_epoch (ae_cur_stripe (w_entry w)) <= ape_epoch (ae_par_extent e1) ->
  let o := agg_process_stripe env w in
  new_events w o = [E_vos_iterate (probe_recx (w_entry w))] /\
  forallb (fun ev => negb (is_mutation ev)) (new_events w o) = true /\
  match o with
  | Ret rc w' => rc = 0 /\ agg_clear_extents e1 = Some (w_entry w')
  | Crash _ => agg_clear_extents e1 = None
  end.
Proof.
  intros Hrc Hprobe Hfound Hge o.
  assert (Ho : o = agg_process_stripe env w) by reflexivity.
  rewrite (agg_process_stripe_noop env w e1 Hrc Hprobe Hfound Hge) in Ho.
  assert (Hnew : new_events w o = [E_vos_iterate (probe_recx (w_entry w))]).
  { rewrite Ho. unfold new_events.
    destruct (agg_clear_extents e1); simpl; apply skipn_app_exact. }
  split; [exact Hnew|]. split.
  - rewrite Hnew. reflexivity.
  - rewrite Ho. destruct (agg_clear_extents e1); simpl; auto.
Qed.

(** C1, at a concrete input: parity of stripe 0 at epoch 15, one replica
    extent at epoch 10. *)
Lemma C1_parity_supersedes_noop_witness :
  let env := scenario_env [parity_at 0 15] 0 0 0 0 in
  let w := after_extents env 5 oca_4_1_8 [data_ie 8 8 10 false] in
  let o := agg_process_stripe env w in
  new_events w o = [E_vos_iterate (probe_recx (w_entry w))] /\
  forallb (fun ev => negb (is_mutation ev)) (new_events w o) = true /\
  match o with
  | Ret rc w' =>
      rc = 0 /\
      agg_clear_extents
        (with_par_extent (mk_par (fst (parity_at 0 15)) 15) (w_entry w))
      = Some (w_entry w')
  | Crash _ =>
      agg_clear_extents
        (with_par_extent (mk_par (fst (parity_at 0 15)) 15) (w_entry w)) = None
  end.
Proof.
  intros env w.
  apply (C1_parity_supersedes_noop env w
           (with_par_extent (mk_par (fst (parity_at 0 15)) 15) (w_entry w))).
  - reflexivity.
  - vm_compute. reflexivity.
  - vm_compute. intros H. discriminate H.
  - vm_compute. intros H. discriminate H.
Defined.

(** ** The commit *)

Lemma u64_mul_l (a b : Z) : u64 (u64 a * b) = u64 (a * b).
Proof. unfold u64. apply Z.mul_mod_idemp_l. lia. Qed.

Lemma u64_sub_l (a b : Z) : u64 (u64 a - b) = u64 (a - b).
Proof. unfold u64. apply Zminus_mod_idemp_l. Qed.

Lemma u32_add_l (a b : Z) : u32 (u32 a + b) = u32 (a + b).
Proof. unfold u32. apply Zplus_mod_idemp_l. Qed.

Lemma u32_sub_l (a b : Z) : u32 (u32 a - b) = u32 (a - b).
Proof. unfold u32. apply Zminus_mod_idemp_l. Qed.

(** [agg_update_vos] always issues the removal; [vos_obj_update] then reads
    the parity iov, and the result of the write is the result of the
    commit. *)
Lemma agg_update_vos_trace env w :
  let entry := w_entry w in
  let s := ae_cur_stripe entry in
  let k := e_k (ae_oca entry) in
  let len := e_len (ae_oca entry) in
  let removal :=
    E_vos_obj_array_remove 0 (as_hi_epoch s)
      (mk_recx (u64 (as_stripenum s * k * len - as_prefix_ext s))
               (u32 (k * len + as_prefix_ext s - as_suffix_ext s))) in
  agg_update_vos env w =
  match sg_iov entry AGG_IOV_PARITY with
  | Some iov =>
      Ret (vos_obj_update_rc env)
          (mk_world entry
             (w_trace w ++
              [removal;
               E_vos_obj_update (as_hi_epoch s) 1
                 [mk_recx (Z.lor (u64 (as_stripenum s * len)) PARITY_INDICATOR) len]
                 (mk_sgl 1 [mk_iov iov 0 (iov_length (sgl_iov (ae_sgl entry) iov))])]))
  | None => Crash (mk_world entry (w_trace w ++ [removal]))
  end.
Proof.
  intros entry s k len removal. unfold agg_update_vos. run_monad.
  fold entry. fold s. fold k. fold len.
  rewrite u64_mul_l, u64_sub_l, u32_add_l, u32_sub_l. fold removal.
  destruct (sg_iov entry AGG_IOV_PARITY); [|reflexivity].
  cbn [w_entry w_trace]. rewrite <- app_assoc. reflexivity.
Qed.

(** C2.  Every commit ([agg_update_vos]), whatever the state of the entry,
    first removes over the epoch range [[0, as_hi_epoch]] the record range
    that starts at [stripenum*k*len - prefix_ext] and has
    [k*len + prefix_ext - suffix_ext] records, that is the range that ends
    before [stripenum*k*len + k*len - suffix_ext]; the start is computed in
    [uint64_t] and the length in [unsigned int], as the source does.  It then
    writes the parity cell of [len] records at index
    [(stripenum*len) | PARITY_INDICATOR] at epoch [as_hi_epoch], from the
    parity iov of the entry (the run stops there when [sg_iovs] does not
    reach that iov).  Where nothing wraps around, the range is the one of
    the integers. *)
Theorem C2_commit_removes_and_writes env w :
  let entry := w_entry w in
  let s := ae_cur_stripe entry in
  let k := e_k (ae_oca entry) in
  let len := e_len (ae_oca entry) in
  exists removed,
    rx_idx removed = u64 (as_stripenum s * k * len - as_prefix_ext s) /\
    rx_nr removed = u32 (k * len + as_prefix_ext s - as_suffix_ext s) /\
    (0 <= as_stripenum s * k * len - as_prefix_ext s < 2 ^ 64 ->
     0 <= k * len + as_prefix_ext s - as_suffix_ext s < 2 ^ 32 ->
     rx_idx removed = as_stripenum s * k * len - as_prefix_ext s /\
     rx_idx removed + rx_nr removed =
       as_stripenum s * k * len + k * len - as_suffix_ext s) /\
    match sg_iov entry AGG_IOV_PARITY with
    | Some iov =>
        agg_update_vos env w =
        Ret (vos_obj_update_rc env)
            (mk_world entry
               (w_trace w ++
                [E_vos_obj_array_remove 0 (as_hi_epoch s) removed;
                 E_vos_obj_update (as_hi_epoch s) 1
                   [mk_recx (Z.lor (u64 (as_stripenum s * len)) PARITY_INDICATOR)
                            len]
                   (mk_sgl 1 [mk_iov iov 0
                                (iov_length (sgl_iov (ae_sgl entry) iov))])]))
    | None =>
        agg_update_vos env w =
        Crash (mk_world entry
                 (w_trace w ++ [E_vos_obj_array_remove 0 (as_hi_epoch s) removed]))
    end.
Proof.
  intros entry s k len.
  exists (mk_recx (u64 (as_stripenum s * k * len - as_prefix_ext s))
                  (u32 (k * len + as_prefix_ext s - as_suffix_ext s))).
  cbn [rx_idx rx_nr].
  split; [reflexivity|]. split; [reflexivity|]. split.
  - intros Hidx Hnr. rewrite (u64_small _ Hidx), (u32_small _ Hnr).
    split; lia.
  - pose proof (agg_update_vos_trace env w) as Htrace. cbv zeta in Htrace.
    fold entry in Htrace. fold s in Htrace. fold k in Htrace. fold len in Htrace.
    destruct (sg_iov entry AGG_IOV_PARITY); exact Htrace.
Qed.

(** C2 at a concrete input: stripe 1 with [prefix_ext = 2] and
    [suffix_ext = 3] removes [[30, 61)] and writes the parity cell of 8
    bytes. *)
Lemma C2_commit_removes_and_writes_witness :
  let w :=
    mk_world
      (with_buffers
         (with_rsize 1
            (with_stripe (mk_stripe 1 10 [] 32 1 0 2 3 false)
                         (fresh_entry 4 oca_4_1_8))))
      [] in
  exists removed,
    rx_idx removed = 30 /\ rx_idx removed + rx_nr removed = 61 /\
    agg_update_vos env_ok w =
    Ret 0
        (mk_world (w_entry w)
           [E_vos_obj_array_remove 0 10 removed;
            E_vos_obj_update 10 1
              [mk_recx (Z.lor 8 PARITY_INDICATOR) 8]
              (mk_sgl 1 [mk_iov AGG_IOV_PARITY 0 8])]).
Proof.
  intros w.
  destruct (C2_commit_removes_and_writes env_ok w)
    as (removed & Hidx & Hnr & Hint & Hrun).
  exists removed.
  destruct Hint as [Hi He]; [vm_compute; split; congruence ..|].
  split; [exact Hi|]. split; [exact He|]. exact Hrun.
Defined.

(** The commit of a stripe that inherits a prefix from another akey.  The
    akey [a] ends with the extent [[28, 34)] carried over, which leaves
    [as_prefix_ext = 4]; nothing resets it when the akey [b] starts, and
    the commit of stripe 0 of [b] removes the range that starts at
    [0 - 4] in [uint64_t]. *)
Lemma stale_prefix_ext_wraps_removal :
  let a := mk_ie (mk_recx 0 0) 0 0 false akey_a in
  let b := mk_ie (mk_recx 0 0) 0 0 false akey_b in
  let run :=
    agg_iterate_pre_cb env_ok a VOS_ITER_AKEY ;;;
    iterate_recxs env_ok [data_ie 0 28 10 false; data_ie 28 6 10 false] ;;;
    agg_iterate_post_cb env_ok a VOS_ITER_AKEY ;;;
    agg_iterate_pre_cb env_ok b VOS_ITER_AKEY ;;;
    iterate_recxs env_ok [data_ie 0 30 11 false] in
  exists w,
    run (fresh_world 4 oca_4_1_8) = Ret 0 w /\
    as_prefix_ext (ae_cur_stripe (w_entry w)) = 4 /\
    as_stripenum (ae_cur_stripe (w_entry w)) = 0 /\
    In (E_vos_obj_array_remove 0 11 (mk_recx (2 ^ 64 - 4) 36))
       (new_events w (agg_iterate_post_cb env_ok b VOS_ITER_AKEY w)).
Proof.
  eexists. split; [vm_compute; reflexivity|].
  split; [reflexivity|]. split; [reflexivity|].
  vm_compute. do 3 right. left. reflexivity.
Qed.

(** ** Carry-over *)

Lemma obj_ec_stripe_rec_nr_small oca :
  0 < e_k oca * e_len oca < 2 ^ 32 ->
  obj_ec_stripe_rec_nr oca = e_k oca * e_len oca.
Proof. intros H. unfold obj_ec_stripe_rec_nr. apply u32_small. lia. Qed.

(** Quotient and remainder facts in the shape [nia] uses. *)
Lemma div_bounds (a ss : Z) :
  0 < ss -> ss * (a / ss) <= a < ss * (a / ss) + ss.
Proof.
  intros Hss. pose proof (Z.div_mod a ss ltac:(lia)) as Hdm.
  pose proof (Z.mod_pos_bound a ss Hss) as Hm. lia.
Qed.

(** [agg_carry_over] on a well-formed extent: the tail in the next stripe,
    or 0 when the extent does not cross. *)
Lemma agg_carry_over_wf oca x :
  let ss := e_k oca * e_len oca in
  0 < ss < 2 ^ 32 ->
  wf_extent ss x ->
  agg_carry_over oca x =
  Some (if crosses_boundary ss x then recs_in_next_stripe ss x else 0).
Proof.
  intros ss Hss (Hidx & Hnr & Hend & Hspan).
  unfold agg_carry_over, crosses_boundary, recs_in_next_stripe.
  rewrite (obj_ec_stripe_rec_nr_small oca Hss). fold ss.
  set (idx := rx_idx (ae_recx x)) in *. set (nr := rx_nr (ae_recx x)) in *.
  unfold udiv. replace (ss =? 0) with false by (symmetry; apply Z.eqb_neq; lia).
  rewrite (u64_small (idx + nr - 1)) by lia.
  destruct ((idx + nr - 1) / ss >? idx / ss) eqn:Hgt; [|reflexivity].
  assert (Hone : (idx + nr - 1) / ss = idx / ss + 1).
  { apply Z.gtb_lt in Hgt. lia. }
  rewrite Hone.
  replace (idx / ss + 1 - idx / ss) with 1 by lia.
  rewrite (u64_small 1) by lia. cbn [Z.eqb Pos.eqb].
  pose proof (div_bounds idx ss ltac:(lia)) as Hq.
  pose proof (div_bounds (idx + nr - 1) ss ltac:(lia)) as Hq'.
  rewrite Hone in Hq'.
  rewrite u64_small by nia. rewrite u32_small by nia. reflexivity.
Qed.

(** On a crossing extent the tail is positive, and what is left of the
    extent is its part before the boundary. *)
Lemma crossing_split ss x :
  0 < ss < 2 ^ 32 ->
  wf_extent ss x ->
  crosses_boundary ss x = true ->
  1 <= recs_in_next_stripe ss x <= ss /\
  1 <= recs_in_start_stripe ss x <= ss /\
  rx_nr (ae_recx x) - recs_in_next_stripe ss x = recs_in_start_stripe ss x.
Proof.
  intros Hss (Hidx & Hnr & Hend & Hspan) Hc.
  unfold crosses_boundary in Hc. apply Z.gtb_lt in Hc.
  unfold recs_in_next_stripe, recs_in_start_stripe.
  set (idx := rx_idx (ae_recx x)) in *. set (nr := rx_nr (ae_recx x)) in *.
  assert (Hone : (idx + nr - 1) / ss = idx / ss + 1) by lia.
  pose proof (div_bounds idx ss ltac:(lia)) as Hq.
  pose proof (div_bounds (idx + nr - 1) ss ltac:(lia)) as Hq'.
  rewrite Hone in Hq'. nia.
Qed.

Lemma agg_get_carry_under_loop_wf oca l :
  let ss := e_k oca * e_len oca in
  0 < ss < 2 ^ 32 ->
  Forall (wf_extent ss) l ->
  agg_get_carry_under_loop oca l =
  Some (match find (crosses_boundary ss) l with
        | Some x => recs_in_start_stripe ss x
        | None => 0
        end).
Proof.
  intros ss Hss Hwf. induction Hwf as [|x l Hx Hl IH]; [reflexivity|].
  cbn [agg_get_carry_under_loop find].
  rewrite (agg_carry_over_wf oca x Hss Hx). fold ss.
  destruct (crosses_boundary ss x) eqn:Hc.
  - destruct (crossing_split ss x Hss Hx Hc) as (Hn & Hs & Heq).
    replace (recs_in_next_stripe ss x =? 0) with false
      by (symmetry; apply Z.eqb_neq; lia).
    cbn [negb]. rewrite Heq.
    rewrite u64_small by lia. rewrite u32_small by lia. reflexivity.
  - cbn [Z.eqb negb]. exact IH.
Qed.

(** C3, as amended.  The value [agg_process_stripe] stores in
    [as_suffix_ext] before the commit ([agg_get_carry_under]) is, for the
    first extent of the list that crosses the trailing stripe boundary, the
    number of that extent's records lying before the boundary, in the stripe
    being closed ([rx_nr] minus the carry-over tail); it is 0 when no extent
    crosses. *)
Theorem C3_suffix_ext_is_part_before_boundary entry :
  let ss := e_k (ae_oca entry) * e_len (ae_oca entry) in
  0 < ss < 2 ^ 32 ->
  Forall (wf_extent ss) (as_dextents (ae_cur_stripe entry)) ->
  agg_get_carry_under entry =
  Some (match find (crosses_boundary ss) (as_dextents (ae_cur_stripe entry)) with
        | Some x => rx_nr (ae_recx x) - recs_in_next_stripe ss x
        | None => 0
        end).
Proof.
  intros ss Hss Hwf. unfold agg_get_carry_under.
  rewrite (agg_get_carry_under_loop_wf _ _ Hss Hwf). fold ss.
  destruct (find (crosses_boundary ss) (as_dextents (ae_cur_stripe entry)))
    as [x|] eqn:Hfind; [|reflexivity].
  destruct (find_some _ _ Hfind) as [Hin Hc].
  rewrite Forall_forall in Hwf.
  destruct (crossing_split ss x Hss (Hwf x Hin) Hc) as (_ & _ & Heq).
  rewrite Heq. reflexivity.
Qed.

(** C3 as amended, at the extent [[28..34)] with [k*len = 32]: 6 records,
    2 of them in the next stripe, [as_suffix_ext = 4]. *)
Lemma C3_suffix_ext_is_part_before_boundary_witness :
  let entry :=
    with_stripe
      (mk_stripe 0 10 [mk_ext (mk_recx 0 28) 10 false;
                       mk_ext (mk_recx 28 6) 10 false] 32 2 0 0 0 false)
      (fresh_entry 4 oca_4_1_8) in
  agg_get_carry_under entry = Some (6 - 2).
Proof.
  intros entry.
  apply (C3_suffix_ext_is_part_before_boundary entry).
  - vm_compute. split; reflexivity.
  - repeat constructor; vm_compute; congruence.
Defined.

(** C3 as stated fails: for the extent [[28..34)] with [k*len = 32], two
    records lie in the next stripe, but the value stored in [as_suffix_ext]
    is 4, and the commit removes [[0, 28)]. *)
Lemma C3_suffix_ext_counterexample :
  let w :=
    after_extents env_ok 4 oca_4_1_8
      [data_ie 0 28 10 false; data_ie 28 6 10 false] in
  let x := mk_ext (mk_recx 28 6) 10 false in
  In x (as_dextents (ae_cur_stripe (w_entry w))) /\
  crosses_boundary 32 x = true /\
  recs_in_next_stripe 32 x = 2 /\
  agg_get_carry_under (w_entry w) = Some 4 /\
  agg_get_carry_under (w_entry w) <> Some (recs_in_next_stripe 32 x) /\
  In (E_vos_obj_array_remove 0 10 (mk_recx 0 28))
     (outcome_trace (agg_process_stripe env_ok w)).
Proof.
  vm_compute. repeat split; auto; congruence.
Qed.

(** ** Errors of the encode offload *)

(** Whatever [agg_encode_full_stripe] returns, the result of
    [agg_encode_local_parity] is the one of [agg_fetch_data_stripe]. *)
Lemma agg_encode_local_parity_drops_status env w rc w' :
  agg_encode_local_parity env w = Ret rc w' ->
  exists w1, agg_fetch_data_stripe env w = Ret rc w1.
Proof.
  unfold agg_encode_local_parity. unfold bind at 1.
  destruct (agg_fetch_data_stripe env w) as [rc1 w1|w1]; [|discriminate].
  destruct (negb (rc1 =? 0)).
  - intros H. inversion H; subst. exists w'. reflexivity.
  - unfold bind. destruct (agg_encode_full_stripe env w1) as [rc2 w2|w2];
      [|discriminate].
    intros H. inversion H; subst. exists w1. reflexivity.
Qed.

(** C4, at the failing input: a full stripe of 32 records at epoch 10, no
    parity, and [dss_ult_create] of the encode offload fails with
    [-DER_NOMEM].  [agg_encode_full_stripe] reports [-1009], yet
    [agg_process_stripe] removes the replicas, writes the (never computed)
    parity and returns 0. *)
Theorem C4_encode_failure_still_commits :
  let env := scenario_env [] 0 0 (-1009) 0 in
  let w := after_extents env 4 oca_4_1_8 [data_ie 0 32 10 false] in
  agg_encode_full_stripe env w = Ret (-1009) w /\
  exists w',
    agg_process_stripe env w = Ret 0 w' /\
    new_events w (agg_process_stripe env w) =
    [E_vos_iterate (mk_recx PARITY_INDICATOR 8);
     E_vos_obj_fetch 10 1 [mk_recx 0 32] (mk_sgl 1 [mk_iov AGG_IOV_DATA 0 32]);
     E_vos_obj_array_remove 0 10 (mk_recx 0 32);
     E_vos_obj_update 10 1 [mk_recx PARITY_INDICATOR 8]
                      (mk_sgl 1 [mk_iov AGG_IOV_PARITY 0 8])].
Proof.
  split; [vm_compute; reflexivity|].
  eexists. split; vm_compute; reflexivity.
Qed.

(** On the partial path the status of the offload does reach the caller: a
    failing [xor_gen] aborts the stripe without a commit. *)
Lemma partial_stripe_codec_error_aborts :
  let env := scenario_env [parity_at 0 5] 0 0 0 (-1) in
  let w := after_extents env 4 oca_4_1_8 [data_ie 8 8 12 false] in
  exists w',
    agg_process_stripe env w = Ret (-1) w' /\
    forallb (fun ev => negb (is_mutation ev))
            (new_events w (agg_process_stripe env w)) = true.
Proof.
  eexists. split; vm_compute; reflexivity.
Qed.

(** ** What the callbacks return *)

(** [agg_data_extent] never returns the result of [agg_process_stripe]: its
    result is 0, or [-DER_NOMEM] when the extent cannot be allocated. *)
Lemma agg_data_extent_rc env entry w :
  match agg_data_extent env entry w with
  | Ret rc _ => rc = 0 \/ rc = - DER_NOMEM env
  | Crash _ => True
  end.
Proof.
  unfold agg_data_extent. run_monad.
  destruct (agg_stripenum (w_entry w) (rx_idx (ie_recx entry))) as [sn|];
    [|exact I].
  cbn [w_entry w_trace].
  destruct (negb (sn =? as_stripenum (ae_cur_stripe (w_entry w)))).
  - destruct (negb (as_stripenum (ae_cur_stripe (w_entry w)) =? U64_MAX)).
    + destruct (agg_process_stripe env w) as [rc w1|w1]; [|exact I].
      cbn [w_entry w_trace].
      destruct (agg_stripenum (w_entry w1) (rx_idx (ie_recx entry))); [|exact I].
      cbn [w_entry w_trace].
      destruct (negb (alloc_ok env)); [right; reflexivity|].
      cbn [w_entry w_trace].
      destruct (ie_hole entry); [left; reflexivity|].
      destruct (agg_in_stripe _ _); [left; reflexivity|exact I].
    + destruct (agg_stripenum (w_entry w) (rx_idx (ie_recx entry))); [|exact I].
      cbn [w_entry w_trace].
      destruct (negb (alloc_ok env)); [right; reflexivity|].
      cbn [w_entry w_trace].
      destruct (ie_hole entry); [left; reflexivity|].
      destruct (agg_in_stripe _ _); [left; reflexivity|exact I].
  - destruct (negb (alloc_ok env)); [right; reflexivity|].
    cbn [w_entry w_trace].
    destruct (ie_hole entry); [left; reflexivity|].
    destruct (agg_in_stripe _ _); [left; reflexivity|exact I].
Qed.

(** [agg_akey_post] returns what [agg_process_stripe] returns. *)
Lemma agg_akey_post_rc env w :
  as_extent_cnt (ae_cur_stripe (w_entry w)) <> 0 ->
  agg_akey_post env w = agg_process_stripe env w.
Proof.
  intros H. unfold agg_akey_post. run_monad.
  replace (as_extent_cnt (ae_cur_stripe (w_entry w)) =? 0) with false
    by (symmetry; apply Z.eqb_neq; exact H).
  reflexivity.
Qed.

(** C5, at the failing input: a full stripe of 32 records at epoch 10 whose
    local fetch ([vos_obj_fetch]) fails with -1.  The extent path
    ([agg_data_extent] rotating to stripe 1) returns 0 to the iterator, but
    the akey-exit path ([agg_iterate_post_cb] at the akey level, that is
    [agg_akey_post]) returns -1. *)
Theorem C5_akey_post_returns_stripe_error :
  let env := scenario_env [] (-1) 0 0 0 in
  let w := after_extents env 4 oca_4_1_8 [data_ie 0 32 10 false] in
  (exists w', agg_process_stripe env w = Ret (-1) w') /\
  (exists w', agg_data_extent env (data_ie 32 8 10 false) w = Ret 0 w') /\
  (exists w', agg_akey_post env w = Ret (-1) w') /\
  (exists w',
      agg_iterate_post_cb env (data_ie 0 32 10 false) VOS_ITER_AKEY w
      = Ret (-1) w').
Proof.
  repeat split; eexists; vm_compute; reflexivity.
Qed.

(** ** The partial-update strategy *)

(** Where the two agree: one replica covering exactly cell 3. *)
Lemma partial_strategy_single_cell :
  let env := scenario_env [parity_at 0 5] 0 0 0 0 in
  let w := after_extents env 4 oca_4_1_8 [data_ie 24 8 12 false] in
  agg_partial_strategy (w_entry w) = Some (false, bitmap_of [3], 1) /\
  spec_partial_strategy (w_entry w) = (false, bitmap_of [3], 1).
Proof. split; vm_compute; reflexivity. Qed.

(** C6, at the failing input (the spec's scenario S3): [k = 4], [len = 8],
    stripe 0, replicas covering cells 1 and 3.  Two cells are fully covered
    and [2 > k/2] is false, so the spec's rule gives the update strategy with
    the overlapped cells 1 and 3.  [agg_partial_strategy] counts 3 full cells
    (cell 3 once through the unsigned wrap-around in [agg_full_cells] and
    once for its own extent) and chooses recalc; [agg_process_stripe] then
    stops in the assertion of [agg_fetch_local_extents] that compares the
    count with the bitmap. *)
Theorem C6_strategy_counts_cell_twice :
  let env := scenario_env [parity_at 0 5] 0 0 0 0 in
  let w :=
    after_extents env 4 oca_4_1_8 [data_ie 8 8 12 false; data_ie 24 8 12 false] in
  agg_full_cells 0 8 8 4 8 = (bitmap_of [1; 3], 2) /\
  agg_partial_strategy (w_entry w) = Some (true, bitmap_of [1; 3], 3) /\
  spec_partial_strategy (w_entry w) = (false, bitmap_of [1; 3], 2) /\
  exists w', agg_process_stripe env w = Crash w'.
Proof.
  split; [vm_compute; reflexivity|].
  split; [vm_compute; reflexivity|].
  split; [vm_compute; reflexivity|].
  eexists. vm_compute. reflexivity.
Qed.

(** ** The remote fetch of old data *)

(** For a recalc [agg_fetch_local_extents] never gets to its fetch: the
    parity recx is written at index [cell_cnt] of an array of [cell_cnt]
    entries.  It stops there, or before at one of its checks, unless the
    array could not be allocated. *)
Lemma agg_fetch_local_extents_recalc env bit_map cell_cnt w :
  agg_fetch_local_extents env bit_map cell_cnt true w = Ret (- DER_NOMEM env) w \/
  agg_fetch_local_extents env bit_map cell_cnt true w = Crash w.
Proof.
  unfold agg_fetch_local_extents. run_monad.
  destruct (negb (alloc_ok env)); [left; reflexivity|]. right.
  destruct (Z.of_nat (length (bitmap_recxs (w_entry w) bit_map)) <=? cell_cnt);
    [|reflexivity].
  destruct (Z.of_nat (length (bitmap_recxs (w_entry w) bit_map)) =? cell_cnt);
    [|reflexivity].
  rewrite Z.ltb_irrefl. reflexivity.
Qed.

(** Whenever the recalc strategy is chosen, [agg_process_partial_stripe]
    fetches nothing and computes nothing: it ends in
    [agg_fetch_local_extents]. *)
Lemma agg_process_partial_stripe_recalc env w bit_map cell_cnt :
  agg_partial_strategy (w_entry w) = Some (true, bit_map, cell_cnt) ->
  agg_process_partial_stripe env w = Ret (- DER_NOMEM env) w \/
  agg_process_partial_stripe env w = Crash w.
Proof.
  intros Hstrategy. unfold agg_process_partial_stripe.
  cbv [bind lift get_entry]. rewrite Hstrategy. cbv [ret].
  destruct (agg_fetch_local_extents_recalc env bit_map cell_cnt w) as [H|H];
    rewrite H; [left|right; reflexivity].
  rewrite DER_NOMEM_nonzero. reflexivity.
Qed.

(** C7, at the failing input: [k = 4], [len = 8], stripe 0 with its parity
    at epoch 5 and replicas at epoch 12.  With one cell covered (cell 1) the
    update strategy is chosen and the old content of the cell is fetched
    into [ODATA] at the parity's epoch, 5.  With three cells covered (cells
    1 to 3) the recalc strategy is chosen, and [agg_process_stripe] stops in
    [agg_fetch_local_extents], at the write past the end of [recxs], with
    nothing but the probe done: the fetch at [as_hi_epoch] that
    [agg_fetch_odata_cells] would make for a recalc (last part, the function
    run on its own) is never reached. *)
Theorem C7_recalc_stops_before_odata_fetch :
  let env := scenario_env [parity_at 0 5] 0 0 0 0 in
  let wu := after_extents env 4 oca_4_1_8 [data_ie 8 8 12 false] in
  let wr := after_extents env 4 oca_4_1_8 [data_ie 8 24 12 false] in
  agg_partial_strategy (w_entry wu) = Some (false, bitmap_of [1], 1) /\
  (exists w', agg_process_stripe env wu = Ret 0 w') /\
  new_events wu (agg_process_stripe env wu) =
    [E_vos_iterate (mk_recx PARITY_INDICATOR 8);
     E_vos_obj_fetch 12 2 [mk_recx 8 8] (mk_sgl 2 [mk_iov AGG_IOV_DATA 0 8]);
     E_dsc_obj_open;
     E_dsc_obj_fetch 5 1 [mk_recx 8 8] (mk_sgl 1 [mk_iov AGG_IOV_ODATA 0 8]) None;
     E_xor_gen (mk_iov AGG_IOV_ODATA 0 8) (mk_iov AGG_IOV_DATA 0 8)
               (mk_iov AGG_IOV_DIFF 0 8);
     E_ec_encode_data_update 8 4 1 1 (mk_iov AGG_IOV_DIFF 0 8)
                             [mk_iov AGG_IOV_PARITY 0 8];
     E_vos_obj_array_remove 0 12 (mk_recx 0 32);
     E_vos_obj_update 12 1 [mk_recx PARITY_INDICATOR 8]
                      (mk_sgl 1 [mk_iov AGG_IOV_PARITY 0 8])] /\
  agg_partial_strategy (w_entry wr) = Some (true, bitmap_of [1; 2; 3], 3) /\
  (exists w', agg_process_stripe env wr = Crash w') /\
  new_events wr (agg_process_stripe env wr) =
    [E_vos_iterate (mk_recx PARITY_INDICATOR 8)] /\
  (let w := mk_world (with_par_extent (mk_par (fst (parity_at 0 5)) 5)
                        (with_buffers (w_entry wr))) [] in
   new_events w (agg_fetch_odata_cells env (bitmap_of [1; 2; 3]) 3 true w) =
     [E_dsc_obj_open;
      E_dsc_obj_fetch 12 3 [mk_recx 8 8; mk_recx 16 8; mk_recx 24 8]
                      (mk_sgl 1 [mk_iov AGG_IOV_ODATA 0 24]) None]).
Proof.
  split; [vm_compute; reflexivity|].
  split; [eexists; vm_compute; reflexivity|].
  split; [vm_compute; reflexivity|].
  split; [vm_compute; reflexivity|].
  split; [eexists; vm_compute; reflexivity|].
  split; vm_compute; reflexivity.
Qed.

(** ** Extents accumulated in one stripe *)

Lemma land_parity_indicator (idx : Z) :
  0 <= idx < 2 ^ 63 -> Z.land idx PARITY_INDICATOR = 0.
Proof.
  intros Hidx. unfold PARITY_INDICATOR.
  apply Z.bits_inj'. intros n Hn.
  rewrite Z.land_spec, Z.bits_0, Z.pow2_bits_eqb by lia.
  destruct (Z.eqb_spec 63 n) as [<-|Hne].
  - rewrite andb_true_r.
    destruct (Z.eq_dec idx 0) as [->|Hnz]; [apply Z.bits_0|].
    apply Z.bits_above_log2; [lia|].
    apply Z.log2_lt_pow2; lia.
  - apply andb_false_r.
Qed.

(** An extent of the stripe that is already open is appended without a
    reconcile: the count goes up by one and nothing reaches the trace. *)
Lemma agg_ev_same_stripe env entry w :
  alloc_ok env = true ->
  obj_ec_stripe_rec_nr (ae_oca (w_entry w)) <> 0 ->
  0 <= rx_idx (ie_recx entry) < 2 ^ 63 ->
  rx_idx (ie_recx entry) / obj_ec_stripe_rec_nr (ae_oca (w_entry w))
    = as_stripenum (ae_cur_stripe (w_entry w)) ->
  exists w',
    agg_ev env entry w = Ret 0 w' /\
    ae_oca (w_entry w') = ae_oca (w_entry w) /\
    as_stripenum (ae_cur_stripe (w_entry w'))
      = as_stripenum (ae_cur_stripe (w_entry w)) /\
    as_extent_cnt (ae_cur_stripe (w_entry w'))
      = u32 (as_extent_cnt (ae_cur_stripe (w_entry w)) + 1) /\
    w_trace w' = w_trace w.
Proof.
  intros Halloc Hss Hidx Hsn.
  unfold agg_ev, agg_data_extent. run_monad.
  rewrite (land_parity_indicator _ Hidx). cbn [Z.eqb]. run_monad.
  unfold agg_stripenum, udiv.
  replace (obj_ec_stripe_rec_nr (ae_oca (w_entry w)) =? 0) with false
    by (symmetry; apply Z.eqb_neq; exact Hss).
  run_monad. rewrite Hsn, Z.eqb_refl. cbn [negb]. run_monad.
  rewrite Halloc. cbn [negb]. run_monad.
  destruct (ie_hole entry).
  - run_monad. eexists. split; [reflexivity|]. cbn. auto.
  - unfold agg_in_stripe, udiv.
    cbn [ae_oca with_rsize].
    replace (u32 (e_len (ae_oca (w_entry w)) * e_k (ae_oca (w_entry w))) =? 0)
      with false.
    2:{ symmetry. apply Z.eqb_neq. rewrite Z.mul_comm. exact Hss. }
    match goal with
    | |- context [if ?c then Some ?a else Some ?b] =>
        replace (if c then Some a else Some b)
          with (Some (if c then a else b)) by (destruct c; reflexivity)
    end.
    run_monad. eexists. split; [reflexivity|]. cbn. auto.
Qed.

(** C8, as amended.  [agg_data_extent] does not consult
    [EC_AGG_CREDITS_MAX]: each extent that falls in the open stripe is
    appended and counted, whatever the count already is.  After [n] such
    extents [as_extent_cnt] has grown by [n] (modulo [2^32]), no reconcile
    was run, and every callback returned 0. *)
Theorem C8_extent_cnt_grows_without_cap env entries : forall w,
  alloc_ok env = true ->
  obj_ec_stripe_rec_nr (ae_oca (w_entry w)) <> 0 ->
  0 <= as_extent_cnt (ae_cur_stripe (w_entry w)) < 2 ^ 32 ->
  Forall (fun entry =>
            0 <= rx_idx (ie_recx entry) < 2 ^ 63 /\
            rx_idx (ie_recx entry) / obj_ec_stripe_rec_nr (ae_oca (w_entry w))
              = as_stripenum (ae_cur_stripe (w_entry w))) entries ->
  exists w',
    iterate_recxs env entries w = Ret 0 w' /\
    as_extent_cnt (ae_cur_stripe (w_entry w'))
      = u32 (as_extent_cnt (ae_cur_stripe (w_entry w))
             + Z.of_nat (length entries)) /\
    w_trace w' = w_trace w.
Proof.
  induction entries as [|entry rest IH]; intros w Halloc Hss Hcnt Hall.
  - exists w. cbn [iterate_recxs length Z.of_nat]. unfold ret.
    split; [reflexivity|]. split; [|reflexivity].
    rewrite Z.add_0_r. symmetry. apply u32_small. exact Hcnt.
  - inversion Hall as [|? ? [Hidx Hsn] Hrest]; subst.
    destruct (agg_ev_same_stripe env entry w Halloc Hss Hidx Hsn)
      as (w1 & Hstep & Hoca & Hnum & Hc1 & Htr).
    destruct (IH w1 Halloc) as (w' & Hrun & Hc' & Htr').
    + rewrite Hoca. exact Hss.
    + rewrite Hc1. apply u32_range.
    + rewrite Hoca, Hnum. exact Hrest.
    + exists w'. cbn [iterate_recxs agg_iterate_pre_cb]. unfold bind at 1.
      rewrite Hstep. cbn [negb Z.eqb]. split; [exact Hrun|].
      split; [|congruence].
      rewrite Hc', Hc1, u32_add_l. f_equal.
      cbn [length]. rewrite Nat2Z.inj_succ. lia.
Qed.

(** 1025 one-record extents in the stripe of 2048 records of the class
    [k = 4], [len = 512]. *)
Lemma C8_extent_cnt_grows_without_cap_witness :
  let entries := map (fun i => data_ie i 1 1 false) (upto 1025) in
  exists w',
    iterate_recxs env_ok entries (fresh_world 4 (mk_oca 4 1 512)) = Ret 0 w' /\
    as_extent_cnt (ae_cur_stripe (w_entry w')) = u32 (0 + Z.of_nat (length entries)) /\
    w_trace w' = [].
Proof.
  intros entries.
  apply (C8_extent_cnt_grows_without_cap env_ok entries
           (fresh_world 4 (mk_oca 4 1 512))).
  - reflexivity.
  - vm_compute. intros H. discriminate H.
  - vm_compute. split; congruence.
  - apply Forall_forall. intros entry Hin.
    apply in_map_iff in Hin. destruct Hin as (i & <- & Hi).
    apply in_map_iff in Hi. destruct Hi as (n & <- & Hn).
    apply in_seq in Hn. cbn [data_ie ie_recx rx_idx].
    change (obj_ec_stripe_rec_nr (ae_oca (w_entry (fresh_world 4 (mk_oca 4 1 512)))))
      with 2048.
    change (as_stripenum (ae_cur_stripe (w_entry (fresh_world 4 (mk_oca 4 1 512)))))
      with 0.
    change (Z.to_nat 1025) with 1025%nat in Hn.
    split; [lia|]. apply Z.div_small. lia.
Defined.

(** C8 as stated fails: with 1025 extents in one open stripe
    [as_extent_cnt] is 1025, above [EC_AGG_CREDITS_MAX], and no reconcile
    has been forced. *)
Lemma C8_credits_cap_counterexample :
  let entries := map (fun i => data_ie i 1 1 false) (upto 1025) in
  exists w',
    iterate_recxs env_ok entries (fresh_world 4 (mk_oca 4 1 512)) = Ret 0 w' /\
    as_extent_cnt (ae_cur_stripe (w_entry w')) = 1025 /\
    EC_AGG_CREDITS_MAX < as_extent_cnt (ae_cur_stripe (w_entry w')) /\
    length (as_dextents (ae_cur_stripe (w_entry w'))) = 1025%nat /\
    w_trace w' = [].
Proof.
  eexists. split; [vm_compute; reflexivity|].
  vm_compute. repeat split.
Qed.

(** ** The parity-write request *)

(** What [agg_peer_update_ult] sends once the request and the bulk handle
    are created: the lengths of the carry-over prefix and suffix, and a bulk
    of [len * rsize] bytes that starts [len] bytes into the parity buffer. *)
Lemma agg_peer_update_ult_request env w buf :
  crt_req_create_rc env = 0 ->
  crt_bulk_create_rc env = 0 ->
  sg_iov (w_entry w) AGG_IOV_PARITY = Some buf ->
  let entry := w_entry w in
  exists rc ec_agg_in,
    agg_peer_update_ult env w =
    Ret rc (mk_world entry
              (w_trace w ++
               [E_rpc_ec_aggregate (ae_peer_rank entry)
                                   (u32 (ae_peer_idx entry + 1)) ec_agg_in])) /\
    ea_prior_len ec_agg_in = as_prefix_ext (ae_cur_stripe entry) /\
    ea_after_len ec_agg_in = as_suffix_ext (ae_cur_stripe entry) /\
    ea_bulk ec_agg_in =
      mk_sgl 1 [mk_iov buf (e_len (ae_oca entry))
                       (u64 (e_len (ae_oca entry) * ae_rsize entry))].
Proof.
  intros Hreq Hbulk Hbuf entry. unfold agg_peer_update_ult. run_monad.
  rewrite Hreq. cbn [negb Z.eqb]. rewrite Hbuf, Hbulk. cbn [negb Z.eqb].
  run_monad.
  destruct (negb (dss_rpc_send_rc env =? 0));
    eexists; eexists; (split; [reflexivity|]); cbn; auto.
Qed.

(** C9, at the failing input: [p = 2], [len = 8], [rsize = 4], so
    [cell_bytes = 32].  The codec keeps the leader's parity at bytes
    [[0, 32)] and the peer's at [[32, 64)] of the parity buffer, but the bulk
    of the request covers bytes [[8, 40)].  [prior_len] and [after_len] do
    carry [as_prefix_ext] and [as_suffix_ext]. *)
Theorem C9_bulk_offset_is_len_not_cell_bytes :
  let entry :=
    with_buffers
      (with_rsize 4
         (with_stripe (mk_stripe 0 10 [] 32 1 0 2 3 false)
                      (fresh_entry 5 oca_4_2_8))) in
  let w := mk_world entry [] in
  cell_bytes_of entry = 32 /\
  cell_ptrs AGG_IOV_PARITY (e_p (ae_oca entry)) (cell_bytes_of entry) =
    [mk_iov AGG_IOV_PARITY 0 32; mk_iov AGG_IOV_PARITY 32 32] /\
  exists ec_agg_in,
    agg_peer_update_ult env_ok w =
    Ret 0 (mk_world entry [E_rpc_ec_aggregate 0 1 ec_agg_in]) /\
    ea_bulk ec_agg_in = mk_sgl 1 [mk_iov AGG_IOV_PARITY 8 32] /\
    ea_prior_len ec_agg_in = 2 /\
    ea_after_len ec_agg_in = 3.
Proof.
  split; [vm_compute; reflexivity|].
  split; [vm_compute; reflexivity|].
  eexists. split; [vm_compute; reflexivity|].
  cbn. auto.
Qed.

(** With one-byte records the two offsets coincide. *)
Lemma bulk_offset_rsize_1 :
  let entry :=
    with_buffers
      (with_rsize 1
         (with_stripe (mk_stripe 0 10 [] 32 1 0 2 3 false)
                      (fresh_entry 5 oca_4_2_8))) in
  exists ec_agg_in,
    agg_peer_update_ult env_ok (mk_world entry []) =
    Ret 0 (mk_world entry [E_rpc_ec_aggregate 0 1 ec_agg_in]) /\
    sg_iovs (ea_bulk ec_agg_in) =
      [nth 1 (cell_ptrs AGG_IOV_PARITY 2 (cell_bytes_of entry))
           (mk_iov AGG_IOV_PARITY 0 0)].
Proof.
  eexists. split; vm_compute; reflexivity.
Qed.

(** ** Holes across a stripe boundary *)

Lemma agg_clear_extents_loop_holes oca l :
  forall ptail prefix cnt hole kept ptail' prefix' cnt' hole' kept',
    agg_clear_extents_loop oca l ptail prefix cnt hole kept
      = Some (ptail', prefix', cnt', hole', kept') ->
    hole' = hole || existsb ae_hole l.
Proof.
  induction l as [|x rest IH]; intros ptail prefix cnt hole kept
    ptail' prefix' cnt' hole' kept' H.
  - cbn in H. inversion H; subst. symmetry. apply orb_false_r.
  - cbn [agg_clear_extents_loop] in H.
    destruct (agg_carry_over oca x) as [tail|]; [|discriminate].
    cbn [existsb].
    destruct (negb (tail =? 0)).
    + destruct (ptail =? 0); [|discriminate].
      apply IH in H. rewrite H.
      destruct (ae_hole x), hole; reflexivity.
    + apply IH in H. rewrite H.
      destruct (ae_hole x), hole; reflexivity.
Qed.

(** C10.  When [agg_clear_extents] clears the processed stripe, the
    [as_has_holes] flag it leaves for the next stripe is true exactly when
    some extent of the list it cleared was a hole, whether or not that extent
    is the one carried over. *)
Theorem C10_has_holes_after_clear entry entry' :
  agg_clear_extents entry = Some entry' ->
  as_has_holes (ae_cur_stripe entry') =
  existsb ae_hole (as_dextents (ae_cur_stripe entry)).
Proof.
  unfold agg_clear_extents. intros H.
  destruct (agg_clear_extents_loop (ae_oca entry)
              (as_dextents (ae_cur_stripe entry)) 0 0
              (as_extent_cnt (ae_cur_stripe entry)) false [])
    as [[[[[ptail prefix] cnt] hole] kept]|] eqn:Hloop; [|discriminate].
  apply agg_clear_extents_loop_holes in Hloop. cbn [orb] in Hloop.
  inversion H; subst. cbn. destruct (existsb _ _); reflexivity.
Qed.

(** C10 at a concrete input: a hole [[0..4)], data [[4..30)] and data
    [[30..34)]; only the data extent [[30..34)] is carried over, and the flag
    is true. *)
Lemma C10_has_holes_after_clear_witness :
  let dextents :=
    [mk_ext (mk_recx 0 4) 10 true; mk_ext (mk_recx 4 26) 10 false;
     mk_ext (mk_recx 30 4) 10 false] in
  let entry :=
    with_stripe (mk_stripe 0 10 dextents 28 3 0 0 0 true)
                (fresh_entry 4 oca_4_1_8) in
  let entry' :=
    with_stripe
      (mk_stripe 0 0 [mk_ext (mk_recx 32 2) 10 false] 2 1 0 2 0 true)
      (fresh_entry 4 oca_4_1_8) in
  agg_clear_extents entry = Some entry' /\
  as_has_holes (ae_cur_stripe entry') = existsb ae_hole dextents.
Proof.
  intros dextents entry entry'.
  assert (H : agg_clear_extents entry = Some entry') by (vm_compute; reflexivity).
  split; [exact H|].
  exact (C10_has_holes_after_clear entry entry' H).
Defined.

(** [agg_clear_extents] passes its assertions when the extents are well
    formed and at most one of them crosses the stripe boundary. *)
Lemma agg_clear_extents_loop_total oca l :
  let ss := e_k oca * e_len oca in
  0 < ss < 2 ^ 32 ->
  Forall (wf_extent ss) l ->
  forall ptail prefix cnt hole kept,
    (length (filter (crosses_boundary ss) l)
       <= (if (ptail =? 0)%Z then 1 else 0))%nat ->
    exists r, agg_clear_extents_loop oca l ptail prefix cnt hole kept = Some r.
Proof.
  intros ss Hss Hwf.
  induction Hwf as [|x l Hx Hl IH]; intros ptail prefix cnt hole kept Hlen.
  - eexists. reflexivity.
  - cbn [agg_clear_extents_loop].
    rewrite (agg_carry_over_wf oca x Hss Hx). fold ss.
    cbn [filter] in Hlen.
    destruct (crosses_boundary ss x) eqn:Hc.
    + destruct (crossing_split ss x Hss Hx Hc) as (Hn & _ & _).
      replace (recs_in_next_stripe ss x =? 0) with false
        by (symmetry; apply Z.eqb_neq; lia).
      cbn [negb length] in *.
      destruct (ptail =? 0); [|lia].
      apply IH.
      replace (recs_in_next_stripe ss x =? 0) with false
        by (symmetry; apply Z.eqb_neq; lia).
      lia.
    + cbn [Z.eqb negb]. apply IH. exact Hlen.
Qed.

Lemma agg_clear_extents_total entry :
  let ss := e_k (ae_oca entry) * e_len (ae_oca entry) in
  0 < ss < 2 ^ 32 ->
  Forall (wf_extent ss) (as_dextents (ae_cur_stripe entry)) ->
  (length (filter (crosses_boundary ss) (as_dextents (ae_cur_stripe entry)))
     <= 1)%nat ->
  exists entry', agg_clear_extents entry = Some entry'.
Proof.
  intros ss Hss Hwf Hlen. unfold agg_clear_extents.
  destruct (agg_clear_extents_loop_total (ae_oca entry) _ Hss Hwf 0 0
              (as_extent_cnt (ae_cur_stripe entry)) false [] Hlen)
    as ([[[[ptail prefix] cnt] hole] kept] & Hloop).
  rewrite Hloop. eexists. reflexivity.
Qed.

(** The flag steers the next stripe.  Stripe 0 holds a hole; stripe 1 holds
    only data (the carried-over [[32..34)] and [[40..48)]) and has an older
    parity.  With the hole in stripe 0, stripe 1 is reconciled on the hole
    path (a replicate RPC); without it, on the partial path (none). *)
Lemma hole_flag_steers_next_stripe :
  let env0 := scenario_env [parity_at 0 5] 0 0 0 0 in
  let env1 := scenario_env [parity_at 1 5] 0 0 0 0 in
  let data :=
    [data_ie 4 26 10 false; data_ie 30 4 10 false; data_ie 40 8 10 false] in
  let with_hole := after_extents env0 5 oca_4_1_8 (data_ie 0 4 10 true :: data) in
  let without := after_extents env0 5 oca_4_1_8 data in
  existsb ae_hole (as_dextents (ae_cur_stripe (w_entry with_hole))) = false /\
  as_has_holes (ae_cur_stripe (w_entry with_hole)) = true /\
  as_has_holes (ae_cur_stripe (w_entry without)) = false /\
  existsb (fun ev => match ev with E_rpc_ec_replicate _ _ _ => true | _ => false end)
          (new_events with_hole (agg_akey_post env1 with_hole)) = true /\
  existsb (fun ev => match ev with E_rpc_ec_replicate _ _ _ => true | _ => false end)
          (new_events without (agg_akey_post env1 without)) = false.
Proof. vm_compute. repeat split. Qed.

(** On the commit branch with one parity shard, [agg_process_stripe] stores
    [agg_get_carry_under] in [as_suffix_ext], commits, and clears. *)
Lemma agg_process_stripe_out_commit env w sfx :
  e_p (ae_oca (w_entry w)) <= 1 ->
  agg_get_carry_under (w_entry w) = Some sfx ->
  agg_process_stripe_out env 0 true false w =
  bind (agg_update_vos env)
       (fun rc => bind (update_entry agg_clear_extents) (fun _ => ret rc))
       (mk_world (with_stripe (with_suffix_ext sfx (ae_cur_stripe (w_entry w)))
                              (w_entry w))
                 (w_trace w)).
Proof.
  intros Hp Hsfx. unfold agg_process_stripe_out.
  cbn [andb Z.eqb]. run_monad. rewrite Hsfx. run_monad.
  replace (e_p (ae_oca (w_entry w)) >? 1) with false
    by (symmetry; rewrite Z.gtb_ltb; apply Z.ltb_ge; exact Hp).
  cbn [andb Z.eqb]. reflexivity.
Qed.

(** * Further properties *)

(** ** Rules for runs *)

Lemma extends_refl {A} P w (o : outcome A) :
  outcome_trace o = w_trace w -> extends P w o.
Proof. intros H. exists []. rewrite app_nil_r. split; [exact H|constructor]. Qed.

Lemma triple_ret {A} (I : ec_agg_entry -> Prop) P (J : A -> ec_agg_entry -> Prop) a :
  (forall e, I e -> J a e) -> triple I P J (ret a).
Proof.
  intros H w Hw. split; [apply extends_refl; reflexivity|].
  intros a' w' Heq. inversion Heq; subst. apply H. exact Hw.
Qed.

Lemma triple_crash {A} (I : ec_agg_entry -> Prop) P (J : A -> ec_agg_entry -> Prop) :
  triple I P J crash.
Proof.
  intros w Hw. split; [apply extends_refl; reflexivity|].
  intros a' w' Heq. discriminate Heq.
Qed.

Lemma triple_bind {A B} (I : ec_agg_entry -> Prop) P
    (J : A -> ec_agg_entry -> Prop) (K : B -> ec_agg_entry -> Prop)
    (m : M A) (f : A -> M B) :
  triple I P J m ->
  (forall a, triple (J a) P K (f a)) ->
  triple I P K (bind m f).
Proof.
  intros Hm Hf w Hw. destruct (Hm w Hw) as [(l & Htr & Hl) Hpost].
  unfold bind. destruct (m w) as [a w1|w1] eqn:Hrun.
  - destruct (Hf a w1 (Hpost a w1 eq_refl)) as [(l' & Htr' & Hl') Hpost'].
    split; [|exact Hpost'].
    exists (l ++ l'). split.
    + rewrite Htr'. cbn [outcome_trace] in Htr. rewrite Htr. symmetry. apply app_assoc.
    + apply Forall_app. split; assumption.
  - split; [exists l; split; assumption|].
    intros b w' Heq. discriminate Heq.
Qed.

Lemma triple_weaken {A} (I I' : ec_agg_entry -> Prop) P
    (J J' : A -> ec_agg_entry -> Prop) (m : M A) :
  (forall e, I' e -> I e) ->
  (forall a e, J a e -> J' a e) ->
  triple I P J m -> triple I' P J' m.
Proof.
  intros HI HJ Hm w Hw. destruct (Hm w (HI _ Hw)) as [Hext Hpost].
  split; [exact Hext|]. intros a w' Heq. apply HJ. apply (Hpost a w' Heq).
Qed.

Lemma triple_bind_get {A} (I : ec_agg_entry -> Prop) P
    (J : A -> ec_agg_entry -> Prop) (f : ec_agg_entry -> M A) :
  (forall e, I e -> triple I P J (f e)) ->
  triple I P J (bind get_entry f).
Proof. intros H w Hw. exact (H (w_entry w) Hw w Hw). Qed.

Lemma triple_emit (I : ec_agg_entry -> Prop) (P : event -> Prop) ev :
  P ev -> triple I P (fun _ => I) (emit ev).
Proof.
  intros Hev w Hw. split.
  - exists [ev]. split; [reflexivity|]. constructor; [exact Hev|constructor].
  - intros a w' Heq. inversion Heq; subst. exact Hw.
Qed.

Lemma triple_put (I : ec_agg_entry -> Prop) (P : event -> Prop) e :
  I e -> triple I P (fun _ => I) (put_entry e).
Proof.
  intros He w Hw. split; [apply extends_refl; reflexivity|].
  intros a w' Heq. inversion Heq; subst. exact He.
Qed.

Lemma triple_bind_emit {A} (I : ec_agg_entry -> Prop) (P : event -> Prop)
    (J : A -> ec_agg_entry -> Prop) ev (k : M A) :
  P ev -> triple I P J k -> triple I P J (bind (emit ev) (fun _ => k)).
Proof.
  intros Hev Hk. apply (triple_bind I P (fun _ => I)); [|intros _; exact Hk].
  apply triple_emit. exact Hev.
Qed.

Lemma triple_bind_put {A} (I : ec_agg_entry -> Prop) (P : event -> Prop)
    (J : A -> ec_agg_entry -> Prop) e (k : M A) :
  I e -> triple I P J k -> triple I P J (bind (put_entry e) (fun _ => k)).
Proof.
  intros He Hk. apply (triple_bind I P (fun _ => I)); [|intros _; exact Hk].
  apply triple_put. exact He.
Qed.

Lemma triple_bind_assert {A} (I : ec_agg_entry -> Prop) (P : event -> Prop)
    (J : A -> ec_agg_entry -> Prop) b (k : M A) :
  (b = true -> triple I P J k) ->
  triple I P J (bind (D_ASSERT b) (fun _ => k)).
Proof.
  intros Hk. destruct b.
  - apply (triple_bind I P (fun _ => I)); [|intros _; apply Hk; reflexivity].
    apply triple_ret. auto.
  - intros w Hw. split; [apply extends_refl; reflexivity|].
    intros a w' Heq. discriminate Heq.
Qed.

Lemma triple_lift {A} (I : ec_agg_entry -> Prop) (P : event -> Prop)
    (f : ec_agg_entry -> option A) :
  triple I P (fun _ => I) (lift f).
Proof.
  intros w Hw. unfold lift, bind, get_entry.
  destruct (f (w_entry w)); (split; [apply extends_refl; reflexivity|]);
    intros a' w' Heq; inversion Heq; subst; exact Hw.
Qed.

Lemma triple_update_entry (I J : ec_agg_entry -> Prop) (P : event -> Prop)
    (f : ec_agg_entry -> option ec_agg_entry) :
  (forall e e', I e -> f e = Some e' -> J e') ->
  triple I P (fun _ => J) (update_entry f).
Proof.
  intros Hf w Hw. unfold update_entry, lift, bind, get_entry, put_entry, ret.
  destruct (f (w_entry w)) as [e'|] eqn:Hfe;
    (split; [apply extends_refl; reflexivity|]);
    intros a' w' Heq; inversion Heq; subst. cbn. exact (Hf _ _ Hw Hfe).
Qed.

Lemma triple_bind_lift {A B} (I : ec_agg_entry -> Prop) (P : event -> Prop)
    (J : B -> ec_agg_entry -> Prop) (f : ec_agg_entry -> option A)
    (k : A -> M B) :
  (forall a, triple I P J (k a)) -> triple I P J (bind (lift f) k).
Proof.
  intros Hk. apply (triple_bind I P (fun _ => I)); [apply triple_lift|exact Hk].
Qed.

Lemma triple_bind_ret {A B} (I : ec_agg_entry -> Prop) (P : event -> Prop)
    (J : B -> ec_agg_entry -> Prop) (a : A) (k : A -> M B) :
  triple I P J (k a) -> triple I P J (bind (ret a) k).
Proof. intros H w Hw. exact (H w Hw). Qed.

Lemma triple_pre_pure {A} (I : ec_agg_entry -> Prop) (Q : Prop)
    (P : event -> Prop) (J : A -> ec_agg_entry -> Prop) (m : M A) :
  (Q -> triple I P J m) -> triple (fun e => I e /\ Q) P J m.
Proof. intros H w [Hi Hq]. exact (H Hq w Hi). Qed.

Lemma triple_put_to (I J : ec_agg_entry -> Prop) (P : event -> Prop) e :
  J e -> triple I P (fun _ => J) (put_entry e).
Proof.
  intros He w Hw. split; [apply extends_refl; reflexivity|].
  intros a w' Heq. inversion Heq; subst. exact He.
Qed.

Lemma triple_bind_in_bounds {A} (I : ec_agg_entry -> Prop) (P : event -> Prop)
    (J : A -> ec_agg_entry -> Prop) b (k : M A) :
  (b = true -> triple I P J k) ->
  triple I P J (bind (in_bounds b) (fun _ => k)).
Proof.
  intros Hk. destruct b.
  - apply (triple_bind I P (fun _ => I)); [|intros _; apply Hk; reflexivity].
    apply triple_ret. auto.
  - intros w Hw. split; [apply extends_refl; reflexivity|].
    intros a w' Heq. discriminate Heq.
Qed.

(** After [get_entry] the entry read is the entry of the state, until the
    next [put_entry]. *)
Lemma triple_bind_get_eq {A} (I : ec_agg_entry -> Prop) P
    (J : A -> ec_agg_entry -> Prop) (f : ec_agg_entry -> M A) :
  (forall e, I e -> triple (fun e' => I e' /\ e' = e) P J (f e)) ->
  triple I P J (bind get_entry f).
Proof. intros H w Hw. exact (H (w_entry w) Hw w (conj Hw eq_refl)). Qed.

Create HintDb triples.

Ltac triple_step :=
  lazymatch goal with
  | |- triple _ _ _ (bind get_entry _) => apply triple_bind_get; intros ? ?
  | |- triple _ _ _ (bind (emit _) _) => apply triple_bind_emit
  | |- triple _ _ _ (bind (put_entry _) _) => apply triple_bind_put
  | |- triple _ _ _ (bind (D_ASSERT _) _) => apply triple_bind_assert; intros ?
  | |- triple _ _ _ (bind (in_bounds _) _) => apply triple_bind_in_bounds; intros ?
  | |- triple _ _ _ (bind (lift _) _) => apply triple_bind_lift; intros ?
  | |- triple _ _ _ (bind (ret _) _) => apply triple_bind_ret
  | |- triple _ _ _ (bind (if ?c then _ else _) _) => destruct c eqn:?
  | |- triple _ _ _ (bind _ _) =>
      eapply triple_bind; [solve [eauto with triples]|intros ?]
  | |- triple _ _ _ (if ?c then _ else _) => destruct c eqn:?
  | |- triple _ _ _ (match ?x with _ => _ end) => destruct x eqn:?
  | |- triple _ _ _ (ret _) => apply triple_ret; intros ? ?
  | |- triple _ _ _ crash => apply triple_crash
  | |- triple _ _ _ (emit _) => apply triple_emit
  | |- triple _ _ _ (put_entry _) => apply triple_put
  | |- triple _ _ _ _ => solve [eauto with triples]
  end.

(** ** The reconciler keeps to its stripe *)

Lemma stripe_inv_fields e0 e :
  stripe_inv e0 e ->
  ae_oca e = ae_oca e0 /\ ae_oid_shard e = ae_oid_shard e0 /\
  ae_dkey e = ae_dkey e0 /\ ae_akey e = ae_akey e0 /\
  ae_rsize e = ae_rsize e0 /\
  as_stripenum (ae_cur_stripe e) = as_stripenum (ae_cur_stripe e0) /\
  as_hi_epoch (ae_cur_stripe e) = as_hi_epoch (ae_cur_stripe e0) /\
  as_dextents (ae_cur_stripe e) = as_dextents (ae_cur_stripe e0) /\
  as_stripe_fill (ae_cur_stripe e) = as_stripe_fill (ae_cur_stripe e0) /\
  as_extent_cnt (ae_cur_stripe e) = as_extent_cnt (ae_cur_stripe e0) /\
  as_offset (ae_cur_stripe e) = as_offset (ae_cur_stripe e0) /\
  as_prefix_ext (ae_cur_stripe e) = as_prefix_ext (ae_cur_stripe e0) /\
  as_has_holes (ae_cur_stripe e) = as_has_holes (ae_cur_stripe e0).
Proof.
  unfold stripe_inv, fixed_part, with_suffix_ext. intros H.
  inversion H. repeat split; assumption.
Qed.

Ltac inv_split :=
  repeat match goal with
         | H : _ /\ _ |- _ => destruct H
         end.

Ltac inv_solve :=
  inv_split;
  try assumption;
  try (split; assumption);
  match goal with
  | H : stripe_inv ?e0 ?e |- _ =>
      let F := fresh "F" in
      pose proof (stripe_inv_fields _ _ H) as F;
      decompose [and] F; clear F;
      unfold stripe_event, probe_recx, cell_bytes_of; cbn;
      repeat split; solve [assumption | congruence]
  | _ => exact I
  end.

Ltac triple_go := repeat triple_step; try solve [inv_solve].

Section StripeTriples.

Variable env : environment.
Variable e0 : ec_agg_entry.

(** The invariant: the fixed part of the entry is the one of [e0], and
    [sg_iovs] stands where [Q] says. *)
Local Abbreviation inv Q :=
  (fun e : ec_agg_entry => stripe_inv e0 e /\ Q (ae_sg_iovs e)).

Local Abbreviation keeps Q m :=
  (triple (inv Q) (stripe_event e0) (fun _ => inv Q) m).

(** The result 0 comes with [sg_iovs] at the start of its array. *)
Local Abbreviation ready_if_ok :=
  (fun (rc : Z) (e : ec_agg_entry) => stripe_inv e0 e /\ (rc = 0 -> at_start e)).

Lemma set_sg_nr_keeps Q n : keeps Q (set_sg_nr n).
Proof.
  unfold set_sg_nr. apply triple_bind_get. intros e [H Hq].
  apply triple_put. split; [exact H|exact Hq].
Qed.

Lemma set_iov_len_keeps Q iov_entry n : keeps Q (set_iov_len iov_entry n).
Proof.
  unfold set_iov_len. apply triple_bind_get. intros e [H Hq].
  destruct (sg_iov e iov_entry); [|apply triple_crash].
  apply triple_put. split; [exact H|exact Hq].
Qed.

Lemma move_sg_iovs_to (Q Q' : option Z -> Prop) d :
  (forall p, Q p -> Q' (option_map (Z.add d) p)) ->
  triple (inv Q) (stripe_event e0) (fun _ => inv Q') (move_sg_iovs d).
Proof.
  intros Hq. unfold move_sg_iovs. apply triple_bind_get. intros e [H He].
  apply triple_put_to. split; [exact H|]. apply Hq. exact He.
Qed.

Lemma sg_iov_buf_keeps Q iov_entry : keeps Q (sg_iov_buf iov_entry).
Proof.
  unfold sg_iov_buf. apply triple_bind_get. intros e He.
  destruct (sg_iov e iov_entry); [|apply triple_crash].
  apply triple_ret. auto.
Qed.

Lemma iov_at_index iov_entry : iov_at (0 + iov_index iov_entry) = Some iov_entry.
Proof. destruct iov_entry; reflexivity. Qed.

(** With [sg_iovs] at the start of its array, the buffer read at an index
    is the buffer of that iov. *)
Lemma sg_iov_buf_at_start iov_entry :
  triple (inv at_start_p) (stripe_event e0)
         (fun slot e => inv at_start_p e /\ slot = iov_entry)
         (sg_iov_buf iov_entry).
Proof.
  unfold sg_iov_buf. apply triple_bind_get. intros e [H Hq].
  unfold sg_iov. destruct (ae_sg_iovs e) as [n|] eqn:Hp; [|apply triple_crash].
  cbn in Hq. subst n. rewrite iov_at_index.
  apply triple_ret. intros e' He'. split; [exact He'|reflexivity].
Qed.

Lemma ABT_eventual_create_keeps Q : keeps Q (ABT_eventual_create env).
Proof. unfold ABT_eventual_create. apply triple_ret. auto. Qed.

Lemma ABT_eventual_wait_keeps Q : keeps Q (ABT_eventual_wait env).
Proof. unfold ABT_eventual_wait. apply triple_ret. auto. Qed.

Lemma dss_ult_create_to {A} (I J : ec_agg_entry -> Prop) (ult : M A) (unset : A) :
  (forall e, I e -> J e) ->
  triple I (stripe_event e0) (fun _ => J) ult ->
  triple I (stripe_event e0) (fun _ => J) (dss_ult_create env ult unset).
Proof.
  intros Hij Hult. unfold dss_ult_create.
  destruct (negb (dss_ult_create_rc env =? 0)).
  - apply triple_ret. auto.
  - eapply triple_bind; [exact Hult|]. intros a. apply triple_ret. auto.
Qed.

(** *** The buffers *)

Lemma agg_prep_sgl_buf_reaches Q iov_entry need align_data :
  triple (inv Q) (stripe_event e0)
         (fun _ => inv (fun p => Q p /\ reaches iov_entry p))
         (agg_prep_sgl_buf env iov_entry need align_data).
Proof.
  unfold agg_prep_sgl_buf. apply triple_bind_get_eq. intros e [H Hq].
  assert (Hreach : sg_iov e iov_entry <> None -> reaches iov_entry (ae_sg_iovs e)).
  { unfold sg_iov, reaches. destruct (ae_sg_iovs e); [auto|congruence]. }
  destruct (sg_iov e iov_entry) as [slot|]; [|apply triple_crash].
  assert (Hr : reaches iov_entry (ae_sg_iovs e)) by (apply Hreach; discriminate).
  destruct (_ <? _).
  - destruct (agg_alloc_buf _ _ _ _ _ _) as [rc sgl].
    apply (triple_bind _ _ (fun _ => inv (fun p => Q p /\ reaches iov_entry p)));
      [|intros u; apply triple_ret; auto].
    apply triple_put_to. cbn. auto.
  - apply triple_ret. intros e' [[H' Hq'] ->]. auto.
Qed.

Lemma reaches_at_start p :
  reaches AGG_IOV_DATA p -> reaches AGG_IOV_DIFF p -> at_start_p p.
Proof.
  destruct p as [n|]; cbn; [|auto]. unfold iov_at. intros Hd Hf.
  repeat match goal with
         | H : context [if ?a =? ?b then _ else _] |- _ =>
             destruct (Z.eqb_spec a b)
         end; try lia; congruence.
Qed.

Ltac ret_failed Hrc :=
  apply triple_ret;
  let e' := fresh "e" in
  let H := fresh "H" in
  intros e' H; inv_split; split; [assumption|];
  let Hz := fresh "Hz" in
  intros Hz; rewrite Hz in Hrc; discriminate Hrc.

(** [agg_prep_sgl] returns 0 only with [sg_iovs] at the start of its array
    (or null, when [DER_NOMEM] is 0 and the array could not be
    allocated). *)
Lemma agg_prep_sgl_ready :
  triple (inv any_p) (stripe_event e0) ready_if_ok (agg_prep_sgl env).
Proof.
  unfold agg_prep_sgl. apply triple_bind_get. intros e [H _].
  destruct ((ae_sg_nr (ae_sgl e) =? 0) && negb (alloc_ok env)).
  - apply (triple_bind _ _ (fun _ => inv at_start_p)).
    + apply triple_put_to. split; [exact H|exact I].
    + intros u. apply triple_ret. intros e' [H' Hq'].
      split; [exact H'|intros _; exact Hq'].
  - apply (triple_bind _ _ (fun _ => inv any_p)).
    { destruct (_ =? 0).
      - apply triple_put_to. split; [exact H|exact I].
      - apply triple_ret. auto. }
    intros u. apply triple_bind_get. intros e1 [H1 _].
    apply triple_bind_assert. intros _.
    apply (triple_bind _ _ (fun _ => inv (fun p => any_p p /\ reaches AGG_IOV_DATA p)));
      [exact (agg_prep_sgl_buf_reaches any_p _ _ _)|].
    intros rc. destruct (negb (rc =? 0)) eqn:Hrc; [ret_failed Hrc|].
    apply (triple_bind _ _ (fun _ => inv (fun p => any_p p /\ reaches AGG_IOV_DATA p))).
    { eapply triple_weaken;
        [| |apply (agg_prep_sgl_buf_reaches
                     (fun p => any_p p /\ reaches AGG_IOV_DATA p))];
        cbn; intuition. }
    intros rc2. destruct (negb (rc2 =? 0)) eqn:Hrc2; [ret_failed Hrc2|].
    apply (triple_bind _ _
             (fun _ => inv (fun p => (any_p p /\ reaches AGG_IOV_DATA p)
                                     /\ reaches AGG_IOV_DIFF p)));
      [exact (agg_prep_sgl_buf_reaches
                (fun p => any_p p /\ reaches AGG_IOV_DATA p) _ _ _)|].
    intros rc3. destruct (negb (rc3 =? 0)) eqn:Hrc3; [ret_failed Hrc3|].
    eapply triple_weaken;
      [| |apply (agg_prep_sgl_buf_reaches
                   (fun p => (any_p p /\ reaches AGG_IOV_DATA p)
                             /\ reaches AGG_IOV_DIFF p))].
    + cbn. intuition.
    + cbn. intros rc4 e' (H' & ((_ & Hd) & Hf) & _).
      split; [exact H'|]. intros _. apply reaches_at_start; assumption.
Qed.

(** Once a call returned 0 with [sg_iovs] at the start, the run goes on
    from there. *)
Lemma triple_ready {A} (rc : Z) (J : A -> ec_agg_entry -> Prop) (m : M A) :
  (rc =? 0) = true ->
  triple (inv at_start_p) (stripe_event e0) J m ->
  triple (ready_if_ok rc) (stripe_event e0) J m.
Proof.
  intros Hrc Hm. eapply triple_weaken; [| |exact Hm]; [|auto].
  intros e [H Hs]. split; [exact H|]. apply Hs. apply Z.eqb_eq. exact Hrc.
Qed.

Lemma ret_ready_if_ok (Q : option Z -> Prop) rc :
  (forall p, Q p -> rc = 0 -> at_start_p p) ->
  triple (inv Q) (stripe_event e0) ready_if_ok (ret rc).
Proof.
  intros Hq. apply triple_ret. intros e [H He]. split; [exact H|].
  intros Hrc. apply (Hq _ He Hrc).
Qed.

Lemma agg_fetch_data_stripe_ready :
  triple (inv any_p) (stripe_event e0) ready_if_ok (agg_fetch_data_stripe env).
Proof.
  unfold agg_fetch_data_stripe. apply triple_bind_get. intros e [H _].
  eapply triple_bind; [apply agg_prep_sgl_ready|]. intros rc.
  destruct (negb (rc =? 0)) eqn:Hrc; [ret_failed Hrc|].
  apply triple_ready; [destruct (rc =? 0); [reflexivity|discriminate]|].
  apply (triple_bind _ _ (fun _ => inv at_start_p));
    [apply set_sg_nr_keeps|]. intros u1.
  apply (triple_bind _ _ (fun _ => inv at_start_p));
    [apply set_iov_len_keeps|]. intros u2.
  apply triple_bind_lift. intros sgl.
  apply triple_bind_emit; [inv_solve|].
  apply (triple_bind _ _ (fun _ => inv at_start_p));
    [apply set_sg_nr_keeps|]. intros u3.
  apply ret_ready_if_ok. auto.
Qed.

Lemma agg_encode_full_stripe_ult_keeps :
  keeps at_start_p agg_encode_full_stripe_ult.
Proof.
  unfold agg_encode_full_stripe_ult. apply triple_bind_get. intros e [H Hq].
  eapply triple_bind; [apply sg_iov_buf_at_start|]. intros buf.
  apply triple_pre_pure. intros ->.
  eapply triple_bind; [apply sg_iov_buf_at_start|]. intros pbuf.
  apply triple_pre_pure. intros ->.
  apply triple_bind_put; [split; [exact H|exact Hq]|].
  apply triple_bind_emit; [inv_solve|].
  apply triple_ret. auto.
Qed.

Lemma agg_encode_full_stripe_keeps :
  keeps at_start_p (agg_encode_full_stripe env).
Proof.
  unfold agg_encode_full_stripe.
  apply (triple_bind _ _ (fun _ => inv at_start_p));
    [apply ABT_eventual_create_keeps|]. intros rc.
  destruct (negb (rc =? ABT_SUCCESS)); [apply triple_ret; auto|].
  apply (triple_bind _ _ (fun _ => inv at_start_p)).
  { apply dss_ult_create_to; [auto|apply agg_encode_full_stripe_ult_keeps]. }
  intros [rc' status].
  destruct (negb (rc' =? 0)); [apply triple_ret; auto|].
  apply (triple_bind _ _ (fun _ => inv at_start_p));
    [apply ABT_eventual_wait_keeps|]. intros rc2.
  destruct (negb (rc2 =? ABT_SUCCESS)); [apply triple_ret; auto|].
  destruct (negb (status =? 0)); apply triple_ret; auto.
Qed.

Lemma agg_encode_local_parity_keeps : keeps any_p (agg_encode_local_parity env).
Proof.
  unfold agg_encode_local_parity.
  eapply triple_bind; [apply agg_fetch_data_stripe_ready|]. intros rc.
  destruct (negb (rc =? 0)) eqn:Hrc.
  - apply triple_ret. intros e [H _]. split; [exact H|exact I].
  - apply triple_ready; [destruct (rc =? 0); [reflexivity|discriminate]|].
    apply (triple_bind _ _ (fun _ => inv at_start_p));
      [apply agg_encode_full_stripe_keeps|]. intros rc'.
    apply triple_ret. intros e [H _]. split; [exact H|exact I].
Qed.

Lemma agg_update_vos_keeps Q : keeps Q (agg_update_vos env).
Proof.
  unfold agg_update_vos. apply triple_bind_get. intros e [H Hq].
  apply triple_bind_emit; [inv_solve|].
  destruct (sg_iov e AGG_IOV_PARITY); [|apply triple_crash].
  apply triple_bind_emit; [inv_solve|].
  apply triple_ret. auto.
Qed.

Lemma agg_get_obj_handle_keeps Q : keeps Q (agg_get_obj_handle env).
Proof.
  unfold agg_get_obj_handle. apply triple_bind_get. intros e [H Hq].
  destruct (negb (ae_obj_hdl e)); [|apply triple_ret; auto].
  apply triple_bind_emit; [exact I|].
  destruct (dsc_obj_open_rc env =? 0); [|apply triple_ret; auto].
  destruct (agg_get_obj_handle_loop env _ _ _ _) as [[[rank idx]|]|];
    [| |apply triple_crash];
    (apply triple_bind_put; [split; [exact H|exact Hq]|apply triple_ret; auto]).
Qed.

(** *** The partial path *)

Lemma agg_fetch_odata_cells_ready bit_map cell_cnt is_recalc :
  triple (inv at_start_p) (stripe_event e0) ready_if_ok
         (agg_fetch_odata_cells env bit_map cell_cnt is_recalc).
Proof.
  unfold agg_fetch_odata_cells. apply triple_bind_get. intros e [H Hq].
  destruct (negb (alloc_ok env)); [apply ret_ready_if_ok; auto|].
  apply triple_bind_in_bounds. intros _.
  apply (triple_bind _ _ (fun _ => inv at_start_p));
    [apply set_sg_nr_keeps|]. intros u1.
  apply (triple_bind _ _ (fun _ => inv at_start_p));
    [apply set_iov_len_keeps|]. intros u2.
  apply (triple_bind _ _ (fun _ => inv ahead_p)).
  { apply move_sg_iovs_to. intros [n|]; cbn; [intros ->; reflexivity|auto]. }
  intros u3.
  apply (triple_bind _ _ (fun _ => inv ahead_p));
    [apply agg_get_obj_handle_keeps|]. intros rc.
  destruct (negb (rc =? 0)) eqn:Hrc; [ret_failed Hrc|].
  apply triple_bind_get. intros e1 [H1 Hq1].
  apply triple_bind_lift. intros sgl.
  apply triple_bind_emit; [exact I|].
  apply (triple_bind _ _ (fun _ => inv at_start_p)).
  { apply move_sg_iovs_to. intros [n|]; cbn; [intros ->; reflexivity|auto]. }
  intros u4.
  apply (triple_bind _ _ (fun _ => inv at_start_p));
    [apply set_sg_nr_keeps|]. intros u5.
  apply ret_ready_if_ok. auto.
Qed.

Lemma agg_fetch_local_extents_ready bit_map cell_cnt is_recalc :
  triple (inv any_p) (stripe_event e0) ready_if_ok
         (agg_fetch_local_extents env bit_map cell_cnt is_recalc).
Proof.
  unfold agg_fetch_local_extents. apply triple_bind_get. intros e [H _].
  pose proof (DER_NOMEM_nonzero env) as Hder.
  destruct (negb (alloc_ok env)) eqn:Halloc.
  { apply triple_ret. intros e' [H' _]. split; [exact H'|].
    intros Hz. rewrite Hz in Hder. discriminate Hder. }
  apply triple_bind_in_bounds. intros _.
  apply triple_bind_assert. intros _.
  apply (triple_bind _ _ (fun _ => inv any_p)).
  { destruct is_recalc; [|apply triple_ret; auto].
    unfold in_bounds. destruct (_ <? _); [apply triple_ret; auto|apply triple_crash]. }
  intros u.
  eapply triple_bind; [apply agg_prep_sgl_ready|]. intros rc.
  destruct (negb (rc =? 0)) eqn:Hrc; [ret_failed Hrc|].
  apply triple_ready; [destruct (rc =? 0); [reflexivity|discriminate]|].
  apply (triple_bind _ _ (fun _ => inv at_start_p));
    [apply sg_iov_buf_keeps|]. intros buf.
  apply (triple_bind _ _ (fun _ => inv at_start_p)).
  { destruct is_recalc; [|apply triple_ret; auto].
    apply (triple_bind _ _ (fun _ => inv at_start_p));
      [apply sg_iov_buf_keeps|]. intros pbuf. apply triple_ret. auto. }
  intros sgl.
  apply triple_bind_emit; [inv_solve|].
  apply ret_ready_if_ok. auto.
Qed.

Lemma agg_fetch_remote_parity_loop_keeps Q idxs recx buf : forall pshard,
  keeps Q (agg_fetch_remote_parity_loop env idxs recx buf pshard).
Proof.
  induction idxs as [|i rest IH]; intros pshard;
    cbn [agg_fetch_remote_parity_loop]; [apply triple_ret; auto|].
  apply triple_bind_get. intros e He.
  apply triple_bind_assert. intros _.
  apply triple_bind_emit; [exact I|].
  destruct (negb (dsc_obj_fetch_rc env =? 0)); [apply triple_ret; auto|apply IH].
Qed.

Lemma agg_fetch_remote_parity_keeps Q : keeps Q (agg_fetch_remote_parity env).
Proof.
  unfold agg_fetch_remote_parity. apply triple_bind_get. intros e He.
  apply triple_bind_assert. intros _.
  apply (triple_bind _ _ (fun _ => inv Q)); [apply sg_iov_buf_keeps|].
  intros buf. apply agg_fetch_remote_parity_loop_keeps.
Qed.

Lemma agg_update_parity_loop_keeps Q idxs bit_map obuf buf diff : forall j,
  keeps Q (agg_update_parity_loop env idxs bit_map j AGG_IOV_PARITY obuf buf diff).
Proof.
  induction idxs as [|i rest IH]; intros j;
    cbn [agg_update_parity_loop]; [apply triple_ret; auto|].
  apply triple_bind_get. intros e [H Hq].
  apply triple_bind_emit; [exact I|].
  destruct (negb (xor_gen_rc env =? 0)); [apply triple_ret; auto|].
  destruct (next_set_bit bit_map j) as [j'|]; [|apply triple_crash].
  apply triple_bind_emit; [inv_solve|]. apply IH.
Qed.

Lemma agg_update_parity_keeps bit_map cell_cnt :
  keeps at_start_p (agg_update_parity env bit_map cell_cnt).
Proof.
  unfold agg_update_parity. apply triple_bind_get. intros e [H Hq].
  apply triple_bind_put; [split; [exact H|exact Hq]|].
  eapply triple_bind; [apply sg_iov_buf_at_start|]. intros pbuf.
  apply triple_pre_pure. intros ->.
  apply (triple_bind _ _ (fun _ => inv at_start_p)); [apply sg_iov_buf_keeps|].
  intros obuf.
  apply (triple_bind _ _ (fun _ => inv at_start_p)); [apply sg_iov_buf_keeps|].
  intros buf.
  apply (triple_bind _ _ (fun _ => inv at_start_p)); [apply sg_iov_buf_keeps|].
  intros diff. apply agg_update_parity_loop_keeps.
Qed.

Lemma agg_recalc_parity_keeps bit_map cell_cnt :
  keeps at_start_p (agg_recalc_parity bit_map cell_cnt).
Proof.
  unfold agg_recalc_parity. apply triple_bind_get. intros e [H Hq].
  apply (triple_bind _ _ (fun _ => inv at_start_p)).
  { destruct (_ >? 0); [|apply triple_ret; auto].
    apply (triple_bind _ _ (fun _ => inv at_start_p)); [apply sg_iov_buf_keeps|].
    intros rbuf.
    apply (triple_bind _ _ (fun _ => inv at_start_p)); [apply sg_iov_buf_keeps|].
    intros lbuf. apply triple_ret. auto. }
  intros bufs. destruct (agg_recalc_data _ _ _ _ _ _ _) as [data r].
  apply triple_bind_assert. intros _.
  eapply triple_bind; [apply sg_iov_buf_at_start|]. intros pbuf.
  apply triple_pre_pure. intros ->.
  apply triple_bind_assert. intros _.
  apply triple_bind_put; [split; [exact H|exact Hq]|].
  apply triple_emit. inv_solve.
Qed.

Lemma agg_process_partial_stripe_ult_keeps bit_map cell_cnt asu_recalc :
  triple (inv at_start_p) (stripe_event e0) (fun _ => inv any_p)
         (agg_process_partial_stripe_ult env bit_map cell_cnt asu_recalc).
Proof.
  unfold agg_process_partial_stripe_ult. apply triple_bind_get. intros e [H Hq].
  eapply triple_bind; [apply agg_fetch_odata_cells_ready|]. intros rc.
  destruct (negb (rc =? 0)) eqn:Hrc.
  { apply triple_ret. intros e' [H' _]. split; [exact H'|exact I]. }
  apply triple_ready; [destruct (rc =? 0); [reflexivity|discriminate]|].
  apply (triple_bind _ _ (fun _ => inv at_start_p)).
  { destruct (_ >? 1); [apply agg_fetch_remote_parity_keeps|apply triple_ret; auto]. }
  intros rc2. destruct (negb (rc2 =? 0)).
  { apply triple_ret. intros e' [H' _]. split; [exact H'|exact I]. }
  destruct asu_recalc.
  - apply (triple_bind _ _ (fun _ => inv at_start_p));
      [apply agg_recalc_parity_keeps|]. intros u.
    apply triple_ret. intros e' [H' _]. split; [exact H'|exact I].
  - eapply triple_weaken; [| |apply agg_update_parity_keeps]; [auto|].
    intros rc3 e' [H' _]. split; [exact H'|exact I].
Qed.

Lemma agg_process_partial_stripe_keeps :
  keeps any_p (agg_process_partial_stripe env).
Proof.
  unfold agg_process_partial_stripe.
  apply triple_bind_lift. intros [[asu_recalc bit_map] cell_cnt].
  eapply triple_bind; [apply agg_fetch_local_extents_ready|]. intros rc.
  destruct (negb (rc =? 0)) eqn:Hrc.
  { apply triple_ret. intros e' [H' _]. split; [exact H'|exact I]. }
  apply triple_ready; [destruct (rc =? 0); [reflexivity|discriminate]|].
  apply (triple_bind _ _ (fun _ => inv at_start_p));
    [apply ABT_eventual_create_keeps|]. intros rc1.
  destruct (negb (rc1 =? ABT_SUCCESS)).
  { apply triple_ret. intros e' [H' _]. split; [exact H'|exact I]. }
  apply (triple_bind _ _ (fun _ => inv any_p)).
  { apply dss_ult_create_to; [|apply agg_process_partial_stripe_ult_keeps].
    intros e' [H' _]. split; [exact H'|exact I]. }
  intros [rc' status].
  destruct (negb (rc' =? 0)); [apply triple_ret; auto|].
  apply (triple_bind _ _ (fun _ => inv any_p));
    [apply ABT_eventual_wait_keeps|]. intros rc2.
  destruct (negb (rc2 =? ABT_SUCCESS)); [apply triple_ret; auto|].
  destruct (negb (status =? 0)); apply triple_ret; auto.
Qed.

(** *** The peer and the holes *)

Lemma agg_peer_update_ult_keeps Q :
  1 < e_p (ae_oca e0) -> keeps Q (agg_peer_update_ult env).
Proof.
  intros Hp. unfold agg_peer_update_ult. apply triple_bind_get. intros e [H Hq].
  destruct (negb (crt_req_create_rc env =? 0)); [apply triple_ret; auto|].
  apply (triple_bind _ _ (fun _ => inv Q)); [apply sg_iov_buf_keeps|].
  intros buf.
  destruct (negb (crt_bulk_create_rc env =? 0)); [apply triple_ret; auto|].
  apply triple_bind_emit; [inv_solve|].
  destruct (negb (dss_rpc_send_rc env =? 0)); apply triple_ret; auto.
Qed.

Lemma agg_peer_update_keeps Q :
  1 < e_p (ae_oca e0) -> keeps Q (agg_peer_update env).
Proof.
  intros Hp. unfold agg_peer_update.
  apply (triple_bind _ _ (fun _ => inv Q)); [apply agg_get_obj_handle_keeps|].
  intros rc. destruct (negb (rc =? 0)); [apply triple_ret; auto|].
  apply (triple_bind _ _ (fun _ => inv Q)); [apply ABT_eventual_create_keeps|].
  intros rc1. destruct (negb (rc1 =? ABT_SUCCESS)); [apply triple_ret; auto|].
  apply (triple_bind _ _ (fun _ => inv Q)).
  { apply dss_ult_create_to; [auto|apply agg_peer_update_ult_keeps; exact Hp]. }
  intros [rc' status].
  destruct (negb (rc' =? 0)); [apply triple_ret; auto|].
  apply (triple_bind _ _ (fun _ => inv Q)); [apply ABT_eventual_wait_keeps|].
  intros rc2. destruct (negb (rc2 =? ABT_SUCCESS)); [apply triple_ret; auto|].
  destruct (negb (status =? 0)); apply triple_ret; auto.
Qed.

Lemma holes_out_keeps {A} Q (a : A) :
  keeps Q (set_sg_nr AGG_IOV_CNT ;;; ret a).
Proof.
  apply (triple_bind _ _ (fun _ => inv Q)); [apply set_sg_nr_keeps|].
  intros u. apply triple_ret. auto.
Qed.

Lemma agg_process_holes_ult_keeps Q :
  as_has_holes (ae_cur_stripe e0) = true -> keeps Q (agg_process_holes_ult env).
Proof.
  intros Hh. unfold agg_process_holes_ult. apply triple_bind_get. intros e [H Hq].
  destruct (negb (alloc_ok env)); [apply holes_out_keeps|].
  destruct (agg_holes_gaps _ _ _ _ _) as [[recxs tot] last].
  destruct (last <? _);
    (apply triple_bind_in_bounds; intros _;
     apply (triple_bind _ _ (fun _ => inv Q)); [apply set_sg_nr_keeps|];
     intros u1;
     apply (triple_bind _ _ (fun _ => inv Q)); [apply set_iov_len_keeps|];
     intros u2;
     apply triple_bind_lift; intros sgl;
     apply triple_bind_emit; [inv_solve|];
     destruct (negb (dsc_obj_fetch_rc env =? 0)); [apply holes_out_keeps|];
     destruct (negb (crt_req_create_rc env =? 0)); [apply holes_out_keeps|];
     destruct (negb (crt_bulk_create_rc env =? 0)); [apply holes_out_keeps|];
     apply triple_bind_emit; [inv_solve|];
     destruct (negb (dss_rpc_send_rc env =? 0)); apply holes_out_keeps).
Qed.

Lemma agg_process_holes_keeps :
  as_has_holes (ae_cur_stripe e0) = true -> keeps any_p (agg_process_holes env).
Proof.
  intros Hh. unfold agg_process_holes.
  apply (triple_bind _ _ (fun _ => inv any_p)); [apply agg_get_obj_handle_keeps|].
  intros rc. destruct (negb (rc =? 0)); [apply triple_ret; auto|].
  apply (triple_bind _ _ (fun _ => inv any_p)).
  { eapply triple_weaken; [| |apply agg_prep_sgl_ready]; [auto|].
    intros rc' e' [H' _]. split; [exact H'|exact I]. }
  intros rc0. destruct (negb (rc0 =? 0)); [apply triple_ret; auto|].
  apply (triple_bind _ _ (fun _ => inv any_p)); [apply ABT_eventual_create_keeps|].
  intros rc1. destruct (negb (rc1 =? ABT_SUCCESS)); [apply triple_ret; auto|].
  apply (triple_bind _ _ (fun _ => inv any_p)).
  { apply dss_ult_create_to; [auto|apply agg_process_holes_ult_keeps; exact Hh]. }
  intros [rc' stripe_ud].
  destruct (negb (rc' =? 0)); [apply holes_out_keeps|].
  apply (triple_bind _ _ (fun _ => inv any_p)); [apply ABT_eventual_wait_keeps|].
  intros rc2. destruct (negb (rc2 =? ABT_SUCCESS)); [apply holes_out_keeps|].
  apply triple_bind_get. intros e [H Hq].
  apply (triple_bind _ _ (fun _ => inv any_p)); [apply set_sg_nr_keeps|].
  intros u1. apply triple_bind_lift. intros sgl.
  apply triple_bind_emit; [inv_solve|].
  destruct (negb (vos_obj_update_rc env =? 0)); [apply holes_out_keeps|].
  apply triple_bind_emit; [inv_solve|]. apply holes_out_keeps.
Qed.

(** *** The reconciler *)

Lemma run_probe_cb_keeps Q entries : forall e e',
  inv Q e -> run_probe_cb entries e = Some e' -> inv Q e'.
Proof.
  induction entries as [|x rest IH]; cbn [run_probe_cb]; intros e e' He H.
  - inversion H; subst. exact He.
  - destruct (agg_recx_iter_pre_cb x e) as [e1|] eqn:Hcb; [|discriminate].
    apply (IH e1 e'); [|exact H].
    unfold agg_recx_iter_pre_cb in Hcb.
    destruct (_ =? _); inversion Hcb; subst. exact He.
Qed.

Lemma agg_process_stripe_decide_keeps :
  triple (inv any_p) (stripe_event e0)
         (fun r e => inv any_p e /\
                     (snd r = true -> as_has_holes (ae_cur_stripe e0) = true))
         (agg_process_stripe_decide env).
Proof.
  assert (Hno : forall (rc : Z) (b : bool) (e : ec_agg_entry),
             inv any_p e ->
             inv any_p e /\
             (snd (rc, b, false) = true ->
              as_has_holes (ae_cur_stripe e0) = true)).
  { intros rc b e He. split; [exact He|]. cbn. discriminate. }
  unfold agg_process_stripe_decide. apply triple_bind_get. intros e [H Hq].
  apply triple_bind_put; [split; [exact H|exact Hq]|].
  apply triple_bind_emit; [inv_solve|].
  apply (triple_bind _ _ (fun _ => inv any_p)).
  { apply triple_update_entry. intros e1 e2. apply run_probe_cb_keeps. }
  intros u. destruct (negb (probe_rc env =? 0)); [apply triple_ret; auto|].
  apply triple_bind_get. intros e1 [H1 Hq1].
  destruct (_ && negb _); [apply triple_ret; auto|].
  destruct (_ || _).
  { apply (triple_bind _ _ (fun _ => inv any_p));
      [apply agg_encode_local_parity_keeps|].
    intros rc. apply triple_ret. auto. }
  destruct (_ =? U64_MAX); [apply triple_ret; auto|].
  destruct (as_has_holes (ae_cur_stripe e1)) eqn:Hholes.
  - apply triple_ret. intros e' He'. split; [exact He'|]. intros _.
    destruct (stripe_inv_fields _ _ H1) as (_ & _ & _ & _ & _ & _ & _ & _ & _ & _ & _ & _ & Hh).
    rewrite <- Hh. exact Hholes.
  - apply (triple_bind _ _ (fun _ => inv any_p));
      [apply agg_process_partial_stripe_keeps|].
    intros rc. apply triple_ret. auto.
Qed.

Lemma agg_clear_extents_cleared e e' :
  stripe_inv e0 e -> agg_clear_extents e = Some e' -> cleared_inv e0 e'.
Proof.
  intros He. unfold agg_clear_extents.
  destruct (agg_clear_extents_loop _ _ _ _ _ _ _)
    as [[[[[ptail prefix] cnt] hole] kept]|]; [|discriminate].
  intros H. inversion H; subst.
  pose proof (stripe_inv_fields _ _ He) as F. decompose [and] F.
  unfold cleared_inv. cbn. repeat split; assumption.
Qed.

Lemma agg_process_stripe_out_keeps rc update_vos process_holes :
  (process_holes = true -> as_has_holes (ae_cur_stripe e0) = true) ->
  triple (inv any_p) (stripe_event e0) (fun _ => cleared_inv e0)
         (agg_process_stripe_out env rc update_vos process_holes).
Proof.
  intros Hflag. unfold agg_process_stripe_out.
  apply (triple_bind _ _ (fun _ => inv any_p)).
  - destruct (process_holes && (rc =? 0)) eqn:Hholes.
    + apply agg_process_holes_keeps. apply Hflag.
      apply andb_true_iff in Hholes. tauto.
    + destruct (update_vos && (rc =? 0)); [|apply triple_ret; auto].
      apply triple_bind_get. intros e [H Hq].
      apply triple_bind_lift. intros sfx.
      apply triple_bind_put; [split; [exact H|exact Hq]|].
      destruct ((rc =? 0) && (e_p (ae_oca e) >? 1)) eqn:Hpeer.
      * apply (triple_bind _ _ (fun _ => inv any_p)).
        { apply agg_peer_update_keeps.
          apply andb_true_iff in Hpeer. destruct Hpeer as [_ Hp].
          destruct (stripe_inv_fields _ _ H) as (Ho & _). rewrite <- Ho.
          apply Z.gtb_lt in Hp. lia. }
        intros rc'. destruct (rc' =? 0);
          [apply agg_update_vos_keeps|apply triple_ret; auto].
      * apply triple_bind_ret. destruct (rc =? 0);
          [apply agg_update_vos_keeps|apply triple_ret; auto].
  - intros rc'.
    apply (triple_bind _ _ (fun _ => cleared_inv e0)).
    + apply triple_update_entry. intros e e' [He _].
      apply agg_clear_extents_cleared. exact He.
    + intros u. apply triple_ret. auto.
Qed.

(** Every run of [agg_process_stripe]: its events are events of the open
    stripe, and when it returns the stripe is reset. *)
Lemma agg_process_stripe_keeps :
  triple (stripe_inv e0) (stripe_event e0) (fun _ => cleared_inv e0)
         (agg_process_stripe env).
Proof.
  apply (triple_weaken (inv any_p) _ _ (fun _ => cleared_inv e0));
    [intros e He; split; [exact He|exact I]|auto|].
  unfold agg_process_stripe.
  eapply triple_bind; [apply agg_process_stripe_decide_keeps|].
  intros [[rc update_vos] process_holes]. cbn [snd].
  apply triple_pre_pure. apply agg_process_stripe_out_keeps.
Qed.

End StripeTriples.

Lemma stripe_inv_refl e : stripe_inv e e.
Proof. reflexivity. Qed.

Lemma new_events_of_extends {A} P w (o : outcome A) :
  extends P w o -> Forall P (new_events w o).
Proof.
  intros (l & Htr & Hl). unfold new_events. rewrite Htr, skipn_app_exact.
  exact Hl.
Qed.

(** Every event of a run of [agg_process_stripe] is an event of the stripe
    that was open when it started. *)
Lemma agg_process_stripe_events env w :
  Forall (stripe_event (w_entry w)) (new_events w (agg_process_stripe env w)).
Proof.
  apply new_events_of_extends.
  apply (agg_process_stripe_keeps env (w_entry w) w (stripe_inv_refl _)).
Qed.

(** X1.  Whatever path [agg_process_stripe] takes, every local store access
    it makes ([vos_obj_fetch], [vos_obj_update], [vos_obj_array_remove]) is
    at the [as_hi_epoch] the stripe had when the call started, and every
    removal covers the epoch range from 0 to that epoch. *)
Theorem agg_process_stripe_store_epochs env w :
  Forall (store_access_at (as_hi_epoch (ae_cur_stripe (w_entry w))))
         (new_events w (agg_process_stripe env w)).
Proof.
  eapply Forall_impl; [|apply agg_process_stripe_events].
  intros ev Hev. destruct ev; cbn in *; auto.
Qed.

(** X2.  [agg_process_stripe] sends a parity-write request only for an
    object class with more than one parity cell, and every such request is
    addressed to the shard below the leader's and carries the entry's keys
    and record size, the stripe number, [as_hi_epoch] as epoch and
    [as_prefix_ext] as [prior_len]. *)
Theorem agg_process_stripe_parity_rpc env w :
  Forall (parity_rpc_of (w_entry w)) (new_events w (agg_process_stripe env w)).
Proof.
  eapply Forall_impl; [|apply agg_process_stripe_events].
  intros ev Hev. destruct ev; cbn in *; auto.
Qed.

(** X3.  [agg_process_stripe] sends a replicate request only for a stripe
    whose [as_has_holes] flag is set, and every such request is addressed to
    the shard below the leader's and carries the entry's keys and record
    size, the stripe number and [as_hi_epoch]. *)
Theorem agg_process_stripe_replicate_rpc env w :
  Forall (replicate_rpc_of (w_entry w))
         (new_events w (agg_process_stripe env w)).
Proof.
  eapply Forall_impl; [|apply agg_process_stripe_events].
  intros ev Hev. destruct ev; cbn in *; auto.
Qed.

(** X4.  Every codec call of [agg_process_stripe] (full encode, recalc,
    incremental update) uses the [k] and [p] of the object class, cells of
    [len * rsize] bytes, and the same parity layout: cell [i] at byte
    [i * cell_bytes] of the parity buffer. *)
Theorem agg_process_stripe_codec_calls env w :
  Forall (codec_call_of (w_entry w)) (new_events w (agg_process_stripe env w)).
Proof.
  eapply Forall_impl; [|apply agg_process_stripe_events].
  intros ev Hev. destruct ev; cbn in *; auto; intuition congruence.
Qed.

(** X5.  When [agg_process_stripe] returns, on any path and with any
    result, the object class, the shard, the keys, the record size and the
    stripe number are the ones it started with, and the epoch and the start
    offset of the open stripe are reset to 0. *)
Theorem agg_process_stripe_resets_stripe env w rc w' :
  agg_process_stripe env w = Ret rc w' ->
  cleared_inv (w_entry w) (w_entry w').
Proof.
  intros Hrun.
  exact (proj2 (agg_process_stripe_keeps env (w_entry w) w (stripe_inv_refl _))
               rc w' Hrun).
Qed.

(** At the spec's scenario S1 (one full stripe, no parity). *)
Lemma agg_process_stripe_resets_stripe_witness :
  let w := after_extents env_ok 4 oca_4_1_8 [data_ie 0 32 10 false] in
  exists w',
    agg_process_stripe env_ok w = Ret 0 w' /\
    cleared_inv (w_entry w) (w_entry w').
Proof.
  intros w.
  assert (H : exists w', agg_process_stripe env_ok w = Ret 0 w')
    by (eexists; vm_compute; reflexivity).
  destruct H as (w' & Hrun). exists w'. split; [exact Hrun|].
  exact (agg_process_stripe_resets_stripe env_ok w 0 w' Hrun).
Defined.

(** ** Extents and stripe boundaries *)

(** X6.  For a non-empty extent that touches at most two stripes,
    [agg_carry_over] returns the number of its records that lie past the
    trailing boundary of the stripe it starts in: [rx_idx + rx_nr] minus that
    boundary when the extent crosses it, and 0 when it does not. *)
Theorem agg_carry_over_tail oca x :
  let ss := e_k oca * e_len oca in
  0 < ss < 2 ^ 32 ->
  wf_extent ss x ->
  agg_carry_over oca x =
  Some (Z.max 0 (rx_idx (ae_recx x) + rx_nr (ae_recx x)
                 - (rx_idx (ae_recx x) / ss + 1) * ss)).
Proof.
  intros ss Hss Hwf. rewrite (agg_carry_over_wf oca x Hss Hwf). fold ss.
  f_equal. destruct (crosses_boundary ss x) eqn:Hc.
  - destruct (crossing_split ss x Hss Hwf Hc) as (Hn & _ & _).
    unfold recs_in_next_stripe in *. lia.
  - destruct Hwf as (Hidx & Hnr & Hend & Hspan).
    unfold crosses_boundary in Hc.
    assert (Hle : (rx_idx (ae_recx x) + rx_nr (ae_recx x) - 1) / ss
                  <= rx_idx (ae_recx x) / ss).
    { destruct (Z.gtb_spec ((rx_idx (ae_recx x) + rx_nr (ae_recx x) - 1) / ss)
                           (rx_idx (ae_recx x) / ss)); [discriminate|lia]. }
    pose proof (div_bounds (rx_idx (ae_recx x) + rx_nr (ae_recx x) - 1) ss
                           ltac:(lia)) as Hq.
    nia.
Qed.

Lemma agg_carry_over_tail_witness :
  agg_carry_over oca_4_1_8 (mk_ext (mk_recx 28 6) 10 false)
  = Some (Z.max 0 (28 + 6 - (28 / (4 * 8) + 1) * (4 * 8))).
Proof.
  apply (agg_carry_over_tail oca_4_1_8 (mk_ext (mk_recx 28 6) 10 false)).
  - vm_compute. split; reflexivity.
  - vm_compute. repeat split; congruence.
Defined.

(** X7.  An extent that reaches into a third stripe fails the assertion of
    [agg_carry_over]. *)
Theorem agg_carry_over_three_stripes oca x :
  let ss := e_k oca * e_len oca in
  0 < ss < 2 ^ 32 ->
  0 <= rx_idx (ae_recx x) ->
  rx_idx (ae_recx x) + rx_nr (ae_recx x) <= 2 ^ 64 ->
  rx_idx (ae_recx x) / ss + 2
    <= (rx_idx (ae_recx x) + rx_nr (ae_recx x) - 1) / ss ->
  agg_carry_over oca x = None.
Proof.
  intros ss Hss Hidx Hend Hspan. unfold agg_carry_over.
  rewrite (obj_ec_stripe_rec_nr_small oca Hss). fold ss.
  set (idx := rx_idx (ae_recx x)) in *. set (nr := rx_nr (ae_recx x)) in *.
  pose proof (div_bounds idx ss ltac:(lia)) as Hq.
  pose proof (div_bounds (idx + nr - 1) ss ltac:(lia)) as Hq'.
  assert (Hpos : 0 <= idx + nr - 1 < 2 ^ 64) by nia.
  unfold udiv. replace (ss =? 0) with false by (symmetry; apply Z.eqb_neq; lia).
  rewrite (u64_small (idx + nr - 1)) by exact Hpos.
  replace ((idx + nr - 1) / ss >? idx / ss) with true
    by (symmetry; apply Z.gtb_lt; lia).
  assert (Hdiff : 2 <= (idx + nr - 1) / ss - idx / ss < 2 ^ 64).
  { split; [lia|].
    assert ((idx + nr - 1) / ss <= idx + nr - 1) by nia.
    assert (0 <= idx / ss) by (apply Z.div_pos; lia). lia. }
  rewrite u64_small by lia.
  replace ((idx + nr - 1) / ss - idx / ss =? 1) with false
    by (symmetry; apply Z.eqb_neq; lia).
  reflexivity.
Qed.

Lemma agg_carry_over_three_stripes_witness :
  agg_carry_over oca_4_1_8 (mk_ext (mk_recx 30 40) 10 false) = None.
Proof.
  apply (agg_carry_over_three_stripes oca_4_1_8 (mk_ext (mk_recx 30 40) 10 false)).
  - vm_compute. split; reflexivity.
  - vm_compute. congruence.
  - vm_compute. congruence.
  - vm_compute. congruence.
Defined.

(** X8.  The part of an extent that [agg_in_stripe] counts into
    [as_stripe_fill] and the tail that [agg_carry_over] carries into the next
    stripe add up to the extent: no record is counted twice or lost. *)
Theorem agg_in_stripe_plus_carry_over entry x :
  let ss := e_k (ae_oca entry) * e_len (ae_oca entry) in
  0 < ss < 2 ^ 32 ->
  wf_extent ss x ->
  rx_idx (ae_recx x) + rx_nr (ae_recx x) < 2 ^ 64 ->
  (rx_idx (ae_recx x) / ss + 1) * ss < 2 ^ 64 ->
  exists n tail,
    agg_in_stripe entry (ae_recx x) = Some n /\
    agg_carry_over (ae_oca entry) x = Some tail /\
    n + tail = rx_nr (ae_recx x) /\
    1 <= n <= ss /\ 0 <= tail <= ss.
Proof.
  intros ss Hss Hwf Hend Hbound.
  rewrite (agg_carry_over_wf (ae_oca entry) x Hss Hwf). fold ss.
  unfold agg_in_stripe, udiv.
  rewrite (Z.mul_comm (e_len (ae_oca entry)) (e_k (ae_oca entry))).
  fold ss. rewrite (u32_small ss) by lia.
  replace (ss =? 0) with false by (symmetry; apply Z.eqb_neq; lia).
  rewrite u64_mul_l.
  replace ((rx_idx (ae_recx x) / ss + 1) * e_len (ae_oca entry)
           * e_k (ae_oca entry))
    with ((rx_idx (ae_recx x) / ss + 1) * ss) by (unfold ss; ring).
  pose proof Hwf as (Hidx & Hnr & _ & Hspan).
  pose proof (div_bounds (rx_idx (ae_recx x)) ss ltac:(lia)) as Hq.
  assert (0 <= rx_idx (ae_recx x) / ss) by (apply Z.div_pos; lia).
  rewrite (u64_small ((rx_idx (ae_recx x) / ss + 1) * ss)) by nia.
  rewrite (u64_small (rx_idx (ae_recx x) + rx_nr (ae_recx x))) by lia.
  destruct (crosses_boundary ss x) eqn:Hc.
  - destruct (crossing_split ss x Hss Hwf Hc) as (Hn & Hs & Heq).
    unfold recs_in_next_stripe, recs_in_start_stripe in *.
    replace (rx_idx (ae_recx x) + rx_nr (ae_recx x)
             >? (rx_idx (ae_recx x) / ss + 1) * ss) with true
      by (symmetry; apply Z.gtb_lt; lia).
    rewrite u64_small by lia.
    eexists. eexists. split; [reflexivity|]. split; [reflexivity|]. lia.
  - unfold crosses_boundary in Hc.
    assert (Hle : (rx_idx (ae_recx x) + rx_nr (ae_recx x) - 1) / ss
                  <= rx_idx (ae_recx x) / ss).
    { destruct (Z.gtb_spec ((rx_idx (ae_recx x) + rx_nr (ae_recx x) - 1) / ss)
                           (rx_idx (ae_recx x) / ss)); [discriminate|lia]. }
    pose proof (div_bounds (rx_idx (ae_recx x) + rx_nr (ae_recx x) - 1) ss
                           ltac:(lia)) as Hq'.
    replace (rx_idx (ae_recx x) + rx_nr (ae_recx x)
             >? (rx_idx (ae_recx x) / ss + 1) * ss) with false
      by (symmetry; rewrite Z.gtb_ltb; apply Z.ltb_ge; nia).
    eexists. eexists. split; [reflexivity|]. split; [reflexivity|]. nia.
Qed.

Lemma agg_in_stripe_plus_carry_over_witness :
  exists n tail,
    agg_in_stripe (fresh_entry 4 oca_4_1_8) (mk_recx 28 6) = Some n /\
    agg_carry_over oca_4_1_8 (mk_ext (mk_recx 28 6) 10 false) = Some tail /\
    n + tail = 6 /\ 1 <= n <= 4 * 8 /\ 0 <= tail <= 4 * 8.
Proof.
  apply (agg_in_stripe_plus_carry_over (fresh_entry 4 oca_4_1_8)
           (mk_ext (mk_recx 28 6) 10 false)).
  - vm_compute. split; reflexivity.
  - vm_compute. repeat split; congruence.
  - vm_compute. reflexivity.
  - vm_compute. reflexivity.
Defined.

(** ** Clearing the processed stripe *)

(** Once an extent was carried over, the loop of [agg_clear_extents] keeps
    the prefix it recorded, or fails on a second carry-over. *)
Lemma agg_clear_extents_loop_prefix_kept oca l :
  forall ptail prefix cnt hole kept ptail' prefix' cnt' hole' kept',
    ptail <> 0 ->
    agg_clear_extents_loop oca l ptail prefix cnt hole kept
      = Some (ptail', prefix', cnt', hole', kept') ->
    prefix' = prefix.
Proof.
  induction l as [|x rest IH]; intros ptail prefix cnt hole kept
    ptail' prefix' cnt' hole' kept' Hpt H.
  - cbn in H. inversion H; subst. reflexivity.
  - cbn [agg_clear_extents_loop] in H.
    destruct (agg_carry_over oca x) as [tail|]; [|discriminate].
    destruct (negb (tail =? 0)).
    + replace (ptail =? 0) with false in H
        by (symmetry; apply Z.eqb_neq; exact Hpt).
      discriminate H.
    + exact (IH _ _ _ _ _ _ _ _ _ _ Hpt H).
Qed.

Lemma agg_clear_extents_loop_prefix oca l :
  forall cnt hole kept ptail' prefix' cnt' hole' kept' sfx,
    agg_clear_extents_loop oca l 0 0 cnt hole kept
      = Some (ptail', prefix', cnt', hole', kept') ->
    agg_get_carry_under_loop oca l = Some sfx ->
    prefix' = sfx.
Proof.
  induction l as [|x rest IH]; intros cnt hole kept
    ptail' prefix' cnt' hole' kept' sfx H Hunder.
  - cbn in H, Hunder. inversion H; inversion Hunder; subst. reflexivity.
  - cbn [agg_clear_extents_loop] in H.
    cbn [agg_get_carry_under_loop] in Hunder.
    destruct (agg_carry_over oca x) as [tail|]; [|discriminate].
    destruct (tail =? 0) eqn:Htail; cbn [negb] in H, Hunder.
    + exact (IH _ _ _ _ _ _ _ _ _ H Hunder).
    + cbn [Z.eqb] in H. inversion Hunder; subst.
      apply Z.eqb_neq in Htail.
      exact (agg_clear_extents_loop_prefix_kept _ _ _ _ _ _ _ _ _ _ _ _ Htail H).
Qed.

(** X9.  What one commit retains the next one removes: the value
    [agg_get_carry_under] gives for [as_suffix_ext] before the commit is the
    value [agg_clear_extents] leaves in [as_prefix_ext] for the next
    stripe. *)
Theorem agg_clear_extents_prefix_is_carry_under entry entry' sfx :
  agg_get_carry_under entry = Some sfx ->
  agg_clear_extents entry = Some entry' ->
  as_prefix_ext (ae_cur_stripe entry') = sfx.
Proof.
  unfold agg_get_carry_under, agg_clear_extents. intros Hunder H.
  destruct (agg_clear_extents_loop (ae_oca entry)
              (as_dextents (ae_cur_stripe entry)) 0 0
              (as_extent_cnt (ae_cur_stripe entry)) false [])
    as [[[[[ptail prefix] cnt] hole] kept]|] eqn:Hloop; [|discriminate].
  inversion H; subst. cbn.
  exact (agg_clear_extents_loop_prefix _ _ _ _ _ _ _ _ _ _ _ Hloop Hunder).
Qed.

Lemma agg_clear_extents_prefix_is_carry_under_witness :
  let entry :=
    with_stripe
      (mk_stripe 0 10 [mk_ext (mk_recx 0 28) 10 false;
                       mk_ext (mk_recx 28 6) 10 false] 32 2 0 0 0 false)
      (fresh_entry 4 oca_4_1_8) in
  exists entry',
    agg_clear_extents entry = Some entry' /\
    as_prefix_ext (ae_cur_stripe entry') = 4.
Proof.
  intros entry.
  assert (H : exists entry', agg_clear_extents entry = Some entry')
    by (eexists; vm_compute; reflexivity).
  destruct H as (entry' & H). exists entry'. split; [exact H|].
  apply (agg_clear_extents_prefix_is_carry_under entry entry' 4);
    [vm_compute; reflexivity|exact H].
Defined.

Lemma find_none_of_filter {A} (f : A -> bool) (l : list A) :
  length (filter f l) = 0%nat -> find f l = None.
Proof.
  induction l as [|a l IH]; cbn; [reflexivity|].
  destruct (f a); cbn; [discriminate|exact IH].
Qed.

(** The loop of [agg_clear_extents] on well-formed extents of which at most
    one crosses the boundary (none if one was carried over already). *)
Lemma agg_clear_extents_loop_result oca l :
  let ss := e_k oca * e_len oca in
  0 < ss < 2 ^ 32 ->
  Forall (wf_extent ss) l ->
  forall ptail prefix cnt hole kept,
    0 <= cnt < 2 ^ 32 ->
    (length (filter (crosses_boundary ss) l)
       <= (if (ptail =? 0)%Z then 1 else 0))%nat ->
    agg_clear_extents_loop oca l ptail prefix cnt hole kept =
    Some (match find (crosses_boundary ss) l with
          | Some x => recs_in_next_stripe ss x
          | None => ptail
          end,
          match find (crosses_boundary ss) l with
          | Some x => recs_in_start_stripe ss x
          | None => prefix
          end,
          u32 (cnt - Z.of_nat
                       (length (filter (fun x => negb (crosses_boundary ss x)) l))),
          hole || existsb ae_hole l,
          kept ++ map (trim_to_next_stripe ss) (filter (crosses_boundary ss) l)).
Proof.
  intros ss Hss Hwf.
  induction Hwf as [|x l Hx Hl IH]; intros ptail prefix cnt hole kept Hcnt Hlen.
  - cbn. rewrite Z.sub_0_r, orb_false_r, app_nil_r, (u32_small cnt Hcnt).
    reflexivity.
  - cbn [agg_clear_extents_loop].
    rewrite (agg_carry_over_wf oca x Hss Hx). fold ss.
    cbn [filter find existsb] in *.
    destruct (crosses_boundary ss x) eqn:Hc; cbn [negb length] in *.
    + destruct (crossing_split ss x Hss Hx Hc) as (Hn & Hs & Heq).
      assert (Htail : (recs_in_next_stripe ss x =? 0) = false)
        by (apply Z.eqb_neq; lia).
      rewrite Htail. cbn [negb].
      destruct (ptail =? 0); [|lia].
      rewrite (IH (recs_in_next_stripe ss x) _ cnt _ _ Hcnt)
        by (rewrite Htail; lia).
      rewrite (find_none_of_filter (crosses_boundary ss) l) by lia.
      rewrite Heq.
      rewrite (u64_small (recs_in_start_stripe ss x)) by lia.
      rewrite (u32_small (recs_in_start_stripe ss x)) by lia.
      rewrite <- app_assoc. cbn [app map].
      replace (mk_ext _ (ae_epoch x) (ae_hole x)) with (trim_to_next_stripe ss x).
      2:{ unfold trim_to_next_stripe. f_equal. f_equal.
          destruct Hx as (Hidx & Hnr & Hend & Hspan).
          unfold recs_in_start_stripe, recs_in_next_stripe in *.
          rewrite u64_small by lia. lia. }
      f_equal. f_equal. destruct (ae_hole x), hole; reflexivity.
    + cbn [Z.eqb negb].
      rewrite (IH ptail prefix (u32 (cnt - 1)) _ _ (u32_range _) Hlen).
      rewrite u32_sub_l.
      replace ((if ae_hole x then true else hole) || existsb ae_hole l)
        with (hole || (ae_hole x || existsb ae_hole l))
        by (destruct (ae_hole x), hole; reflexivity).
      rewrite Nat2Z.inj_succ.
      replace (cnt - 1 - Z.of_nat (length (filter (fun x0 => negb (crosses_boundary ss x0)) l)))
        with (cnt - Z.succ (Z.of_nat (length (filter (fun x0 => negb (crosses_boundary ss x0)) l))))
        by lia.
      reflexivity.
Qed.

Lemma filter_negb_length {A} (f : A -> bool) (l : list A) :
  length (filter (fun x => negb (f x)) l)
  = (length l - length (filter f l))%nat.
Proof.
  induction l as [|x l IH]; [reflexivity|].
  pose proof (filter_length_le f l) as Hle.
  cbn [filter]. destruct (f x); cbn [negb length]; lia.
Qed.

(** X10.  On a list of well-formed extents of which at most one crosses the
    trailing stripe boundary, [agg_clear_extents] keeps exactly that extent,
    cut down to its tail (it now starts on the boundary and keeps its end,
    epoch and hole flag), seeds [as_stripe_fill] with the tail length and
    [as_prefix_ext] with the length of the part cut off, takes every other
    extent off the count, and resets the epoch and the offset. *)
Theorem agg_clear_extents_result entry :
  let ss := e_k (ae_oca entry) * e_len (ae_oca entry) in
  let s := ae_cur_stripe entry in
  let crossing := filter (crosses_boundary ss) (as_dextents s) in
  0 < ss < 2 ^ 32 ->
  Forall (wf_extent ss) (as_dextents s) ->
  (length crossing <= 1)%nat ->
  0 <= as_extent_cnt s < 2 ^ 32 ->
  agg_clear_extents entry =
  Some (with_stripe
          (mk_stripe (as_stripenum s) 0
             (map (trim_to_next_stripe ss) crossing)
             (match find (crosses_boundary ss) (as_dextents s) with
              | Some x => recs_in_next_stripe ss x
              | None => 0
              end)
             (u32 (as_extent_cnt s
                   - Z.of_nat (length (as_dextents s) - length crossing)))
             0
             (match find (crosses_boundary ss) (as_dextents s) with
              | Some x => recs_in_start_stripe ss x
              | None => 0
              end)
             (as_suffix_ext s)
             (existsb ae_hole (as_dextents s)))
          entry).
Proof.
  intros ss s crossing Hss Hwf Hlen Hcnt. unfold agg_clear_extents. fold s.
  rewrite (agg_clear_extents_loop_result (ae_oca entry) (as_dextents s)
             Hss Hwf 0 0 (as_extent_cnt s) false [] Hcnt Hlen).
  subst crossing s ss. cbn [orb app].
  rewrite filter_negb_length.
  destruct (existsb ae_hole (as_dextents (ae_cur_stripe entry))); reflexivity.
Qed.

Lemma agg_clear_extents_result_witness :
  let entry :=
    with_stripe
      (mk_stripe 0 10 [mk_ext (mk_recx 0 4) 10 true;
                       mk_ext (mk_recx 4 26) 10 false;
                       mk_ext (mk_recx 30 4) 11 false] 28 3 0 0 0 true)
      (fresh_entry 4 oca_4_1_8) in
  agg_clear_extents entry =
  Some (with_stripe
          (mk_stripe 0 0 [mk_ext (mk_recx 32 2) 11 false] 2 1 0 2 0 true)
          entry).
Proof.
  intros entry.
  apply (agg_clear_extents_result entry).
  - vm_compute. split; reflexivity.
  - repeat constructor; vm_compute; congruence.
  - vm_compute. repeat constructor.
  - vm_compute. split; congruence.
Defined.

Lemma agg_clear_extents_loop_two_crossings oca l :
  let ss := e_k oca * e_len oca in
  0 < ss < 2 ^ 32 ->
  Forall (wf_extent ss) l ->
  forall ptail prefix cnt hole kept,
    ((if (ptail =? 0)%Z then 1 else 0)
       < length (filter (crosses_boundary ss) l))%nat ->
    agg_clear_extents_loop oca l ptail prefix cnt hole kept = None.
Proof.
  intros ss Hss Hwf.
  induction Hwf as [|x l Hx Hl IH]; intros ptail prefix cnt hole kept Hlen.
  - cbn in Hlen. destruct (ptail =? 0); lia.
  - cbn [agg_clear_extents_loop].
    rewrite (agg_carry_over_wf oca x Hss Hx). fold ss.
    cbn [filter] in Hlen.
    destruct (crosses_boundary ss x) eqn:Hc; cbn [length] in Hlen.
    + destruct (crossing_split ss x Hss Hx Hc) as (Hn & _ & _).
      assert (Htail : (recs_in_next_stripe ss x =? 0) = false)
        by (apply Z.eqb_neq; lia).
      rewrite Htail. cbn [negb].
      destruct (ptail =? 0); [|reflexivity].
      apply IH. rewrite Htail. lia.
    + cbn [Z.eqb negb]. apply IH. exact Hlen.
Qed.

(** X11.  When two well-formed extents of the list both cross the trailing
    stripe boundary, [agg_clear_extents] fails its assertion: a second
    carry-over is fatal. *)
Theorem agg_clear_extents_two_crossings entry :
  let ss := e_k (ae_oca entry) * e_len (ae_oca entry) in
  0 < ss < 2 ^ 32 ->
  Forall (wf_extent ss) (as_dextents (ae_cur_stripe entry)) ->
  (2 <= length (filter (crosses_boundary ss)
                       (as_dextents (ae_cur_stripe entry))))%nat ->
  agg_clear_extents entry = None.
Proof.
  intros ss Hss Hwf Hlen. unfold agg_clear_extents.
  rewrite (agg_clear_extents_loop_two_crossings (ae_oca entry) _ Hss Hwf);
    [reflexivity|].
  cbn [Z.eqb]. exact Hlen.
Qed.

Lemma agg_clear_extents_two_crossings_witness :
  agg_clear_extents
    (with_stripe
       (mk_stripe 0 10 [mk_ext (mk_recx 20 14) 10 false;
                        mk_ext (mk_recx 30 4) 11 false] 14 2 20 0 0 false)
       (fresh_entry 4 oca_4_1_8))
  = None.
Proof.
  apply agg_clear_extents_two_crossings.
  - vm_compute. split; reflexivity.
  - repeat constructor; vm_compute; congruence.
  - vm_compute. repeat constructor.
Defined.

(** ** Cells *)

(** X12.  When nothing overflows, [agg_overlap] is true exactly when the
    extent and the cell have a record in common. *)
Theorem agg_overlap_intersects recx cell k len stripenum :
  let cell_start := stripenum * k * len + cell * len in
  0 <= k * len < 2 ^ 32 ->
  0 <= len * cell < 2 ^ 32 ->
  0 <= stripenum ->
  1 <= len ->
  cell_start + len < 2 ^ 64 ->
  0 <= rx_idx recx ->
  1 <= rx_nr recx ->
  rx_idx recx + rx_nr recx < 2 ^ 64 ->
  agg_overlap recx cell k len stripenum = true <->
  (rx_idx recx < cell_start + len /\ cell_start < rx_idx recx + rx_nr recx).
Proof.
  intros cell_start Hkl Hlc Hsn Hlen Hcs Hidx Hnr Hend.
  unfold agg_overlap.
  rewrite (u32_small (k * len)) by exact Hkl.
  rewrite (u32_small (len * cell)) by exact Hlc.
  assert (Hprod : 0 <= k * len * stripenum) by (apply Z.mul_nonneg_nonneg; lia).
  assert (Hcs' : k * len * stripenum + len * cell = cell_start)
    by (unfold cell_start; ring).
  rewrite (u64_small (k * len * stripenum)) by lia.
  rewrite Hcs'.
  rewrite (u64_small cell_start) by lia.
  rewrite (u64_small (cell_start + len)) by lia.
  rewrite (u64_small (rx_idx recx + rx_nr recx)) by lia.
  destruct (Z.leb_spec cell_start (rx_idx recx));
    destruct (Z.ltb_spec (rx_idx recx) (cell_start + len));
    destruct (Z.leb_spec (rx_idx recx) cell_start);
    destruct (Z.ltb_spec cell_start (rx_idx recx + rx_nr recx));
    cbn; split; intros H'; try discriminate H'; try reflexivity; try lia.
Qed.

Lemma agg_overlap_intersects_witness :
  agg_overlap (mk_recx 38 4) 1 4 8 1 = true <->
  (38 < 1 * 4 * 8 + 1 * 8 + 8 /\ 1 * 4 * 8 + 1 * 8 < 38 + 4).
Proof.
  apply (agg_overlap_intersects (mk_recx 38 4) 1 4 8 1);
    vm_compute; try split; congruence.
Defined.

Lemma in_upto (k i : Z) : In i (upto k) -> 0 <= i < k.
Proof.
  unfold upto. intros H. apply in_map_iff in H. destruct H as (n & <- & Hn).
  apply in_seq in Hn. lia.
Qed.

Lemma u32_neg (x : Z) : - 2 ^ 32 <= x < 0 -> u32 x = x + 2 ^ 32.
Proof.
  intros H. unfold u32. symmetry.
  apply (Z.mod_unique_pos x (2 ^ 32) (-1)); lia.
Qed.

Lemma u32_wrap (x : Z) : 2 ^ 32 <= x < 2 * 2 ^ 32 -> u32 x = x - 2 ^ 32.
Proof.
  intros H. unfold u32. symmetry.
  apply (Z.mod_unique_pos x (2 ^ 32) 1); lia.
Qed.

(** The test in the loop of [agg_full_cells], for a cell inside the stripe. *)
Lemma agg_full_cells_test estart elen k len i :
  1 <= len -> k * len < 2 ^ 32 ->
  0 <= estart < 2 ^ 32 -> 0 <= elen < 2 ^ 32 ->
  0 <= i < k ->
  (u32 (i * len) >=? estart) &&
  (u32 (u32 (estart - u32 (i * len)) + elen) >=? len)
  = full_cell_test estart elen len i.
Proof.
  intros Hlen Hkl Hes Hel Hi. unfold full_cell_test.
  assert (Ha : 0 <= i * len /\ i * len + len <= k * len) by nia.
  rewrite (u32_small (i * len)) by lia.
  rewrite Z.geb_leb.
  destruct (Z.leb_spec estart (i * len)) as [Hge|Hlt]; [|reflexivity].
  cbn [andb]. rewrite Z.geb_leb.
  destruct (Z.eq_dec estart (i * len)) as [Heq|Hne].
  - rewrite Heq, Z.sub_diag. rewrite (u32_small 0) by lia.
    rewrite Z.add_0_l, (u32_small elen) by lia.
    destruct (Z.leb_spec len elen); destruct (Z.leb_spec (i * len + len) (i * len + elen));
      destruct (Z.ltb_spec (i * len + elen) (i * len)); cbn; try reflexivity; lia.
  - rewrite (u32_neg (estart - i * len)) by lia.
    destruct (Z_lt_le_dec elen (i * len - estart)) as [Hshort|Hlong].
    + rewrite (u32_small (estart - i * len + 2 ^ 32 + elen)) by lia.
      destruct (Z.leb_spec len (estart - i * len + 2 ^ 32 + elen));
        destruct (Z.leb_spec (i * len + len) (estart + elen));
        destruct (Z.ltb_spec (estart + elen) (i * len)); cbn; try reflexivity; lia.
    + rewrite (u32_wrap (estart - i * len + 2 ^ 32 + elen)) by lia.
      destruct (Z.leb_spec len (estart - i * len + 2 ^ 32 + elen - 2 ^ 32));
        destruct (Z.leb_spec (i * len + len) (estart + elen));
        destruct (Z.ltb_spec (estart + elen) (i * len)); cbn; try reflexivity; lia.
Qed.

Lemma agg_full_cells_fold estart elen k len :
  1 <= len -> k * len < 2 ^ 32 ->
  0 <= estart < 2 ^ 32 -> 0 <= elen < 2 ^ 32 ->
  forall l bit_map cnt,
    (forall i, In i l -> 0 <= i < k) ->
    0 <= cnt -> cnt + Z.of_nat (length l) < 2 ^ 32 ->
    fold_left
      (fun acc i =>
         let '(bm, cell_cnt) := acc in
         if (u32 (i * len) >=? estart) &&
            (u32 (u32 (estart - u32 (i * len)) + elen) >=? len)
         then (setbit bm i, u32 (cell_cnt + 1))
         else (bm, cell_cnt))
      l (bit_map, cnt)
    = (fold_left setbit (filter (full_cell_test estart elen len) l) bit_map,
       cnt + Z.of_nat (length (filter (full_cell_test estart elen len) l))).
Proof.
  intros Hlen Hkl Hes Hel.
  induction l as [|i l IH]; intros bit_map cnt Hin Hcnt Hbound.
  - cbn. rewrite Z.add_0_r. reflexivity.
  - cbn [fold_left filter].
    rewrite (agg_full_cells_test estart elen k len i Hlen Hkl Hes Hel)
      by (apply Hin; left; reflexivity).
    cbn [length] in Hbound. rewrite Nat2Z.inj_succ in Hbound.
    destruct (full_cell_test estart elen len i).
    + rewrite (u32_small (cnt + 1)) by lia.
      rewrite IH; [|intros j Hj; apply Hin; right; exact Hj|lia|lia].
      cbn [fold_left length]. rewrite Nat2Z.inj_succ. f_equal. lia.
    + apply IH; [intros j Hj; apply Hin; right; exact Hj|lia|lia].
Qed.

(** X13.  Within the 32-bit range, [agg_full_cells] sets the bit of, and
    counts, every cell [i < k] that starts at or after [estart] and either
    ends within [[estart, estart + elen)] or starts after [estart + elen];
    it sets no other bit. *)
Theorem agg_full_cells_cells bit_map estart elen k len :
  0 <= k -> 1 <= len -> k * len < 2 ^ 32 ->
  0 <= estart < 2 ^ 32 -> 0 <= elen < 2 ^ 32 ->
  agg_full_cells bit_map estart elen k len =
  (fold_left setbit (filter (full_cell_test estart elen len) (upto k)) bit_map,
   Z.of_nat (length (filter (full_cell_test estart elen len) (upto k)))).
Proof.
  intros Hk Hlen Hkl Hes Hel. unfold agg_full_cells.
  rewrite (agg_full_cells_fold estart elen k len Hlen Hkl Hes Hel (upto k)
             bit_map 0 (in_upto k)); [reflexivity|lia|].
  unfold upto. rewrite length_map, length_seq, Z2Nat.id by lia. nia.
Qed.

(** At the run [[8, 16)] of the class [k = 4], [len = 8]: cell 1 lies in
    the run, cell 3 starts after its end, and both are taken. *)
Lemma agg_full_cells_cells_witness :
  agg_full_cells 0 8 8 4 8 =
  (fold_left setbit (filter (full_cell_test 8 8 8) (upto 4)) 0,
   Z.of_nat (length (filter (full_cell_test 8 8 8) (upto 4)))).
Proof.
  apply (agg_full_cells_cells 0 8 8 4 8); vm_compute; try split; congruence.
Defined.

(** ** The cell bitmap *)

Lemma bits_below_0 k : bits_below k 0.
Proof. intros i H. rewrite Z.bits_0 in H. discriminate H. Qed.

Lemma bits_below_setbit k bm i :
  0 <= i < k -> bits_below k bm -> bits_below k (setbit bm i).
Proof.
  intros Hi Hbm j Hj. unfold setbit in Hj.
  destruct (Z_lt_le_dec j 0) as [Hneg|Hpos].
  - rewrite Z.testbit_neg_r in Hj by exact Hneg. discriminate Hj.
  - rewrite Z.setbit_eqb in Hj by lia.
    apply orb_true_iff in Hj. destruct Hj as [Heq|Hold].
    + apply Z.eqb_eq in Heq. lia.
    + exact (Hbm j Hold).
Qed.

Lemma bits_below_clrbit k bm i :
  bits_below k bm -> bits_below k (clrbit bm i).
Proof.
  intros Hbm j Hj. unfold clrbit in Hj.
  rewrite Z.clearbit_eqb in Hj. apply andb_true_iff in Hj.
  exact (Hbm j (proj1 Hj)).
Qed.

Lemma bits_below_agg_full_cells_fold k estart elen len l :
  (forall i, In i l -> 0 <= i < k) ->
  forall acc,
    bits_below k (fst acc) ->
    bits_below k
      (fst (fold_left
              (fun acc i =>
                 let '(bm, cell_cnt) := acc in
                 if (u32 (i * len) >=? estart) &&
                    (u32 (u32 (estart - u32 (i * len)) + elen) >=? len)
                 then (setbit bm i, u32 (cell_cnt + 1))
                 else (bm, cell_cnt))
              l acc)).
Proof.
  induction l as [|i l IH]; intros Hin [bm cnt] Hbm; [exact Hbm|].
  cbn [fold_left].
  destruct ((u32 (i * len) >=? estart) &&
            (u32 (u32 (estart - u32 (i * len)) + elen) >=? len)).
  - apply IH; [intros j Hj; apply Hin; right; exact Hj|].
    apply bits_below_setbit; [apply Hin; left; reflexivity|exact Hbm].
  - apply IH; [intros j Hj; apply Hin; right; exact Hj|exact Hbm].
Qed.

Lemma bits_below_agg_full_cells k bm estart elen len :
  bits_below k bm ->
  bits_below k (fst (agg_full_cells bm estart elen k len)).
Proof.
  intros Hbm. unfold agg_full_cells.
  apply bits_below_agg_full_cells_fold; [apply in_upto|exact Hbm].
Qed.

Lemma bits_below_coalesce k len l :
  forall bm cnt estart elen bm' cnt' estart' elen',
    bits_below k bm ->
    agg_partial_coalesce l k len bm cnt estart elen
      = Some (bm', cnt', estart', elen') ->
    bits_below k bm'.
Proof.
  induction l as [|x l IH]; intros bm cnt estart elen bm' cnt' estart' elen' Hbm H.
  - cbn in H. inversion H; subst. exact Hbm.
  - cbn [agg_partial_coalesce] in H.
    destruct (ae_hole x); [discriminate|].
    destruct (estart =? rx_idx (ae_recx x)); [exact (IH _ _ _ _ _ _ _ _ Hbm H)|].
    destruct (rx_idx (ae_recx x) >? elen); [|exact (IH _ _ _ _ _ _ _ _ Hbm H)].
    pose proof (bits_below_agg_full_cells k bm estart elen len Hbm) as Hfull.
    destruct (agg_full_cells bm estart elen k len) as [bm1 n].
    exact (IH _ _ _ _ _ _ _ _ Hfull H).
Qed.

Lemma u32_le (x : Z) : 0 <= x -> 0 <= u32 x <= x.
Proof.
  intros H. unfold u32. split; [apply Z.mod_pos_bound; lia|].
  apply Z.mod_le; lia.
Qed.

Lemma overlap_cell_bounds k len stripenum i l :
  0 <= i < k ->
  forall bm cnt bm' cnt',
    bits_below k bm -> 0 <= cnt < k ->
    agg_partial_overlap_cell l i k len stripenum bm cnt = Some (bm', cnt') ->
    bits_below k bm' /\ 0 <= cnt' <= k.
Proof.
  intros Hi. induction l as [|x l IH]; intros bm cnt bm' cnt' Hbm Hcnt H.
  - cbn in H. inversion H; subst. split; [exact Hbm|lia].
  - cbn [agg_partial_overlap_cell] in H.
    destruct (ae_hole x); [discriminate|].
    pose proof (u32_le (cnt + 1) ltac:(lia)) as Hn.
    destruct (agg_overlap (ae_recx x) i k len stripenum).
    + destruct (u32 (cnt + 1) =? k) eqn:Hk.
      * inversion H; subst. split; [|lia].
        apply bits_below_setbit; assumption.
      * apply Z.eqb_neq in Hk.
        apply (IH (setbit bm i) (u32 (cnt + 1))); [|lia|exact H].
        apply bits_below_setbit; assumption.
    + destruct (cnt =? k) eqn:Hk.
      * inversion H; subst. split; [exact Hbm|lia].
      * exact (IH bm cnt bm' cnt' Hbm Hcnt H).
Qed.

Lemma overlap_bounds k len stripenum l idxs :
  (forall i, In i idxs -> 0 <= i < k) ->
  forall bm cnt bm' cnt',
    bits_below k bm -> 0 <= cnt <= k ->
    agg_partial_overlap idxs l k len stripenum bm cnt = Some (bm', cnt') ->
    bits_below k bm' /\ 0 <= cnt' <= k.
Proof.
  induction idxs as [|i rest IH]; intros Hin bm cnt bm' cnt' Hbm Hcnt H.
  - cbn in H. inversion H; subst. split; assumption.
  - cbn [agg_partial_overlap] in H.
    destruct (Z.ltb_spec cnt k) as [Hlt|Hge].
    + destruct (agg_partial_overlap_cell l i k len stripenum bm cnt)
        as [[bm1 n1]|] eqn:Hcell; [|discriminate].
      destruct (overlap_cell_bounds k len stripenum i l
                  (Hin i (or_introl eq_refl)) bm cnt bm1 n1 Hbm
                  ltac:(lia) Hcell) as [Hbm1 Hn1].
      apply (IH (fun j Hj => Hin j (or_intror Hj)) bm1 n1); assumption.
    + inversion H; subst. split; assumption.
Qed.

Lemma bits_below_fold_clrbit k l : forall bm,
  bits_below k bm -> bits_below k (fold_left clrbit l bm).
Proof.
  induction l as [|i l IH]; intros bm Hbm; [exact Hbm|].
  cbn [fold_left]. apply IH. apply bits_below_clrbit. exact Hbm.
Qed.

(** X14.  Whatever the extents, the bitmap chosen by
    [agg_process_partial_stripe] names only cells of the stripe (bits below
    [k]); the recalc strategy comes with a count above [k/2], and the update
    strategy with a count of at most [k]. *)
Theorem agg_partial_strategy_bounds entry asu_recalc bit_map cell_cnt :
  0 <= e_k (ae_oca entry) ->
  agg_partial_strategy entry = Some (asu_recalc, bit_map, cell_cnt) ->
  bits_below (e_k (ae_oca entry)) bit_map /\
  (asu_recalc = true -> e_k (ae_oca entry) / 2 < cell_cnt) /\
  (asu_recalc = false -> 0 <= cell_cnt <= e_k (ae_oca entry)).
Proof.
  intros Hk. unfold agg_partial_strategy.
  set (k := e_k (ae_oca entry)) in *. set (len := e_len (ae_oca entry)).
  destruct (agg_partial_coalesce _ k len 0 0 _ 0)
    as [[[[bm cnt] estart] elen]|] eqn:Hco; [|discriminate].
  pose proof (bits_below_coalesce k len _ _ _ _ _ _ _ _ _
                (bits_below_0 k) Hco) as Hbm.
  pose proof (bits_below_agg_full_cells k bm estart elen len Hbm) as Hfull.
  destruct (agg_full_cells bm estart elen k len) as [bm1 n]. cbn [fst] in Hfull.
  destruct (Z.gtb_spec (u32 (cnt + n)) (k / 2)) as [Hgt|Hle].
  - intros H. inversion H; subst. split; [exact Hfull|]. split; [lia|discriminate].
  - destruct (agg_partial_overlap (upto k) _ k len _ (fold_left clrbit (upto k) bm1) 0)
      as [[bm2 n2]|] eqn:Hov; [|discriminate].
    intros H. inversion H; subst.
    destruct (overlap_bounds k len _ _ (upto k) (in_upto k) _ 0 bit_map cell_cnt
                (bits_below_fold_clrbit k (upto k) bm1 Hfull) ltac:(lia) Hov)
      as [Hb Hc].
    split; [exact Hb|]. split; [discriminate|]. intros _. exact Hc.
Qed.

Lemma agg_partial_strategy_bounds_witness :
  let w :=
    after_extents env_ok 4 oca_4_1_8
      [data_ie 16 4 12 false; data_ie 20 12 12 false] in
  agg_partial_strategy (w_entry w) = Some (false, bitmap_of [2; 3], 3) /\
  bits_below 4 (bitmap_of [2; 3]) /\
  (false = true -> 4 / 2 < 3) /\ (false = false -> 0 <= 3 <= 4).
Proof.
  intros w.
  assert (H : agg_partial_strategy (w_entry w) = Some (false, bitmap_of [2; 3], 3))
    by (vm_compute; reflexivity).
  split; [exact H|].
  apply (agg_partial_strategy_bounds (w_entry w) false (bitmap_of [2; 3]) 3);
    [vm_compute; congruence|exact H].
Defined.

(** ** The incremental update *)

Lemma next_set_bit_in bit_map j j' :
  next_set_bit bit_map j = Some j' ->
  isset bit_map j' = true /\ j <= j' <= Z.log2 bit_map.
Proof.
  unfold next_set_bit. intros H. apply find_some in H. destruct H as [Hin Hset].
  split; [exact Hset|].
  apply in_map_iff in Hin. destruct Hin as (n & <- & Hn).
  apply in_upto in Hn. lia.
Qed.

Lemma next_set_bit_fixed bit_map j :
  next_set_bit bit_map 0 = Some j -> next_set_bit bit_map j = Some j.
Proof.
  intros H. apply next_set_bit_in in H. destruct H as [Hset Hj].
  unfold next_set_bit, upto.
  destruct (Z.to_nat (Z.log2 bit_map + 1 - j)) as [|n] eqn:Hn; [lia|].
  cbn [seq map find Z.of_nat]. rewrite Z.add_0_r, Hset. reflexivity.
Qed.

Lemma agg_update_parity_loop_same_cell env bit_map j0 idxs pbuf obuf buf diff :
  next_set_bit bit_map 0 = Some j0 ->
  forall j, j = 0 \/ j = j0 ->
    triple (fun _ => True) (update_at j0) (fun _ _ => True)
           (agg_update_parity_loop env idxs bit_map j pbuf obuf buf diff).
Proof.
  intros Hfirst. induction idxs as [|i rest IH]; intros j Hj;
    cbn [agg_update_parity_loop].
  - apply triple_ret. auto.
  - apply triple_bind_get. intros e _.
    apply triple_bind_emit; [exact I|].
    destruct (negb (xor_gen_rc env =? 0)); [apply triple_ret; auto|].
    assert (Hnext : next_set_bit bit_map j = Some j0).
    { destruct Hj as [->| ->]; [exact Hfirst|].
      apply next_set_bit_fixed. exact Hfirst. }
    rewrite Hnext.
    apply triple_bind_emit; [reflexivity|].
    apply IH. right. reflexivity.
Qed.

(** X15.  [agg_update_parity] looks for the cell index with
    [while (!isset(bit_map, j)) j++] and does not advance [j] after a cell:
    every [ec_encode_data_update] it issues is for the lowest set bit of the
    bitmap. *)
Theorem agg_update_parity_same_cell env bit_map cell_cnt j0 w :
  next_set_bit bit_map 0 = Some j0 ->
  Forall (update_at j0)
         (new_events w (agg_update_parity env bit_map cell_cnt w)).
Proof.
  intros Hfirst. apply new_events_of_extends.
  assert (Ht : triple (fun _ => True) (update_at j0) (fun _ _ => True)
                      (agg_update_parity env bit_map cell_cnt)).
  { assert (Hbuf : forall iov_entry,
               triple (fun _ => True) (update_at j0) (fun _ _ => True)
                      (sg_iov_buf iov_entry)).
    { intros iov_entry. unfold sg_iov_buf. apply triple_bind_get. intros e _.
      destruct (sg_iov e iov_entry); [apply triple_ret; auto|apply triple_crash]. }
    unfold agg_update_parity. apply triple_bind_get. intros e _.
    apply triple_bind_put; [exact I|].
    eapply triple_bind; [apply Hbuf|]. intros pbuf.
    eapply triple_bind; [apply Hbuf|]. intros obuf.
    eapply triple_bind; [apply Hbuf|]. intros buf.
    eapply triple_bind; [apply Hbuf|]. intros diff.
    apply (agg_update_parity_loop_same_cell env bit_map j0 _ _ _ _ _ Hfirst).
    left. reflexivity. }
  exact (proj1 (Ht w I)).
Qed.

(** At the bitmap of cells 1 and 3: both updates are for cell 1. *)
Lemma agg_update_parity_same_cell_witness :
  let w := mk_world (with_buffers (with_rsize 1 (fresh_entry 4 oca_4_1_8))) [] in
  new_events w (agg_update_parity env_ok (bitmap_of [1; 3]) 2 w) <> [] /\
  Forall (update_at 1)
         (new_events w (agg_update_parity env_ok (bitmap_of [1; 3]) 2 w)).
Proof.
  intros w. split; [vm_compute; intros H; discriminate H|].
  apply (agg_update_parity_same_cell env_ok (bitmap_of [1; 3]) 2 1 w).
  vm_compute. reflexivity.
Defined.

(** ** Stripes the reconciler leaves alone *)

(** With no flag set for a successful result, the part of
    [agg_process_stripe] after the label [out] only clears the stripe. *)
Lemma agg_process_stripe_out_skip env rc update_vos process_holes w :
  process_holes && (rc =? 0) = false ->
  update_vos && (rc =? 0) = false ->
  agg_process_stripe_out env rc update_vos process_holes w =
  match agg_clear_extents (w_entry w) with
  | Some e2 => Ret rc (mk_world e2 (w_trace w))
  | None => Crash w
  end.
Proof.
  intros Hh Hu. unfold agg_process_stripe_out. rewrite Hh, Hu. run_monad.
  destruct (agg_clear_extents (w_entry w)); destruct w; reflexivity.
Qed.

(** The first steps of [agg_process_stripe_decide]: the probe. *)
Lemma agg_process_stripe_decide_probe env w :
  agg_process_stripe_decide env w =
  match run_probe_cb (probe_entries env) (probe_start (w_entry w)) with
  | None =>
      Crash (mk_world (probe_start (w_entry w))
                      (w_trace w ++ [E_vos_iterate (probe_recx (w_entry w))]))
  | Some e1 =>
      let w1 := mk_world e1 (w_trace w ++ [E_vos_iterate (probe_recx (w_entry w))]) in
      if negb (probe_rc env =? 0) then Ret (probe_rc env, true, false) w1 else
      if (ape_epoch (ae_par_extent e1) >=? as_hi_epoch (ae_cur_stripe e1))
         && negb (ape_epoch (ae_par_extent e1) =? U64_MAX)
      then Ret (probe_rc env, false, false) w1 else
      if ((ape_epoch (ae_par_extent e1) =? U64_MAX)
          && agg_stripe_is_filled e1 false)
         || agg_stripe_is_filled e1 true
      then bind (agg_encode_local_parity env) (fun rc => ret (rc, true, false)) w1
      else
      if ape_epoch (ae_par_extent e1) =? U64_MAX
      then Ret (probe_rc env, false, false) w1 else
      if as_has_holes (ae_cur_stripe e1) then Ret (probe_rc env, true, true) w1
      else bind (agg_process_partial_stripe env)
                (fun rc => ret (rc, true, false)) w1
  end.
Proof.
  unfold agg_process_stripe_decide. run_monad.
  fold (probe_start (w_entry w)).
  change (mk_recx _ (e_len (ae_oca (probe_start (w_entry w)))))
    with (probe_recx (w_entry w)).
  destruct (run_probe_cb (probe_entries env) (probe_start (w_entry w)))
    as [e1|]; [|reflexivity].
  cbn [w_entry w_trace]. cbv zeta.
  repeat (match goal with
          | |- (if ?c then _ else _) _ = _ => destruct c
          end; cbv beta; cbn [w_entry w_trace]; try reflexivity).
Qed.

(** X16.  When the parity probe ([vos_iterate]) fails, [agg_process_stripe]
    does nothing but the probe: no fetch, no write, no removal, no RPC; it
    clears the stripe and returns the probe's error. *)
Theorem agg_process_stripe_probe_error env w e1 :
  probe_rc env <> 0 ->
  run_probe_cb (probe_entries env) (probe_start (w_entry w)) = Some e1 ->
  agg_process_stripe env w =
  match agg_clear_extents e1 with
  | Some e2 =>
      Ret (probe_rc env)
          (mk_world e2 (w_trace w ++ [E_vos_iterate (probe_recx (w_entry w))]))
  | None =>
      Crash (mk_world e1 (w_trace w ++ [E_vos_iterate (probe_recx (w_entry w))]))
  end.
Proof.
  intros Hrc Hprobe. unfold agg_process_stripe, bind.
  rewrite agg_process_stripe_decide_probe, Hprobe. cbv zeta.
  apply Z.eqb_neq in Hrc. rewrite Hrc. cbn [negb].
  rewrite agg_process_stripe_out_skip; [reflexivity|reflexivity|].
  rewrite Hrc. reflexivity.
Qed.

Lemma agg_process_stripe_probe_error_witness :
  let env :=
    mk_env 1009%positive (fun abt_rc => - abt_rc) true (-5) [] 0 0 0 0 0 0 0 0 0 0 0 0 0
           5 [[(4, 1)]; [(5, 1)]] 101 102 103 104 7 in
  let w := after_extents env_ok 4 oca_4_1_8 [data_ie 0 32 10 false] in
  agg_process_stripe env w =
  match agg_clear_extents (probe_start (w_entry w)) with
  | Some e2 =>
      Ret (-5) (mk_world e2 (w_trace w ++ [E_vos_iterate (probe_recx (w_entry w))]))
  | None =>
      Crash (mk_world (probe_start (w_entry w))
                      (w_trace w ++ [E_vos_iterate (probe_recx (w_entry w))]))
  end.
Proof.
  intros env w.
  apply (agg_process_stripe_probe_error env w (probe_start (w_entry w))).
  - vm_compute. intros H. discriminate H.
  - reflexivity.
Defined.

Lemma agg_stripe_is_filled_parity entry :
  agg_stripe_is_filled entry false = false ->
  agg_stripe_is_filled entry true = false.
Proof.
  unfold agg_stripe_is_filled.
  destruct (as_stripe_fill (ae_cur_stripe entry) =? _); [|reflexivity].
  cbn. discriminate.
Qed.

(** X17.  With no local parity and replicas that do not fill the stripe,
    [agg_process_stripe] does nothing but the probe: it clears the stripe and
    returns 0. *)
Theorem agg_process_stripe_no_parity_not_filled env w e1 :
  probe_rc env = 0 ->
  run_probe_cb (probe_entries env) (probe_start (w_entry w)) = Some e1 ->
  ape_epoch (ae_par_extent e1) = U64_MAX ->
  agg_stripe_is_filled e1 false = false ->
  agg_process_stripe env w =
  match agg_clear_extents e1 with
  | Some e2 =>
      Ret 0 (mk_world e2 (w_trace w ++ [E_vos_iterate (probe_recx (w_entry w))]))
  | None =>
      Crash (mk_world e1 (w_trace w ++ [E_vos_iterate (probe_recx (w_entry w))]))
  end.
Proof.
  intros Hrc Hprobe Hape Hfill. unfold agg_process_stripe, bind.
  rewrite agg_process_stripe_decide_probe, Hprobe. cbv zeta.
  rewrite Hrc, Hape, Hfill, (agg_stripe_is_filled_parity e1 Hfill).
  rewrite (Z.eqb_refl U64_MAX). cbn [negb Z.eqb andb orb].
  rewrite andb_false_r.
  rewrite agg_process_stripe_out_skip; reflexivity.
Qed.

Lemma agg_process_stripe_no_parity_not_filled_witness :
  let w := after_extents env_ok 4 oca_4_1_8 [data_ie 8 8 10 false] in
  agg_process_stripe env_ok w =
  match agg_clear_extents (probe_start (w_entry w)) with
  | Some e2 =>
      Ret 0 (mk_world e2 (w_trace w ++ [E_vos_iterate (probe_recx (w_entry w))]))
  | None =>
      Crash (mk_world (probe_start (w_entry w))
                      (w_trace w ++ [E_vos_iterate (probe_recx (w_entry w))]))
  end.
Proof.
  intros w.
  apply (agg_process_stripe_no_parity_not_filled env_ok w
           (probe_start (w_entry w))); vm_compute; reflexivity.
Defined.

(** X18.  A visible extent at another index than the stripe's parity index
    in the range of the probe fails the assertion of the probe's callback:
    [agg_process_stripe] stops after the probe, before any fetch, write,
    removal or RPC. *)
Theorem agg_process_stripe_foreign_parity env w recx epoch rest :
  probe_entries env = (recx, epoch) :: rest ->
  rx_idx recx <> rx_idx (probe_recx (w_entry w)) ->
  agg_process_stripe env w =
  Crash (mk_world (probe_start (w_entry w))
                  (w_trace w ++ [E_vos_iterate (probe_recx (w_entry w))])).
Proof.
  intros Hentries Hidx. unfold agg_process_stripe, bind.
  rewrite agg_process_stripe_decide_probe, Hentries.
  cbn [run_probe_cb]. unfold agg_recx_iter_pre_cb. cbn [fst snd].
  replace (rx_idx recx =? _) with false; [reflexivity|].
  symmetry. apply Z.eqb_neq. exact Hidx.
Qed.

Lemma agg_process_stripe_foreign_parity_witness :
  let env := scenario_env [parity_at 1 5] 0 0 0 0 in
  let w := after_extents env_ok 4 oca_4_1_8 [data_ie 8 8 10 false] in
  agg_process_stripe env w =
  Crash (mk_world (probe_start (w_entry w))
                  (w_trace w ++ [E_vos_iterate (probe_recx (w_entry w))])).
Proof.
  intros env w.
  apply (agg_process_stripe_foreign_parity env w (fst (parity_at 1 5)) 5 []).
  - reflexivity.
  - vm_compute. intros H. discriminate H.
Defined.

(** ** A failing peer *)

Section PeerTriples.

Variable env : environment.

Local Abbreviation quiet m :=
  (triple (fun _ => True) no_store_write (fun _ _ => True) m).

Lemma agg_get_obj_handle_quiet : quiet (agg_get_obj_handle env).
Proof. unfold agg_get_obj_handle. triple_go. Qed.

Lemma agg_peer_update_ult_quiet : quiet (agg_peer_update_ult env).
Proof.
  unfold agg_peer_update_ult. apply triple_bind_get. intros e _.
  destruct (negb (crt_req_create_rc env =? 0)); [apply triple_ret; auto|].
  apply (triple_bind _ _ (fun _ _ => True)).
  { unfold sg_iov_buf. apply triple_bind_get. intros e1 _.
    destruct (sg_iov e1 AGG_IOV_PARITY); [apply triple_ret; auto|apply triple_crash]. }
  intros buf. triple_go.
Qed.

Lemma agg_peer_update_quiet : quiet (agg_peer_update env).
Proof.
  unfold agg_peer_update.
  apply (triple_bind _ _ (fun _ _ => True)); [apply agg_get_obj_handle_quiet|].
  intros rc. destruct (negb (rc =? 0)); [triple_go|].
  unfold ABT_eventual_create, ABT_eventual_wait, dss_ult_create.
  apply triple_bind_ret.
  destruct (negb (ABT_eventual_create_rc env =? ABT_SUCCESS)); [triple_go|].
  destruct (negb (dss_ult_create_rc env =? 0)).
  - apply triple_bind_ret. triple_go.
  - apply (triple_bind _ _ (fun _ _ => True)).
    + apply (triple_bind _ _ (fun _ _ => True));
        [apply agg_peer_update_ult_quiet|].
      intros status. triple_go.
    + intros [rc' status]. triple_go.
Qed.

End PeerTriples.

(** X19.  With more than one parity cell, a parity-write to the peer that
    fails (any nonzero result of [agg_peer_update]) stops the commit: the
    local store is neither written nor trimmed, the stripe is cleared, and
    the peer's error is the result. *)
Theorem agg_process_stripe_out_peer_failure env w sfx rc w2 :
  1 < e_p (ae_oca (w_entry w)) ->
  agg_get_carry_under (w_entry w) = Some sfx ->
  agg_peer_update env
    (mk_world (with_stripe (with_suffix_ext sfx (ae_cur_stripe (w_entry w)))
                           (w_entry w))
              (w_trace w)) = Ret rc w2 ->
  rc <> 0 ->
  agg_process_stripe_out env 0 true false w =
    match agg_clear_extents (w_entry w2) with
    | Some e2 => Ret rc (mk_world e2 (w_trace w2))
    | None => Crash w2
    end /\
  Forall no_store_write
         (new_events w (agg_process_stripe_out env 0 true false w)).
Proof.
  intros Hp Hsfx Hpeer Hrc.
  assert (Hrun : agg_process_stripe_out env 0 true false w =
                 match agg_clear_extents (w_entry w2) with
                 | Some e2 => Ret rc (mk_world e2 (w_trace w2))
                 | None => Crash w2
                 end).
  { unfold agg_process_stripe_out. cbn [andb Z.eqb]. run_monad.
    rewrite Hsfx. run_monad.
    replace (e_p (ae_oca (w_entry w)) >? 1) with true
      by (symmetry; apply Z.gtb_lt; exact Hp).
    rewrite Hpeer.
    replace (rc =? 0) with false by (symmetry; apply Z.eqb_neq; exact Hrc).
    run_monad.
    destruct (agg_clear_extents (w_entry w2)); destruct w2; reflexivity. }
  split; [exact Hrun|].
  rewrite Hrun.
  destruct (agg_peer_update_quiet env
              (mk_world (with_stripe (with_suffix_ext sfx (ae_cur_stripe (w_entry w)))
                                     (w_entry w))
                        (w_trace w)) I) as [(l & Htr & Hl) _].
  rewrite Hpeer in Htr. cbn [outcome_trace w_trace] in Htr.
  unfold new_events.
  destruct (agg_clear_extents (w_entry w2)); cbn [outcome_trace w_trace];
    rewrite Htr, skipn_app_exact; exact Hl.
Qed.

(** With the class [k = 4], [p = 2] and a peer whose reply carries the
    status -7. *)
Lemma agg_process_stripe_out_peer_failure_witness :
  let env :=
    mk_env 1009%positive (fun abt_rc => - abt_rc) true 0 [] 0 0 0 0 0 0 0 0 0 0 0 0 (-7)
           5 [[(4, 1)]; [(5, 1)]] 101 102 103 104 7 in
  let w :=
    mk_world (with_buffers (w_entry (after_extents env 5 oca_4_2_8
                                                   [data_ie 0 32 10 false])))
             [] in
  exists w2,
    agg_process_stripe_out env 0 true false w =
      match agg_clear_extents (w_entry w2) with
      | Some e2 => Ret (-7) (mk_world e2 (w_trace w2))
      | None => Crash w2
      end /\
    Forall no_store_write
           (new_events w (agg_process_stripe_out env 0 true false w)).
Proof.
  intros env w.
  assert (H : exists w2,
             agg_peer_update env
               (mk_world (with_stripe (with_suffix_ext 0 (ae_cur_stripe (w_entry w)))
                                      (w_entry w))
                         (w_trace w)) = Ret (-7) w2)
    by (eexists; vm_compute; reflexivity).
  destruct H as (w2 & Hpeer). exists w2.
  apply (agg_process_stripe_out_peer_failure env w 0 (-7) w2).
  - vm_compute. reflexivity.
  - vm_compute. reflexivity.
  - exact Hpeer.
  - intros H. discriminate H.
Defined.

(** ** Observing an extent *)

(** [agg_process_stripe] keeps the object class. *)
Lemma agg_process_stripe_oca env w rc w1 :
  agg_process_stripe env w = Ret rc w1 ->
  ae_oca (w_entry w1) = ae_oca (w_entry w).
Proof.
  intros Hrun.
  exact (proj1 (proj2 (agg_process_stripe_keeps env (w_entry w) w
                         (stripe_inv_refl _)) rc w1 Hrun)).
Qed.

(** X20.  Whenever [agg_data_extent] returns (with the extent allocated), it
    returns 0 whatever the reconciliation of the previous stripe gave, the
    open stripe is the stripe of the extent, the extent is the last one of
    the list, the record size is the extent's, [as_hi_epoch] is at least the
    extent's epoch, and a hole has set [as_has_holes]. *)
Theorem agg_data_extent_appends env entry w rc w' :
  alloc_ok env = true ->
  agg_data_extent env entry w = Ret rc w' ->
  rc = 0 /\
  ae_oca (w_entry w') = ae_oca (w_entry w) /\
  udiv (rx_idx (ie_recx entry)) (obj_ec_stripe_rec_nr (ae_oca (w_entry w)))
    = Some (as_stripenum (ae_cur_stripe (w_entry w'))) /\
  (exists l,
      as_dextents (ae_cur_stripe (w_entry w'))
      = l ++ [mk_ext (ie_recx entry) (ie_epoch entry) (ie_hole entry)]) /\
  ae_rsize (w_entry w') = ie_rsize entry /\
  ie_epoch entry <= as_hi_epoch (ae_cur_stripe (w_entry w')) /\
  (ie_hole entry = true -> as_has_holes (ae_cur_stripe (w_entry w')) = true).
Proof.
  intros Halloc. unfold agg_data_extent. run_monad. unfold agg_stripenum.
  destruct (udiv (rx_idx (ie_recx entry))
                 (obj_ec_stripe_rec_nr (ae_oca (w_entry w)))) as [sn|] eqn:Hsn;
    [|discriminate].
  cbn [w_entry w_trace]. rewrite Halloc. cbn [negb].
  destruct (negb (sn =? as_stripenum (ae_cur_stripe (w_entry w)))) eqn:Hrot.
  - destruct (negb (as_stripenum (ae_cur_stripe (w_entry w)) =? U64_MAX)).
    + destruct (agg_process_stripe env w) as [rc1 w1|w1] eqn:Hrun;
        [|discriminate].
      pose proof (agg_process_stripe_oca env w rc1 w1 Hrun) as Hoca.
      cbn [w_entry w_trace]. rewrite Hoca, Hsn. cbn [w_entry w_trace].
      destruct (ie_hole entry) eqn:Hhole;
        [|destruct (agg_in_stripe _ _); [|discriminate]];
        intros H; inversion H; subst; cbn;
        (split; [reflexivity|]); (split; [exact Hoca|]);
        (split; [reflexivity|]); (split; [eexists; reflexivity|]);
        (split; [reflexivity|]);
        (split; [destruct (Z.gtb_spec (ie_epoch entry)
                             (as_hi_epoch (ae_cur_stripe (w_entry w1)))); lia|]);
        intros Hh; congruence.
    + rewrite Hsn. cbn [w_entry w_trace].
      destruct (ie_hole entry) eqn:Hhole;
        [|destruct (agg_in_stripe _ _); [|discriminate]];
        intros H; inversion H; subst; cbn;
        (split; [reflexivity|]); (split; [reflexivity|]);
        (split; [reflexivity|]); (split; [eexists; reflexivity|]);
        (split; [reflexivity|]);
        (split; [destruct (Z.gtb_spec (ie_epoch entry)
                             (as_hi_epoch (ae_cur_stripe (w_entry w)))); lia|]);
        intros Hh; congruence.
  - apply negb_false_iff, Z.eqb_eq in Hrot.
    destruct (ie_hole entry) eqn:Hhole;
      [|destruct (agg_in_stripe _ _); [|discriminate]];
      intros H; inversion H; subst; cbn;
      (split; [reflexivity|]); (split; [reflexivity|]);
      (split; [reflexivity|]); (split; [eexists; reflexivity|]);
      (split; [reflexivity|]);
      (split; [destruct (Z.gtb_spec (ie_epoch entry)
                           (as_hi_epoch (ae_cur_stripe (w_entry w)))); lia|]);
      intros Hh; congruence.
Qed.

(** When the extent [[32..40)] rotates the open stripe from 0 to 1 and
    the reconciliation of stripe 0 fails in its local fetch. *)
Lemma agg_data_extent_appends_witness :
  let env := scenario_env [] (-1) 0 0 0 in
  let w := after_extents env 4 oca_4_1_8 [data_ie 0 32 10 false] in
  exists w',
    agg_data_extent env (data_ie 32 8 12 false) w = Ret 0 w' /\
    udiv 32 (obj_ec_stripe_rec_nr (ae_oca (w_entry w)))
      = Some (as_stripenum (ae_cur_stripe (w_entry w'))) /\
    (exists l,
        as_dextents (ae_cur_stripe (w_entry w'))
        = l ++ [mk_ext (mk_recx 32 8) 12 false]).
Proof.
  intros env w.
  assert (H : exists w', agg_data_extent env (data_ie 32 8 12 false) w = Ret 0 w')
    by (eexists; vm_compute; reflexivity).
  destruct H as (w' & Hrun). exists w'. split; [exact Hrun|].
  destruct (agg_data_extent_appends env (data_ie 32 8 12 false) w 0 w'
              eq_refl Hrun) as (_ & _ & Hsn & Hl & _).
  split; [exact Hsn|exact Hl].
Defined.

Lemma gtb_max (a b : Z) : (if a >? b then a else b) = Z.max b a.
Proof. destruct (Z.gtb_spec a b); lia. Qed.

(** One extent of the open stripe: what [agg_ev] does to the list, the
    epoch and the hole flag. *)
Lemma agg_ev_same_stripe_fields env entry w :
  alloc_ok env = true ->
  obj_ec_stripe_rec_nr (ae_oca (w_entry w)) <> 0 ->
  0 <= rx_idx (ie_recx entry) < 2 ^ 63 ->
  rx_idx (ie_recx entry) / obj_ec_stripe_rec_nr (ae_oca (w_entry w))
    = as_stripenum (ae_cur_stripe (w_entry w)) ->
  exists w',
    agg_ev env entry w = Ret 0 w' /\
    ae_oca (w_entry w') = ae_oca (w_entry w) /\
    as_stripenum (ae_cur_stripe (w_entry w'))
      = as_stripenum (ae_cur_stripe (w_entry w)) /\
    as_dextents (ae_cur_stripe (w_entry w'))
      = as_dextents (ae_cur_stripe (w_entry w))
        ++ [mk_ext (ie_recx entry) (ie_epoch entry) (ie_hole entry)] /\
    as_hi_epoch (ae_cur_stripe (w_entry w'))
      = Z.max (as_hi_epoch (ae_cur_stripe (w_entry w))) (ie_epoch entry) /\
    as_has_holes (ae_cur_stripe (w_entry w'))
      = as_has_holes (ae_cur_stripe (w_entry w)) || ie_hole entry.
Proof.
  intros Halloc Hss Hidx Hsn.
  unfold agg_ev, agg_data_extent. run_monad.
  rewrite (land_parity_indicator _ Hidx). cbn [Z.eqb]. run_monad.
  unfold agg_stripenum, udiv.
  replace (obj_ec_stripe_rec_nr (ae_oca (w_entry w)) =? 0) with false
    by (symmetry; apply Z.eqb_neq; exact Hss).
  run_monad. rewrite Hsn, Z.eqb_refl. cbn [negb]. run_monad.
  rewrite Halloc. cbn [negb]. run_monad.
  destruct (ie_hole entry) eqn:Hhole.
  - run_monad. eexists. split; [reflexivity|]. cbn.
    rewrite gtb_max, orb_true_r. auto.
  - unfold agg_in_stripe, udiv.
    cbn [ae_oca with_rsize].
    replace (u32 (e_len (ae_oca (w_entry w)) * e_k (ae_oca (w_entry w))) =? 0)
      with false.
    2:{ symmetry. apply Z.eqb_neq. rewrite Z.mul_comm. exact Hss. }
    match goal with
    | |- context [if ?c then Some ?a else Some ?b] =>
        replace (if c then Some a else Some b)
          with (Some (if c then a else b)) by (destruct c; reflexivity)
    end.
    run_monad. eexists. split; [reflexivity|]. cbn.
    rewrite gtb_max, orb_false_r. auto.
Qed.

(** X21.  Extents delivered for the stripe that is open are buffered in
    delivery order; [as_hi_epoch] becomes the maximum of its former value and
    their epochs, and [as_has_holes] is set as soon as one of them is a
    hole. *)
Theorem iterate_recxs_same_stripe_state env entries : forall w,
  alloc_ok env = true ->
  obj_ec_stripe_rec_nr (ae_oca (w_entry w)) <> 0 ->
  Forall (fun entry =>
            0 <= rx_idx (ie_recx entry) < 2 ^ 63 /\
            rx_idx (ie_recx entry) / obj_ec_stripe_rec_nr (ae_oca (w_entry w))
              = as_stripenum (ae_cur_stripe (w_entry w))) entries ->
  exists w',
    iterate_recxs env entries w = Ret 0 w' /\
    as_dextents (ae_cur_stripe (w_entry w'))
      = as_dextents (ae_cur_stripe (w_entry w))
        ++ map (fun entry => mk_ext (ie_recx entry) (ie_epoch entry) (ie_hole entry))
               entries /\
    as_hi_epoch (ae_cur_stripe (w_entry w'))
      = fold_left Z.max (map ie_epoch entries)
                  (as_hi_epoch (ae_cur_stripe (w_entry w))) /\
    as_has_holes (ae_cur_stripe (w_entry w'))
      = as_has_holes (ae_cur_stripe (w_entry w)) || existsb ie_hole entries.
Proof.
  induction entries as [|entry rest IH]; intros w Halloc Hss Hall.
  - exists w. cbn. rewrite app_nil_r, orb_false_r. auto.
  - inversion Hall as [|? ? [Hidx Hsn] Hrest]; subst.
    destruct (agg_ev_same_stripe_fields env entry w Halloc Hss Hidx Hsn)
      as (w1 & Hstep & Hoca & Hnum & Hl & Hhi & Hholes).
    destruct (IH w1 Halloc) as (w' & Hrun & Hl' & Hhi' & Hholes').
    + rewrite Hoca. exact Hss.
    + rewrite Hoca, Hnum. exact Hrest.
    + exists w'. cbn [iterate_recxs agg_iterate_pre_cb]. unfold bind at 1.
      rewrite Hstep. cbn [negb Z.eqb]. split; [exact Hrun|].
      rewrite Hl', Hhi', Hholes', Hl, Hhi, Hholes.
      cbn [map fold_left existsb]. rewrite <- app_assoc, orb_assoc.
      auto.
Qed.

Lemma iterate_recxs_same_stripe_state_witness :
  let entries :=
    [data_ie 0 4 7 false; data_ie 4 4 12 true; data_ie 8 8 9 false] in
  exists w',
    iterate_recxs env_ok entries (fresh_world 4 oca_4_1_8) = Ret 0 w' /\
    as_dextents (ae_cur_stripe (w_entry w'))
      = [] ++ map (fun entry => mk_ext (ie_recx entry) (ie_epoch entry) (ie_hole entry))
                  entries /\
    as_hi_epoch (ae_cur_stripe (w_entry w'))
      = fold_left Z.max (map ie_epoch entries) 0 /\
    as_has_holes (ae_cur_stripe (w_entry w')) = false || existsb ie_hole entries.
Proof.
  intros entries.
  apply (iterate_recxs_same_stripe_state env_ok entries (fresh_world 4 oca_4_1_8)).
  - reflexivity.
  - vm_compute. intros H. discriminate H.
  - repeat constructor; vm_compute; congruence.
Defined.

(** ** The object handle and the peer *)

(** X22.  [agg_get_obj_handle] opens the object at most once: after a call
    that returned 0, a further call returns 0 without opening anything and
    without changing the entry. *)
Theorem agg_get_obj_handle_once env w w1 :
  agg_get_obj_handle env w = Ret 0 w1 ->
  agg_get_obj_handle env w1 = Ret 0 w1.
Proof.
  unfold agg_get_obj_handle. run_monad.
  destruct (ae_obj_hdl (w_entry w)) eqn:Hhdl; cbn [negb]; run_monad.
  - intros H. inversion H; subst. rewrite Hhdl. reflexivity.
  - destruct (dsc_obj_open_rc env =? 0) eqn:Hrc.
    + destruct (agg_get_obj_handle_loop env (concat (layout env))
                                        U32_MAX U32_MAX None) as [[[rank idx]|]|];
        run_monad; intros H; inversion H; subst; reflexivity.
    + intros H. inversion H; subst. rewrite H1 in Hrc. discriminate Hrc.
Qed.

Lemma agg_get_obj_handle_once_witness :
  let w := fresh_world 5 oca_4_2_8 in
  exists w1,
    agg_get_obj_handle env_ok w = Ret 0 w1 /\
    agg_get_obj_handle env_ok w1 = Ret 0 w1.
Proof.
  intros w.
  assert (H : exists w1, agg_get_obj_handle env_ok w = Ret 0 w1)
    by (eexists; vm_compute; reflexivity).
  destruct H as (w1 & H). exists w1. split; [exact H|].
  exact (agg_get_obj_handle_once env_ok w w1 H).
Defined.

Lemma agg_get_obj_handle_loop_others env l : forall prevrank previdx peer,
  ~ In (myrank env) (map fst l) ->
  agg_get_obj_handle_loop env l prevrank previdx peer = Some peer.
Proof.
  induction l as [|[r i] l IH]; intros prevrank previdx peer Hnot;
    [reflexivity|].
  cbn [agg_get_obj_handle_loop].
  replace (r =? myrank env) with false.
  - apply IH. intros Hin. apply Hnot. right. exact Hin.
  - symmetry. apply Z.eqb_neq. intros Heq. apply Hnot. left. exact Heq.
Qed.

Lemma agg_get_obj_handle_loop_prefix env pre pr pi rest :
  forall prevrank previdx peer,
    ~ In (myrank env) (map fst pre) ->
    pr <> myrank env ->
    agg_get_obj_handle_loop env (pre ++ (pr, pi) :: rest) prevrank previdx peer
    = agg_get_obj_handle_loop env rest pr pi peer.
Proof.
  induction pre as [|[r i] pre IH]; intros prevrank previdx peer Hnot Hpr.
  - cbn [app agg_get_obj_handle_loop].
    replace (pr =? myrank env) with false
      by (symmetry; apply Z.eqb_neq; exact Hpr).
    reflexivity.
  - cbn [app agg_get_obj_handle_loop].
    replace (r =? myrank env) with false.
    + apply IH; [|exact Hpr]. intros Hin. apply Hnot. right. exact Hin.
    + symmetry. apply Z.eqb_neq. intros Heq. apply Hnot. left. exact Heq.
Qed.

(** X23.  When the object is opened, the peer the entry records is the
    layout entry (rank and target index) that comes right before this
    server's own rank, for a layout in which the own rank appears once. *)
Theorem agg_get_obj_handle_peer env w pre pr pi x post :
  ae_obj_hdl (w_entry w) = false ->
  dsc_obj_open_rc env = 0 ->
  concat (layout env) = pre ++ (pr, pi) :: (myrank env, x) :: post ->
  ~ In (myrank env) (map fst pre) ->
  pr <> myrank env ->
  ~ In (myrank env) (map fst post) ->
  pi <> U32_MAX ->
  agg_get_obj_handle env w =
  Ret 0 (mk_world (with_peer pr pi (with_obj_hdl true (w_entry w)))
                  (w_trace w ++ [E_dsc_obj_open])).
Proof.
  intros Hhdl Hrc Hlayout Hpre Hpr Hpost Hpi.
  unfold agg_get_obj_handle. run_monad. rewrite Hhdl. cbn [negb]. run_monad.
  rewrite Hrc, Hlayout. cbn [Z.eqb].
  rewrite (agg_get_obj_handle_loop_prefix env pre pr pi _ _ _ _ Hpre Hpr).
  cbn [agg_get_obj_handle_loop]. rewrite Z.eqb_refl.
  replace (pi =? U32_MAX) with false by (symmetry; apply Z.eqb_neq; exact Hpi).
  cbn [negb].
  rewrite (agg_get_obj_handle_loop_others env post _ _ _ Hpost).
  reflexivity.
Qed.

Lemma agg_get_obj_handle_peer_witness :
  let w := fresh_world 5 oca_4_2_8 in
  agg_get_obj_handle env_ok w =
  Ret 0 (mk_world (with_peer 4 1 (with_obj_hdl true (w_entry w)))
                  (w_trace w ++ [E_dsc_obj_open])).
Proof.
  intros w.
  apply (agg_get_obj_handle_peer env_ok w
           [(0, 0); (1, 0); (2, 0); (3, 0)] 4 1 1 []).
  - reflexivity.
  - reflexivity.
  - reflexivity.
  - vm_compute. intuition congruence.
  - vm_compute. congruence.
  - vm_compute. tauto.
  - vm_compute. congruence.
Defined.

(** X24.  When this server's own rank is the first entry of the layout,
    there is no predecessor to take as peer and opening the object fails the
    assertion [previdx != ~0]. *)
Theorem agg_get_obj_handle_self_first env w x rest :
  ae_obj_hdl (w_entry w) = false ->
  dsc_obj_open_rc env = 0 ->
  concat (layout env) = (myrank env, x) :: rest ->
  agg_get_obj_handle env w =
  Crash (mk_world (w_entry w) (w_trace w ++ [E_dsc_obj_open])).
Proof.
  intros Hhdl Hrc Hlayout.
  unfold agg_get_obj_handle. run_monad. rewrite Hhdl. cbn [negb]. run_monad.
  rewrite Hrc, Hlayout. cbn [Z.eqb agg_get_obj_handle_loop].
  rewrite Z.eqb_refl, (Z.eqb_refl U32_MAX). reflexivity.
Qed.

Lemma agg_get_obj_handle_self_first_witness :
  let env :=
    mk_env 1009%positive (fun abt_rc => - abt_rc) true 0 [] 0 0 0 0 0 0 0 0 0 0 0 0 0
           5 [[(5, 1)]; [(4, 1)]] 101 102 103 104 7 in
  let w := fresh_world 5 oca_4_2_8 in
  agg_get_obj_handle env w =
  Crash (mk_world (w_entry w) (w_trace w ++ [E_dsc_obj_open])).
Proof.
  intros env w.
  apply (agg_get_obj_handle_self_first env w 1 [(4, 1)]); reflexivity.
Defined.

(** ** The hole path *)

(** With [sg_iovs] at the start of the array, one check of [agg_prep_sgl]
    followed by the rest of the function does what [agg_prep_sgl_check]
    says. *)
Lemma agg_prep_sgl_buf_agrees env s t slot need align next_pure (next : M Z) w :
  w_trace w = t -> ae_cur_stripe (w_entry w) = s ->
  ae_sg_iovs (w_entry w) = Some 0 ->
  (forall w1, w_trace w1 = t -> ae_cur_stripe (w_entry w1) = s ->
              ae_sg_iovs (w_entry w1) = Some 0 ->
              prep_agrees s t (next_pure (ae_sgl (w_entry w1))) (next w1)) ->
  prep_agrees s t
    (agg_prep_sgl_check (DER_NOMEM env) (fun _ => alloc_ok env) slot need align
                        next_pure (ae_sgl (w_entry w)))
    ((rc <- agg_prep_sgl_buf env slot need align ;;
      if negb (rc =? 0) then ret rc else next) w).
Proof.
  intros Ht Hs Hp Hnext.
  unfold agg_prep_sgl_check, agg_prep_sgl_buf. run_monad.
  unfold sg_iov. rewrite Hp, iov_at_index.
  destruct (iov_buf_len (sgl_iov (ae_sgl (w_entry w)) slot) <? need).
  - destruct (agg_alloc_buf _ _ _ _ _ _) as [rc sgl'].
    run_monad. destruct (negb (rc =? 0)) eqn:Hrc.
    + cbn [prep_agrees]. eexists. rewrite Ht. split; [reflexivity|].
      cbn. repeat split; auto; try (intros ->; discriminate Hrc).
    + exact (Hnext (mk_world (with_sgl sgl' (w_entry w)) (w_trace w))
                   Ht Hs Hp).
  - cbn [negb Z.eqb]. destruct w as [e tr]. exact (Hnext (mk_world e tr) Ht Hs Hp).
Qed.

Lemma agg_prep_sgl_buf_agrees_last env s t slot need align w :
  w_trace w = t -> ae_cur_stripe (w_entry w) = s ->
  ae_sg_iovs (w_entry w) = Some 0 ->
  prep_agrees s t
    (agg_prep_sgl_check (DER_NOMEM env) (fun _ => alloc_ok env) slot need align
                        (fun sgl => Some (0, sgl)) (ae_sgl (w_entry w)))
    (agg_prep_sgl_buf env slot need align w).
Proof.
  intros Ht Hs Hp.
  unfold agg_prep_sgl_check, agg_prep_sgl_buf. run_monad.
  unfold sg_iov. rewrite Hp, iov_at_index.
  destruct (iov_buf_len (sgl_iov (ae_sgl (w_entry w)) slot) <? need).
  - destruct (agg_alloc_buf _ _ _ _ _ _) as [rc sgl'].
    run_monad. destruct (Z.eqb_spec rc 0) as [-> | Hrc]; cbn [negb prep_agrees];
      eexists; rewrite Ht; (split; [reflexivity|]); cbn; repeat split; auto.
  - destruct w as [e tr]. cbn in *. exists e. subst. repeat split; auto.
Qed.

(** [agg_prep_sgl] and [agg_prep_sgl_bufs] agree on an sgl that has no array
    yet, or whose [sg_iovs] stands at the start of the array. *)
Lemma agg_prep_sgl_by_bufs env w :
  ae_sg_nr (ae_sgl (w_entry w)) = 0 \/ ae_sg_iovs (w_entry w) = Some 0 ->
  prep_agrees (ae_cur_stripe (w_entry w)) (w_trace w)
    (agg_prep_sgl_bufs (DER_NOMEM env) (fun _ => alloc_ok env)
                       (ae_oca (w_entry w)) (ae_rsize (w_entry w))
                       (ae_sgl (w_entry w)))
    (agg_prep_sgl env w).
Proof.
  intros Hin. unfold agg_prep_sgl_bufs, agg_prep_sgl.
  unfold bind at 1, get_entry at 1. cbv beta iota.
  destruct ((ae_sg_nr (ae_sgl (w_entry w)) =? 0) && negb (alloc_ok env)) eqn:Hfirst.
  { run_monad. cbn [prep_agrees]. eexists. split; [reflexivity|].
    split; [reflexivity|]. split; [reflexivity|]. intros H.
    pose proof (DER_NOMEM_nonzero env) as Hn. apply Z.eqb_neq in Hn.
    contradiction. }
  destruct (Z.eqb_spec (ae_sg_nr (ae_sgl (w_entry w))) 0) as [Hz | Hnz].
  - unfold bind at 1, put_entry at 1. cbv beta iota.
    unfold bind at 1, get_entry at 1. cbv beta iota. cbn [w_entry w_trace].
    unfold bind at 1, D_ASSERT at 1.
    apply (agg_prep_sgl_buf_agrees env _ _ _ _ _ _ _
             (mk_world
                (with_sg_iovs (Some 0)
                   (with_sgl (mk_agg_sgl AGG_IOV_CNT (mk_agg_iov false 0 0)
                                         (mk_agg_iov false 0 0)
                                         (mk_agg_iov false 0 0)
                                         (mk_agg_iov false 0 0))
                             (w_entry w)))
                (w_trace w))); try reflexivity.
    intros w1 Ht1 Hs1 Hp1. apply agg_prep_sgl_buf_agrees; auto.
    intros w2 Ht2 Hs2 Hp2. apply agg_prep_sgl_buf_agrees; auto.
    intros w3 Ht3 Hs3 Hp3. apply agg_prep_sgl_buf_agrees_last; auto.
  - destruct Hin as [Hz | Hp]; [contradiction|].
    unfold bind at 1, ret at 1. cbv beta iota.
    unfold bind at 1, get_entry at 1. cbv beta iota.
    unfold bind at 1, D_ASSERT at 1.
    destruct (ae_sg_nr (ae_sgl (w_entry w)) =? AGG_IOV_CNT);
      cbn [negb]; cbv beta iota; [|unfold crash; eexists; reflexivity].
    unfold ret at 1. cbv beta iota.
    destruct w as [e tr]. cbn [w_entry w_trace] in *.
    apply (agg_prep_sgl_buf_agrees env _ _ _ _ _ _ _ (mk_world e tr));
      try reflexivity; auto.
    intros w1 Ht1 Hs1 Hp1. apply agg_prep_sgl_buf_agrees; auto.
    intros w2 Ht2 Hs2 Hp2. apply agg_prep_sgl_buf_agrees; auto.
    intros w3 Ht3 Hs3 Hp3. apply agg_prep_sgl_buf_agrees_last; auto.
Qed.

Lemma agg_prep_sgl_check_allocs der slot need align next sgl :
  exists sgl1,
    agg_prep_sgl_check der (fun _ => true) slot need align next sgl = next sgl1 /\
    ae_sg_nr sgl1 = ae_sg_nr sgl.
Proof.
  unfold agg_prep_sgl_check, agg_alloc_buf.
  destruct (iov_buf_len (sgl_iov sgl slot) <? need); [|exists sgl; auto].
  destruct align; cbn [negb Z.eqb]; eexists; (split; [reflexivity|]);
    destruct slot; reflexivity.
Qed.

(** When every allocation succeeds and the sgl is in order, [agg_prep_sgl]
    returns 0 with the sgl in order and its array in place. *)
Lemma agg_prep_sgl_returns env w :
  alloc_ok env = true ->
  sgl_in_order (w_entry w) ->
  exists e',
    agg_prep_sgl env w = Ret 0 (mk_world e' (w_trace w)) /\
    ae_sg_nr (ae_sgl e') = AGG_IOV_CNT /\
    ae_cur_stripe e' = ae_cur_stripe (w_entry w) /\
    ae_sg_iovs e' = Some 0.
Proof.
  intros Halloc Hin.
  assert (Hin' : ae_sg_nr (ae_sgl (w_entry w)) = 0 \/ ae_sg_iovs (w_entry w) = Some 0)
    by (destruct Hin as [H | [_ H]]; auto).
  pose proof (agg_prep_sgl_by_bufs env w Hin') as Hrun.
  assert (Hpure : exists sgl',
             agg_prep_sgl_bufs (DER_NOMEM env) (fun _ => alloc_ok env)
               (ae_oca (w_entry w)) (ae_rsize (w_entry w)) (ae_sgl (w_entry w))
             = Some (0, sgl') /\ ae_sg_nr sgl' = AGG_IOV_CNT).
  { rewrite Halloc. unfold agg_prep_sgl_bufs. cbn [negb andb].
    rewrite andb_false_r.
    set (sgl0 := if ae_sg_nr (ae_sgl (w_entry w)) =? 0 then _ else _).
    assert (Hnr : ae_sg_nr sgl0 = AGG_IOV_CNT).
    { unfold sgl0. destruct Hin as [-> | [Hnr _]]; [reflexivity|].
      destruct (ae_sg_nr (ae_sgl (w_entry w)) =? 0); [reflexivity | exact Hnr]. }
    rewrite Hnr. cbn [negb Z.eqb AGG_IOV_CNT Pos.eqb].
    destruct (agg_prep_sgl_check_allocs (DER_NOMEM env) AGG_IOV_DATA
                (u64 (u32 (e_len (ae_oca (w_entry w)) * e_k (ae_oca (w_entry w)))
                      * ae_rsize (w_entry w))) true
                (agg_prep_sgl_check (DER_NOMEM env) (fun _ => true) AGG_IOV_ODATA
                   (u64 (u32 (e_len (ae_oca (w_entry w)) * e_k (ae_oca (w_entry w)))
                         * ae_rsize (w_entry w))) true
                   (agg_prep_sgl_check (DER_NOMEM env) (fun _ => true) AGG_IOV_DIFF
                      (u64 (e_len (ae_oca (w_entry w)) * ae_rsize (w_entry w))) true
                      (agg_prep_sgl_check (DER_NOMEM env) (fun _ => true)
                         AGG_IOV_PARITY
                         (u64 (u32 (e_len (ae_oca (w_entry w))
                                    * e_p (ae_oca (w_entry w)))
                               * ae_rsize (w_entry w))) false
                         (fun sgl => Some (0, sgl))))) sgl0)
      as (s1 & -> & H1).
    destruct (agg_prep_sgl_check_allocs (DER_NOMEM env) AGG_IOV_ODATA
                (u64 (u32 (e_len (ae_oca (w_entry w)) * e_k (ae_oca (w_entry w)))
                      * ae_rsize (w_entry w))) true
                (agg_prep_sgl_check (DER_NOMEM env) (fun _ => true) AGG_IOV_DIFF
                   (u64 (e_len (ae_oca (w_entry w)) * ae_rsize (w_entry w))) true
                   (agg_prep_sgl_check (DER_NOMEM env) (fun _ => true)
                      AGG_IOV_PARITY
                      (u64 (u32 (e_len (ae_oca (w_entry w))
                                 * e_p (ae_oca (w_entry w)))
                            * ae_rsize (w_entry w))) false
                      (fun sgl => Some (0, sgl)))) s1)
      as (s2 & -> & H2).
    destruct (agg_prep_sgl_check_allocs (DER_NOMEM env) AGG_IOV_DIFF
                (u64 (e_len (ae_oca (w_entry w)) * ae_rsize (w_entry w))) true
                (agg_prep_sgl_check (DER_NOMEM env) (fun _ => true)
                   AGG_IOV_PARITY
                   (u64 (u32 (e_len (ae_oca (w_entry w))
                              * e_p (ae_oca (w_entry w)))
                         * ae_rsize (w_entry w))) false
                   (fun sgl => Some (0, sgl))) s2)
      as (s3 & -> & H3).
    destruct (agg_prep_sgl_check_allocs (DER_NOMEM env) AGG_IOV_PARITY
                (u64 (u32 (e_len (ae_oca (w_entry w))
                           * e_p (ae_oca (w_entry w)))
                      * ae_rsize (w_entry w))) false
                (fun sgl => Some (0, sgl)) s3)
      as (s4 & -> & H4).
    exists s4. split; [reflexivity | congruence]. }
  destruct Hpure as (sgl' & Hpure & Hnr).
  rewrite Hpure in Hrun. cbn [prep_agrees] in Hrun.
  destruct Hrun as (e' & Hrun & Hsgl & Hs & Hp).
  exists e'. repeat split; auto. congruence.
Qed.

Lemma agg_holes_gaps_length ss l : forall recxs tot last,
  (length (fst (fst (agg_holes_gaps l ss recxs tot last)))
   <= length recxs + length l)%nat.
Proof.
  induction l as [|x l IH]; intros recxs tot last; cbn [agg_holes_gaps length fst].
  - lia.
  - destruct (u64 (rx_idx (ae_recx x) - ss) >? last).
    + eapply Nat.le_trans; [apply IH|]. rewrite length_app. cbn [length]. lia.
    + eapply Nat.le_trans; [apply IH|]. lia.
Qed.

(** With [sg_iovs] at the start of the array and one slot of [asu_recxs]
    for every extent of the stripe and one more, [agg_process_holes_ult]
    always sets a status: it stops in no assertion; it leaves the stripe
    alone and [sg_iovs] where it was. *)
Lemma agg_process_holes_ult_returns env w :
  ae_sg_iovs (w_entry w) = Some 0 ->
  Z.of_nat (length (as_dextents (ae_cur_stripe (w_entry w))))
    <= as_extent_cnt (ae_cur_stripe (w_entry w)) ->
  as_extent_cnt (ae_cur_stripe (w_entry w)) + 1 < 2 ^ 32 ->
  exists ud w' l,
    agg_process_holes_ult env w = Ret ud w' /\
    ae_cur_stripe (w_entry w') = ae_cur_stripe (w_entry w) /\
    ae_oca (w_entry w') = ae_oca (w_entry w) /\
    ae_sg_iovs (w_entry w') = Some 0 /\
    w_trace w' = w_trace w ++ l.
Proof.
  intros Hp Hlen Hcnt.
  destruct w as [e tr].
  destruct e as [shard oca codec sgl ptr dkey akey rsize s par hdl rank idx].
  cbn [w_entry w_trace ae_sg_iovs ae_cur_stripe ae_oca] in *. subst ptr.
  unfold agg_process_holes_ult. run_monad.
  cbn [ae_oca ae_cur_stripe ae_rsize ae_oid_shard ae_dkey ae_akey
       ae_peer_rank ae_peer_idx].
  destruct (negb (alloc_ok env)).
  { eexists; eexists; exists []; repeat split.
    symmetry; apply app_nil_r. }
  pose proof (agg_holes_gaps_length
                (u64 (u64 (as_stripenum s * e_k oca) * e_len oca))
                (as_dextents s) [] 0 0) as Hgaps.
  destruct (agg_holes_gaps _ _ _ _ _) as [[recxs tot] last].
  cbn [fst length] in Hgaps.
  assert (Hu : u32 (as_extent_cnt s + 1) = as_extent_cnt s + 1).
  { unfold u32. apply Z.mod_small. lia. }
  match goal with
  | |- context [if last <? ?b then ?x else ?y] =>
      set (pr := if last <? b then x else y)
  end.
  assert (Hpr : (Z.of_nat (length (fst pr)) <=? u32 (as_extent_cnt s + 1)) = true).
  { rewrite Hu. apply Z.leb_le. unfold pr.
    destruct (last <? _); cbn [fst]; rewrite ?length_app; cbn [length]; lia. }
  destruct pr as [recxs0 tot0]. cbn [fst] in Hpr. rewrite Hpr.
  unfold sg_iov, entry_sgl.
  cbn [ae_sg_iovs with_sgl ae_sgl sgl_with_nr ae_sg_nr iov_at iov_index
       Z.add Z.eqb w_entry w_trace sgl_set sgl_iov].
  change (Z.to_nat 1) with 1%nat.
  cbn [sg_iovs_from iov_at Z.eqb w_entry w_trace].
  repeat match goal with
         | |- context [if negb ?b then _ else _] => destruct b; cbn [negb]
         end;
    cbn [w_entry w_trace ae_sgl ae_sg_iovs ae_cur_stripe ae_oca with_sgl];
    eexists; eexists; eexists; (split; [reflexivity|]);
    cbn [w_entry w_trace ae_sgl ae_sg_iovs ae_cur_stripe ae_oca with_sgl];
    repeat split; rewrite <- ?app_assoc; reflexivity.
Qed.

(** [agg_get_obj_handle] leaves the sgl and the stripe alone. *)
Lemma agg_get_obj_handle_frame env w rc w1 :
  agg_get_obj_handle env w = Ret rc w1 ->
  ae_sgl (w_entry w1) = ae_sgl (w_entry w) /\
  ae_sg_iovs (w_entry w1) = ae_sg_iovs (w_entry w) /\
  ae_cur_stripe (w_entry w1) = ae_cur_stripe (w_entry w) /\
  exists l, w_trace w1 = w_trace w ++ l.
Proof.
  unfold agg_get_obj_handle. run_monad.
  destruct (negb (ae_obj_hdl (w_entry w))).
  - destruct (dsc_obj_open_rc env =? 0).
    + destruct (agg_get_obj_handle_loop env _ _ _ _) as [[[rank idx]|]|];
        intros H; inversion H; subst; cbn [w_entry w_trace];
        repeat split; eexists; reflexivity.
    + intros H; inversion H; subst; cbn [w_entry w_trace].
      repeat split; eexists; reflexivity.
  - intros H; inversion H; subst. repeat split. exists []. symmetry. apply app_nil_r.
Qed.

(** With [sg_nr] at 1 and [sg_iovs] at the start of the array a callee reads
    the data iov alone. *)
Lemma entry_sgl_one e :
  ae_sg_iovs e = Some 0 ->
  entry_sgl (with_sgl (sgl_with_nr 1 (ae_sgl e)) e)
  = Some (mk_sgl 1 [mk_iov AGG_IOV_DATA 0 (iov_length (iov_data (ae_sgl e)))]).
Proof.
  intros Hp. unfold entry_sgl.
  cbn [ae_sgl ae_sg_iovs with_sgl sgl_with_nr ae_sg_nr].
  rewrite Hp. reflexivity.
Qed.

Lemma agg_process_holes_local_trace env w w1 :
  alloc_ok env = true ->
  sgl_in_order (w_entry w) ->
  Z.of_nat (length (as_dextents (ae_cur_stripe (w_entry w))))
    <= as_extent_cnt (ae_cur_stripe (w_entry w)) ->
  as_extent_cnt (ae_cur_stripe (w_entry w)) + 1 < 2 ^ 32 ->
  agg_get_obj_handle env w = Ret 0 w1 ->
  ABT_eventual_create_rc env = ABT_SUCCESS ->
  dss_ult_create_rc env = 0 ->
  ABT_eventual_wait_rc env = ABT_SUCCESS ->
  exists w' l iod_nr recxs iov_len rest,
    agg_process_holes env w =
    Ret (if vos_obj_update_rc env =? 0 then vos_obj_array_remove_rc env
         else vos_obj_update_rc env) w' /\
    w_trace w' =
    w_trace w
    ++ l ++ E_vos_obj_update (as_hi_epoch (ae_cur_stripe (w_entry w)))
                             iod_nr recxs
                             (mk_sgl 1 [mk_iov AGG_IOV_DATA 0 iov_len]) :: rest.
Proof.
  intros Halloc Hin Hlen Hcnt Hhdl Hcreate Hult Hwait.
  destruct (agg_get_obj_handle_frame env w 0 w1 Hhdl)
    as (Hsgl1 & Hp1 & Hs1 & l1 & Ht1).
  assert (Hin1 : sgl_in_order (w_entry w1)).
  { unfold sgl_in_order. rewrite Hsgl1, Hp1. exact Hin. }
  destruct (agg_prep_sgl_returns env w1 Halloc Hin1)
    as (e2 & Hprep & Hnr2 & Hs2 & Hp2).
  destruct (agg_process_holes_ult_returns env (mk_world e2 (w_trace w1)))
    as (ud & w3 & l3 & Hrun & Hs3 & _ & Hp3 & Ht3).
  { exact Hp2. }
  { cbn [w_entry]. rewrite Hs2, Hs1. exact Hlen. }
  { cbn [w_entry]. rewrite Hs2, Hs1. exact Hcnt. }
  cbn [w_entry w_trace] in Hs3, Ht3.
  assert (Hs : ae_cur_stripe (w_entry w3) = ae_cur_stripe (w_entry w))
    by congruence.
  unfold agg_process_holes, ABT_eventual_create, ABT_eventual_wait, dss_ult_create.
  run_monad. rewrite Hhdl. cbn [negb Z.eqb]. rewrite Hprep. cbn [negb Z.eqb].
  rewrite Hcreate, Hult, Hwait.
  unfold ABT_SUCCESS. cbn [negb Z.eqb]. rewrite Hrun. cbn [negb Z.eqb].
  rewrite (entry_sgl_one _ Hp3).
  cbn [w_entry w_trace ae_cur_stripe with_sgl ae_oca].
  rewrite Hs, Ht3, Ht1.
  destruct (vos_obj_update_rc env =? 0); cbn [negb]; cbv beta.
  - eexists. exists (l1 ++ l3). eexists. eexists. eexists. eexists.
    split; [reflexivity|]. cbn [w_trace].
    rewrite <- !app_assoc. reflexivity.
  - eexists. exists (l1 ++ l3). eexists. eexists. eexists. exists [].
    split; [reflexivity|]. cbn [w_trace].
    rewrite <- !app_assoc. reflexivity.
Qed.

(** X25.  On the hole path the status of the offload (the remote fetch and
    the replicate request to the peer) does not decide the result.  When the
    sgl is in order (not set up yet, or with its four iovs and [sg_iovs] at
    the start of the array), every allocation succeeds and [as_extent_cnt]
    counts the extents of the stripe, then once the offload has run
    [agg_process_holes] writes the local store through the data iov alone
    and returns the result of that write, or of the removal of the parity
    when the write succeeded. *)
Theorem agg_process_holes_local_result env w w1 :
  alloc_ok env = true ->
  sgl_in_order (w_entry w) ->
  Z.of_nat (length (as_dextents (ae_cur_stripe (w_entry w))))
    <= as_extent_cnt (ae_cur_stripe (w_entry w)) ->
  as_extent_cnt (ae_cur_stripe (w_entry w)) + 1 < 2 ^ 32 ->
  agg_get_obj_handle env w = Ret 0 w1 ->
  ABT_eventual_create_rc env = ABT_SUCCESS ->
  dss_ult_create_rc env = 0 ->
  ABT_eventual_wait_rc env = ABT_SUCCESS ->
  (exists w',
     agg_process_holes env w =
     Ret (if vos_obj_update_rc env =? 0 then vos_obj_array_remove_rc env
          else vos_obj_update_rc env) w') /\
  exists iod_nr recxs iov_len,
    In (E_vos_obj_update (as_hi_epoch (ae_cur_stripe (w_entry w))) iod_nr recxs
                         (mk_sgl 1 [mk_iov AGG_IOV_DATA 0 iov_len]))
       (new_events w (agg_process_holes env w)).
Proof.
  intros Halloc Hin Hlen Hcnt Hhdl Hcreate Hult Hwait.
  destruct (agg_process_holes_local_trace env w w1 Halloc Hin Hlen Hcnt Hhdl
              Hcreate Hult Hwait)
    as (w' & l & iod_nr & recxs & iov_len & rest & Hrun & Htrace).
  split; [exists w'; exact Hrun|].
  exists iod_nr, recxs, iov_len.
  unfold new_events. rewrite Hrun. cbn [outcome_trace].
  rewrite Htrace, skipn_app_exact.
  apply in_or_app. right. left. reflexivity.
Qed.

(** With a peer that answers the replicate request with -7: the result
    is still 0, and the local store was written. *)
Lemma agg_process_holes_local_result_witness :
  let env :=
    mk_env 1009%positive (fun abt_rc => - abt_rc) true 0 [parity_at 0 5] 0 0 0 0 0 0 0 0
           0 0 0 0 (-7) 5 [[(4, 1)]; [(5, 1)]] 101 102 103 104 7 in
  let w :=
    after_extents env 5 oca_4_1_8 [data_ie 0 4 10 true; data_ie 4 12 10 false] in
  (exists w', agg_process_holes env w = Ret 0 w') /\
  exists iod_nr recxs iov_len,
    In (E_vos_obj_update 10 iod_nr recxs
                         (mk_sgl 1 [mk_iov AGG_IOV_DATA 0 iov_len]))
       (new_events w (agg_process_holes env w)).
Proof.
  intros env w.
  assert (H : exists w1, agg_get_obj_handle env w = Ret 0 w1)
    by (eexists; vm_compute; reflexivity).
  destruct H as (w1 & Hhdl).
  assert (Hin : sgl_in_order (w_entry w)) by (left; reflexivity).
  assert (Hlen : Z.of_nat (length (as_dextents (ae_cur_stripe (w_entry w))))
                 <= as_extent_cnt (ae_cur_stripe (w_entry w)))
    by (vm_compute; discriminate).
  assert (Hcnt : as_extent_cnt (ae_cur_stripe (w_entry w)) + 1 < 2 ^ 32)
    by (vm_compute; reflexivity).
  exact (agg_process_holes_local_result env w w1 eq_refl Hin Hlen Hcnt Hhdl
           eq_refl eq_refl eq_refl).
Defined.

(** An sgl left with [sg_nr] neither 0 nor [AGG_IOV_CNT] stops the next
    [agg_prep_sgl] in its assertion, and so the hole path once the object is
    open. *)
Lemma agg_prep_sgl_leftover_sgl env w :
  ae_sg_nr (ae_sgl (w_entry w)) <> 0 ->
  ae_sg_nr (ae_sgl (w_entry w)) <> AGG_IOV_CNT ->
  agg_prep_sgl env w = Crash w.
Proof.
  intros H0 H4. unfold agg_prep_sgl. run_monad.
  destruct (Z.eqb_spec (ae_sg_nr (ae_sgl (w_entry w))) 0) as [|_]; [contradiction|].
  cbn [andb]. run_monad.
  destruct (Z.eqb_spec (ae_sg_nr (ae_sgl (w_entry w))) AGG_IOV_CNT) as [|_];
    [contradiction|].
  destruct w; reflexivity.
Qed.

Lemma agg_process_holes_leftover_sgl env w w1 :
  ae_sg_nr (ae_sgl (w_entry w)) <> 0 ->
  ae_sg_nr (ae_sgl (w_entry w)) <> AGG_IOV_CNT ->
  agg_get_obj_handle env w = Ret 0 w1 ->
  agg_process_holes env w = Crash w1.
Proof.
  intros H0 H4 Hhdl.
  destruct (agg_get_obj_handle_frame env w 0 w1 Hhdl) as (Hsgl & _).
  unfold agg_process_holes. cbv [bind]. rewrite Hhdl. cbn [negb Z.eqb].
  rewrite agg_prep_sgl_leftover_sgl; [reflexivity | |]; rewrite Hsgl; assumption.
Qed.

(** When [dsc_obj_open] fails in [agg_fetch_odata_cells], the stripe is given
    up with [sg_nr] at 1 and [sg_iovs] one iov ahead; the next stripe that
    needs the buffers (here a full one) stops in the assertion of
    [agg_prep_sgl], right after its probe. *)
Lemma failed_open_leaves_sgl_out_of_order :
  let env :=
    mk_env 1009%positive (fun abt_rc => - abt_rc) true 0 [parity_at 0 5] 0 0 0
           (-1005) 0 0 0 0 0 0 0 0 0 5
           [[(0, 0)]; [(1, 0)]; [(2, 0)]; [(3, 0)]; [(4, 1)]; [(5, 1)]]
           101 102 103 104 7 in
  let first := [data_ie 8 8 12 false; data_ie 32 32 13 false] in
  let w := fresh_world 4 oca_4_1_8 in
  (exists w1,
     iterate_recxs env first w = Ret 0 w1 /\
     ae_sg_nr (ae_sgl (w_entry w1)) = 1 /\ ae_sg_iovs (w_entry w1) = Some 1 /\
     w_trace w1 =
     [E_vos_iterate (mk_recx PARITY_INDICATOR 8);
      E_vos_obj_fetch 12 2 [mk_recx 8 8] (mk_sgl 2 [mk_iov AGG_IOV_DATA 0 8]);
      E_dsc_obj_open]) /\
  (exists w2,
     iterate_recxs env (first ++ [data_ie 64 8 14 false]) w = Crash w2 /\
     w_trace w2 =
     [E_vos_iterate (mk_recx PARITY_INDICATOR 8);
      E_vos_obj_fetch 12 2 [mk_recx 8 8] (mk_sgl 2 [mk_iov AGG_IOV_DATA 0 8]);
      E_dsc_obj_open;
      E_vos_iterate (mk_recx (Z.lor PARITY_INDICATOR 8) 8)]).
Proof.
  split; eexists; vm_compute; repeat split; reflexivity.
Qed.

(** ** The buffers of the entry *)

Lemma agg_prep_sgl_check_skip der allocs slot need align next sgl :
  need <= iov_buf_len (sgl_iov sgl slot) ->
  agg_prep_sgl_check der allocs slot need align next sgl = next sgl.
Proof.
  intros H. unfold agg_prep_sgl_check.
  destruct (Z.ltb_spec (iov_buf_len (sgl_iov sgl slot)) need); [lia | reflexivity].
Qed.

Lemma agg_prep_sgl_check_ok der allocs slot need align next sgl sgl' :
  der <> 0 ->
  agg_prep_sgl_check der allocs slot need align next sgl = Some (0, sgl') ->
  exists sgl1,
    next sgl1 = Some (0, sgl') /\
    need <= iov_buf_len (sgl_iov sgl1 slot) /\
    iov_buf_len (sgl_iov sgl slot) <= iov_buf_len (sgl_iov sgl1 slot) /\
    ae_sg_nr sgl1 = ae_sg_nr sgl /\
    (forall other, other <> slot -> sgl_iov sgl1 other = sgl_iov sgl other).
Proof.
  intros Hder. unfold agg_prep_sgl_check, agg_alloc_buf.
  destruct (Z.ltb_spec (iov_buf_len (sgl_iov sgl slot)) need) as [Hlt | Hge].
  - assert (Hneg : (- der =? 0) = false) by (apply Z.eqb_neq; lia).
    destruct align, (allocs (Some slot)); cbn [negb Z.eqb];
      rewrite ?Hneg; cbn [negb]; intros H;
      try (exfalso; injection H; intros; lia);
      (exists (sgl_set sgl slot (mk_agg_iov true need need)); split; [exact H |];
       destruct slot; cbn [sgl_iov sgl_set iov_data iov_odata iov_parity
                           iov_diff iov_buf_len ae_sg_nr] in *;
       repeat split; try lia;
       intros other Ho; destruct other; try reflexivity; congruence).
  - intros H. exists sgl. repeat split; auto; lia.
Qed.

(** X26 ([agg_prep_sgl], [agg_alloc_buf]).  When [agg_prep_sgl] returns 0
    (and [DER_NOMEM] is not 0), the sgl has its four iovs and each buffer is
    at least as long as needed for the object class and record size: the
    data and old-data buffers hold [len * k] records, the diff buffer [len]
    records and the parity buffer [len * p] records; and when the iovs were
    there already, no buffer is shorter than before. *)
Theorem agg_prep_sgl_bufs_suffices der allocs oca rsize sgl sgl'
    (Hder : der <> 0)
    (Hrun : agg_prep_sgl_bufs der allocs oca rsize sgl = Some (0, sgl')) :
  sgl_suffices oca rsize sgl' /\
  (ae_sg_nr sgl <> 0 -> sgl_no_shorter sgl sgl').
Proof.
  unfold agg_prep_sgl_bufs in Hrun.
  set (sgl0 := if ae_sg_nr sgl =? 0
               then mk_agg_sgl AGG_IOV_CNT (mk_agg_iov false 0 0) (mk_agg_iov false 0 0)
                               (mk_agg_iov false 0 0) (mk_agg_iov false 0 0)
               else sgl) in *.
  destruct ((ae_sg_nr sgl =? 0) && negb (allocs None)) eqn:Hfirst.
  { inversion Hrun; lia. }
  destruct (Z.eqb_spec (ae_sg_nr sgl0) AGG_IOV_CNT) as [Hnr | Hnr];
    cbn [negb] in Hrun; [| discriminate Hrun].
  apply agg_prep_sgl_check_ok in Hrun; [| exact Hder].
  destruct Hrun as (s1 & Hrun & Hd1 & Hm1 & Hn1 & Ho1).
  apply agg_prep_sgl_check_ok in Hrun; [| exact Hder].
  destruct Hrun as (s2 & Hrun & Hd2 & Hm2 & Hn2 & Ho2).
  apply agg_prep_sgl_check_ok in Hrun; [| exact Hder].
  destruct Hrun as (s3 & Hrun & Hd3 & Hm3 & Hn3 & Ho3).
  apply agg_prep_sgl_check_ok in Hrun; [| exact Hder].
  destruct Hrun as (s4 & Hrun & Hd4 & Hm4 & Hn4 & Ho4).
  inversion Hrun; subst s4; clear Hrun.
  pose proof (Ho2 AGG_IOV_DATA ltac:(discriminate)) as E21.
  pose proof (Ho3 AGG_IOV_DATA ltac:(discriminate)) as E31.
  pose proof (Ho3 AGG_IOV_ODATA ltac:(discriminate)) as E32.
  pose proof (Ho4 AGG_IOV_DATA ltac:(discriminate)) as E41.
  pose proof (Ho4 AGG_IOV_ODATA ltac:(discriminate)) as E42.
  pose proof (Ho4 AGG_IOV_DIFF ltac:(discriminate)) as E43.
  pose proof (Ho1 AGG_IOV_ODATA ltac:(discriminate)) as E12.
  pose proof (Ho1 AGG_IOV_DIFF ltac:(discriminate)) as E13.
  pose proof (Ho1 AGG_IOV_PARITY ltac:(discriminate)) as E14.
  pose proof (Ho2 AGG_IOV_DIFF ltac:(discriminate)) as E23.
  pose proof (Ho2 AGG_IOV_PARITY ltac:(discriminate)) as E24.
  pose proof (Ho3 AGG_IOV_PARITY ltac:(discriminate)) as E34.
  cbn [sgl_iov] in *.
  split.
  - unfold sgl_suffices.
    rewrite E41, E31, E21, E42, E32, E43.
    repeat split; try assumption. congruence.
  - intros Hnz. unfold sgl_no_shorter.
    assert (Hs : sgl0 = sgl).
    { unfold sgl0. destruct (Z.eqb_spec (ae_sg_nr sgl) 0); [contradiction | reflexivity]. }
    rewrite Hs in *.
    rewrite E41, E31, E21, E42, E32, E43.
    rewrite E12 in Hm2. rewrite E23, E13 in Hm3. rewrite E34, E24, E14 in Hm4.
    repeat split; assumption.
Qed.

Lemma agg_prep_sgl_bufs_suffices_witness :
  let allocs := fun _ : option agg_iov_entry => true in
  let sgl := mk_agg_sgl 0 (mk_agg_iov false 0 0) (mk_agg_iov false 0 0)
                        (mk_agg_iov false 0 0) (mk_agg_iov false 0 0) in
  let sgl' := mk_agg_sgl 4 (mk_agg_iov true 32 32) (mk_agg_iov true 32 32)
                         (mk_agg_iov true 8 8) (mk_agg_iov true 8 8) in
  agg_prep_sgl_bufs 1009 allocs oca_4_1_8 1 sgl = Some (0, sgl') /\
  sgl_suffices oca_4_1_8 1 sgl'.
Proof.
  intros allocs sgl sgl'.
  assert (Hrun : agg_prep_sgl_bufs 1009 allocs oca_4_1_8 1 sgl = Some (0, sgl'))
    by (vm_compute; reflexivity).
  split; [exact Hrun |].
  exact (proj1 (agg_prep_sgl_bufs_suffices 1009 allocs oca_4_1_8 1 sgl sgl'
                  ltac:(lia) Hrun)).
Defined.

(** X27 ([agg_prep_sgl]).  When the buffers of the sgl already suffice for
    the object class and record size, [agg_prep_sgl] returns 0 and leaves
    the sgl as it is, whatever the allocator would answer: nothing is
    allocated. *)
Theorem agg_prep_sgl_bufs_noop der allocs oca rsize sgl
    (Hok : sgl_suffices oca rsize sgl) :
  agg_prep_sgl_bufs der allocs oca rsize sgl = Some (0, sgl).
Proof.
  destruct Hok as (Hnr & Hd & Ho & Hf & Hp).
  unfold agg_prep_sgl_bufs. rewrite Hnr.
  change (AGG_IOV_CNT =? 0) with false. cbn [andb].
  rewrite Hnr, Z.eqb_refl. cbn [negb].
  rewrite !agg_prep_sgl_check_skip; auto.
Qed.

Lemma agg_prep_sgl_bufs_noop_witness :
  let sgl := mk_agg_sgl 4 (mk_agg_iov true 64 64) (mk_agg_iov true 32 8)
                        (mk_agg_iov true 8 8) (mk_agg_iov true 16 16) in
  sgl_suffices oca_4_1_8 1 sgl /\
  agg_prep_sgl_bufs 1009 (fun _ => false) oca_4_1_8 1 sgl = Some (0, sgl).
Proof.
  intros sgl.
  assert (Hok : sgl_suffices oca_4_1_8 1 sgl)
    by (unfold sgl_suffices; vm_compute; repeat split; discriminate).
  split; [exact Hok |].
  exact (agg_prep_sgl_bufs_noop 1009 (fun _ => false) oca_4_1_8 1 sgl Hok).
Defined.

(** X28 ([agg_prep_sgl], [agg_alloc_buf]).  A failed aligned allocation
    frees the old buffer and keeps its recorded length: [agg_prep_sgl]
    returns [-DER_NOMEM] with the data iov holding no buffer, and a later
    call for an object class and record size that the recorded lengths
    suffice for returns 0 without allocating, so the data iov still holds
    no buffer. *)
Theorem agg_prep_sgl_bufs_failed_alloc der allocs allocs' oca rsize oca' rsize' sgl
    (Hder : der <> 0)
    (Hnr : ae_sg_nr sgl = AGG_IOV_CNT)
    (Hshort : iov_buf_len (iov_data sgl) < u64 (u32 (e_len oca * e_k oca) * rsize))
    (Hfail : allocs (Some AGG_IOV_DATA) = false)
    (Hlater : sgl_suffices oca' rsize' sgl) :
  exists sgl1,
    agg_prep_sgl_bufs der allocs oca rsize sgl = Some (- der, sgl1) /\
    iov_buf (iov_data sgl1) = false /\
    agg_prep_sgl_bufs der allocs' oca' rsize' sgl1 = Some (0, sgl1).
Proof.
  exists (sgl_set sgl AGG_IOV_DATA
            (mk_agg_iov false (iov_buf_len (iov_data sgl))
                        (iov_length (iov_data sgl)))).
  destruct Hlater as (_ & Hd & Ho & Hf & Hp).
  split; [| split].
  - unfold agg_prep_sgl_bufs. rewrite Hnr.
    change (AGG_IOV_CNT =? 0) with false. cbn [andb].
    rewrite Hnr, Z.eqb_refl. cbn [negb].
    unfold agg_prep_sgl_check at 1. cbn [sgl_iov].
    destruct (Z.ltb_spec (iov_buf_len (iov_data sgl))
                         (u64 (u32 (e_len oca * e_k oca) * rsize))); [| lia].
    unfold agg_alloc_buf. rewrite Hfail. cbn [sgl_iov].
    assert (Hneg : (- der =? 0) = false) by (apply Z.eqb_neq; lia).
    rewrite Hneg. reflexivity.
  - reflexivity.
  - unfold agg_prep_sgl_bufs. cbn [sgl_set ae_sg_nr]. rewrite Hnr.
    change (AGG_IOV_CNT =? 0) with false. cbn [andb].
    rewrite Z.eqb_refl. cbn [negb].
    rewrite !agg_prep_sgl_check_skip; auto.
Qed.

Lemma agg_prep_sgl_bufs_failed_alloc_witness :
  let sgl := mk_agg_sgl 4 (mk_agg_iov true 32 32) (mk_agg_iov true 32 32)
                        (mk_agg_iov true 8 8) (mk_agg_iov true 8 8) in
  let allocs := fun _ : option agg_iov_entry => false in
  exists sgl1,
    agg_prep_sgl_bufs 1009 allocs oca_4_1_8 2 sgl = Some (- 1009, sgl1) /\
    iov_buf (iov_data sgl1) = false /\
    agg_prep_sgl_bufs 1009 allocs oca_4_1_8 1 sgl1 = Some (0, sgl1).
Proof.
  intros sgl allocs.
  apply (agg_prep_sgl_bufs_failed_alloc 1009 allocs allocs oca_4_1_8 2 oca_4_1_8 1 sgl).
  - lia.
  - reflexivity.
  - vm_compute. reflexivity.
  - reflexivity.
  - unfold sgl_suffices. vm_compute. repeat split; discriminate.
Defined.
